(** * go-fdo: delegate chains, identifier rules and permission names,
      certificates as text, COSE headers, signature selection, HMAC
      verification and the fdo.payload and fdo.ssh service-info modules.

    A shallow embedding of the Go sources in Rocq.  Go strings and byte
    slices are lists of bytes ([list ascii]); Go [int]/[int64] values are
    [Z]; runes are code points in [N].  Functions that return [error] return
    an [option] of an error value ([None] is Go's [nil]). *)

From Stdlib Require Import String Ascii ZArith NArith Bool Lia Arith List.
From Stdlib Require DecimalString DecimalZ.
Import ListNotations.

Local Open Scope list_scope.

(** ** Go strings *)

(** A Go string is an immutable sequence of bytes. *)
Definition gostring := list ascii.

(** String literals of the sources. *)
Definition go (s : string) : gostring := list_ascii_of_string s.

Definition byte_eqb (a b : ascii) : bool := Ascii.eqb a b.

Fixpoint gostring_eqb (a b : gostring) : bool :=
  match a, b with
  | [], [] => true
  | x :: a', y :: b' => byte_eqb x y && gostring_eqb a' b'
  | _, _ => false
  end.

Module strings.

(** [strings.HasPrefix(s, prefix)]. *)
Fixpoint HasPrefix (s prefix : gostring) : bool :=
  match prefix, s with
  | [], _ => true
  | p :: prefix', c :: s' => byte_eqb c p && HasPrefix s' prefix'
  | _ :: _, [] => false
  end.

(** The scanning loop of [strings.Replace(s, old, new, -1)] for a
    non-empty [old]: occurrences of [old] are replaced left to right and
    do not overlap.  [skip] counts the bytes of the occurrence found last
    that are still to be passed over. *)
Fixpoint replaceFrom (old new : gostring) (skip : nat) (s : gostring) : gostring :=
  match s with
  | [] => []
  | c :: s' =>
      match skip with
      | S k => replaceFrom old new k s'
      | O => if HasPrefix s old
             then new ++ replaceFrom old new (length old - 1) s'
             else c :: replaceFrom old new 0 s'
      end
  end.

(** [strings.ReplaceAll(s, old, new)], which is
    [strings.Replace(s, old, new, -1)].  Every call in the sources passes
    a non-empty literal for [old]; the empty [old] (which Go matches
    between runes) is not needed and left as the identity. *)
Definition ReplaceAll (s old new : gostring) : gostring :=
  match old with
  | [] => s
  | _ :: _ => replaceFrom old new 0 s
  end.

(** [strings.Split(s, sep)] for a one-byte separator, the only use in the
    sources ([","]).  The result is never empty: splitting the empty
    string gives one empty field. *)
Fixpoint Split (s : gostring) (sep : ascii) : list gostring :=
  match s with
  | [] => [[]]
  | c :: s' =>
      if byte_eqb c sep then [] :: Split s' sep
      else match Split s' sep with
           | field :: fields => (c :: field) :: fields
           | [] => [[c]]
           end
  end.

End strings.

(** ** unicode/utf8 *)

Module utf8.

Definition rune := N.

Definition RuneError : rune := 65533%N.

Local Open Scope N_scope.

(** The table [first] of package utf8 together with [acceptRanges]: for a
    leading byte, the length of the sequence and the range allowed for
    its second byte; [None] for the bytes that start no sequence. *)
Definition first (b : N) : option (nat * N * N) :=
  if b <? 0xC2 then None
  else if b <? 0xE0 then Some (2%nat, 0x80, 0xBF)
  else if b =? 0xE0 then Some (3%nat, 0xA0, 0xBF)
  else if b =? 0xED then Some (3%nat, 0x80, 0x9F)
  else if b <? 0xF0 then Some (3%nat, 0x80, 0xBF)
  else if b =? 0xF0 then Some (4%nat, 0x90, 0xBF)
  else if b <? 0xF4 then Some (4%nat, 0x80, 0xBF)
  else if b =? 0xF4 then Some (4%nat, 0x80, 0x8F)
  else None.

Definition inRange (lo hi b : N) : bool := (lo <=? b) && (b <=? hi).

(** Continuation bytes lie between [locb] and [hicb]. *)
Definition isCont (b : N) : bool := inRange 0x80 0xBF b.

(** [utf8.DecodeRuneInString]: the first rune of [s] and its width in
    bytes.  An encoding error gives [(RuneError, 1)], the empty string
    [(RuneError, 0)]. *)
Definition DecodeRuneInString (s : gostring) : rune * nat :=
  match s with
  | [] => (RuneError, 0%nat)
  | c0 :: s1 =>
      let s0 := N_of_ascii c0 in
      if s0 <? 0x80 then (s0, 1%nat)
      else
        match first s0 with
        | None => (RuneError, 1%nat)
        | Some (sz, lo, hi) =>
            if (length s <? sz)%nat then (RuneError, 1%nat)
            else
              match s1 with
              | [] => (RuneError, 1%nat)
              | c1 :: s2 =>
                  let b1 := N_of_ascii c1 in
                  if negb (inRange lo hi b1) then (RuneError, 1%nat)
                  else if (sz <=? 2)%nat
                  then ((s0 mod 32) * 64 + b1 mod 64, 2%nat)
                  else
                    match s2 with
                    | [] => (RuneError, 1%nat)
                    | c2 :: s3 =>
                        let b2 := N_of_ascii c2 in
                        if negb (isCont b2) then (RuneError, 1%nat)
                        else if (sz <=? 3)%nat
                        then ((s0 mod 16) * 4096 + (b1 mod 64) * 64 + b2 mod 64, 3%nat)
                        else
                          match s3 with
                          | [] => (RuneError, 1%nat)
                          | c3 :: _ =>
                              let b3 := N_of_ascii c3 in
                              if negb (isCont b3) then (RuneError, 1%nat)
                              else ((s0 mod 8) * 262144 + (b1 mod 64) * 4096
                                    + (b2 mod 64) * 64 + b3 mod 64, 4%nat)
                          end
                    end
              end
        end
  end.

(** Walking a string rune by rune, as [for _, r := range s] and the
    regexp machines do: each step decodes at the current position and
    advances by the width found.  [skip] counts the bytes of the current
    rune still to be passed over. *)
Fixpoint decodeFrom (skip : nat) (s : gostring) : list (rune * nat) :=
  match s with
  | [] => []
  | _ :: s' =>
      match skip with
      | S k => decodeFrom k s'
      | O => let d := DecodeRuneInString s in d :: decodeFrom (snd d - 1) s'
      end
  end.

(** [[]rune(s)]: encoding errors become [RuneError]. *)
Definition runes (s : gostring) : list rune := map fst (decodeFrom 0 s).

Definition isError (d : rune * nat) : bool :=
  (fst d =? RuneError) && (snd d =? 1)%nat.

(** [utf8.ValidString]. *)
Definition ValidString (s : gostring) : bool :=
  forallb (fun d => negb (isError d)) (decodeFrom 0 s).

End utf8.

(** ** regexp

    The part of package regexp that the sources reach.  Patterns are only
    ever built as ["^" + QuoteMeta(p) + "$"] with every [\*] turned into
    [.*], so the syntax modelled is: the anchors [^] and [$], a backslash
    followed by a punctuation byte, [.], the postfix star, and literal
    runes.  Flags are those of [regexp.Compile]: [.] does not match a
    newline, and [^] and [$] match at the two ends of the text only. *)

Module regexp.

Import utf8.

(** [specialBytes], the bytes [QuoteMeta] escapes. *)
Definition specialBytes : gostring := go "\.+*?()|[]{}^$".

Definition special (b : ascii) : bool := existsb (byte_eqb b) specialBytes.

(** [regexp.QuoteMeta]: a backslash goes in front of every special byte. *)
Definition QuoteMeta (s : gostring) : gostring :=
  flat_map (fun b => if special b then ["\"%char; b] else [b]) s.

Inductive atom : Type :=
| Lit (r : rune)      (* one given rune *)
| AnyCharNotNL.       (* [.] *)

Inductive token : Type :=
| TAtom (a : atom)
| TStar
| TBegin
| TEnd.

Inductive inst : Type :=
| BeginText           (* [^] *)
| EndText             (* [$] *)
| One (a : atom)
| Star (a : atom).    (* [a*] *)

Definition prog := list inst.

Local Open Scope N_scope.

Definition isalnum (r : rune) : bool :=
  inRange 48 57 r || inRange 65 90 r || inRange 97 122 r.

(** A backslash followed by ASCII punctuation stands for that byte. *)
Definition isPunct (r : rune) : bool := (r <? 128) && negb (isalnum r).

(** The operators outside the modelled syntax: [+ ? ( ) | [ ] { }]. *)
Definition unsupportedOp (r : rune) : bool :=
  existsb (N.eqb r) [43; 63; 40; 41; 124; 91; 93; 123; 125].

(** First pass of the parser.  [None] is a parse error, or an operator
    outside the modelled syntax. *)
Fixpoint lex (rs : list rune) : option (list token) :=
  match rs with
  | [] => Some []
  | r :: rest =>
      if r =? 92 (* backslash *) then
        match rest with
        | c :: rest' =>
            if isPunct c then option_map (cons (TAtom (Lit c))) (lex rest')
            else None
        | [] => None (* trailing backslash at end of expression *)
        end
      else if r =? 46 (* . *) then option_map (cons (TAtom AnyCharNotNL)) (lex rest)
      else if r =? 42 (* * *) then option_map (cons TStar) (lex rest)
      else if r =? 94 (* ^ *) then option_map (cons TBegin) (lex rest)
      else if r =? 36 (* $ *) then option_map (cons TEnd) (lex rest)
      else if unsupportedOp r then None
      else option_map (cons (TAtom (Lit r))) (lex rest)
  end.

(** Second pass: a star applies to the atom before it; a star with no
    atom before it is "missing argument to repetition operator". *)
Fixpoint assemble (ts : list token) : option prog :=
  match ts with
  | [] => Some []
  | TAtom a :: TStar :: ts' => option_map (cons (Star a)) (assemble ts')
  | TAtom a :: ts' => option_map (cons (One a)) (assemble ts')
  | TBegin :: ts' => option_map (cons BeginText) (assemble ts')
  | TEnd :: ts' => option_map (cons EndText) (assemble ts')
  | TStar :: _ => None
  end.

(** [regexp.Compile]: an expression that is not valid UTF-8 is refused
    ("invalid UTF-8"), as is one that does not parse. *)
Definition Compile (expr : gostring) : option prog :=
  if ValidString expr then
    match lex (runes expr) with
    | Some ts => assemble ts
    | None => None
    end
  else None.

Definition accepts (a : atom) (r : rune) : bool :=
  match a with
  | Lit c => r =? c
  | AnyCharNotNL => negb (r =? 10)
  end.

(** Does [re] match a prefix of [text]?  [atStart] tells whether [text]
    begins at the beginning of the whole input. *)
Fixpoint matchHere (re : prog) (atStart : bool) (text : list rune) {struct re} : bool :=
  match re with
  | [] => true
  | BeginText :: re' => atStart && matchHere re' atStart text
  | EndText :: re' =>
      match text with
      | [] => matchHere re' atStart text
      | _ :: _ => false
      end
  | One a :: re' =>
      match text with
      | r :: text' => accepts a r && matchHere re' false text'
      | [] => false
      end
  | Star a :: re' =>
      (fix star (atStart : bool) (text : list rune) {struct text} : bool :=
         matchHere re' atStart text
         || match text with
            | r :: text' => accepts a r && star false text'
            | [] => false
            end) atStart text
  end.

(** An unanchored search: a match may begin at any position. *)
Fixpoint matchAnywhere (re : prog) (atStart : bool) (text : list rune) : bool :=
  matchHere re atStart text
  || match text with
     | _ :: text' => matchAnywhere re false text'
     | [] => false
     end.

(** [Regexp.MatchString]: the text is read rune by rune, an invalid byte
    counting as [RuneError]. *)
Definition Match (re : prog) (s : gostring) : bool :=
  matchAnywhere re true (runes s).

(** [regexp.MatchString(pattern, s)]; [None] is a non-nil error. *)
Definition MatchString (pattern s : gostring) : option bool :=
  match Compile pattern with
  | Some re => Some (Match re s)
  | None => None
  end.

(** [regexp.MustCompile(old').ReplaceAllString(src, repl)] where the
    expression [old'] matches exactly the byte string [old] and [repl]
    holds no [$]: the occurrences of [old], found left to right without
    overlap, are replaced by [repl]. *)
Definition ReplaceAllLiteral (old src repl : gostring) : gostring :=
  strings.ReplaceAll src old repl.

End regexp.

(** ** delegate.go: identifier rules *)

(** The expression built for one pattern term [p] in
    [IsPermittedIdentifierRule]:
    [regexPattern := "^" + regexp.QuoteMeta(p) + "$"] and then
    [strings.ReplaceAll(regexPattern, `\*`, ".*")]. *)
Definition regexPattern (p : gostring) : gostring :=
  let regexPattern := go "^" ++ regexp.QuoteMeta p ++ go "$" in
  strings.ReplaceAll regexPattern (go "\*") (go ".*").

(** The inner loop of [IsPermittedIdentifierRule] for one child term [c]:
    [Some true] when a parent term matched ([permitted = true; break]),
    [Some false] when none did, [None] when [regexp.MatchString] returned
    an error (the function then returns [false] at once). *)
Fixpoint permittedBy (parentIdentifiers : list gostring) (c : gostring) : option bool :=
  match parentIdentifiers with
  | [] => Some false
  | p :: ps =>
      match regexp.MatchString (regexPattern p) c with
      | None => None
      | Some true => Some true
      | Some false => permittedBy ps c
      end
  end.

(** The outer loop of [IsPermittedIdentifierRule]. *)
Fixpoint allPermitted (childIdentifiers parentIdentifiers : list gostring) : bool :=
  match childIdentifiers with
  | [] => true
  | c :: cs =>
      match permittedBy parentIdentifiers c with
      | Some true => allPermitted cs parentIdentifiers
      | Some false => false
      | None => false
      end
  end.

Definition IsPermittedIdentifierRule (child parent : gostring) : bool :=
  let parent := strings.ReplaceAll parent (go " ") [] in
  let child := strings.ReplaceAll child (go " ") [] in
  let childIdentifiers := strings.Split child ","%char in
  let parentIdentifiers := strings.Split parent ","%char in
  allPermitted childIdentifiers parentIdentifiers.

(** The expression built for one term in [IsPermittedIdentifier]; the
    backslash-star pairs are replaced through a compiled expression here. *)
Definition regexPattern' (domain : gostring) : gostring :=
  let regexPattern := go "^" ++ regexp.QuoteMeta domain ++ go "$" in
  regexp.ReplaceAllLiteral (go "\*") regexPattern (go ".*").

(** The loop of [IsPermittedIdentifier]: an error and the end of the list
    both return [false]; the first match returns [true]. *)
Fixpoint anyMatches (names : list gostring) (name : gostring) : bool :=
  match names with
  | [] => false
  | domain :: names' =>
      match regexp.MatchString (regexPattern' domain) name with
      | None => false
      | Some true => true
      | Some false => anyMatches names' name
      end
  end.

Definition IsPermittedIdentifier (name permittedNames : gostring) : bool :=
  let name := strings.ReplaceAll name (go " ") [] in
  let names := strings.Split (strings.ReplaceAll permittedNames (go " ") []) ","%char in
  anyMatches names name.

(** A byte is ASCII when it is below [utf8.RuneSelf]. *)
Definition isASCII (c : ascii) : bool := (N_of_ascii c <? 128)%N.

(** ** The expression built from a pattern term, byte by byte *)

(** What [QuoteMeta] followed by the replacement of [\*] does to one
    byte of the term. *)
Definition quoteByte (b : ascii) : gostring :=
  if byte_eqb b "*"%char then go ".*"
  else if regexp.special b then ["\"%char; b]
  else [b].

(** The bytes after a leading byte that decoding may look at: up to three,
    and none past the first ASCII byte. *)
Definition look (s : gostring) : gostring :=
  match s with
  | c1 :: s1 =>
      if isASCII c1 then []
      else c1 :: match s1 with
                 | c2 :: s2 =>
                     if isASCII c2 then []
                     else c2 :: match s2 with
                                | c3 :: _ => if isASCII c3 then [] else [c3]
                                | [] => []
                                end
                 | [] => []
                 end
  | [] => []
  end.

(** [k] bytes at the head of [s], none of them ASCII. *)
Fixpoint highPrefix (k : nat) (s : gostring) : bool :=
  match k, s with
  | O, _ => true
  | S k', c :: s' => negb (isASCII c) && highPrefix k' s'
  | S _, [] => false
  end.

(** [k] bytes at the head of [s], all of them continuation bytes. *)
Fixpoint contPrefix (k : nat) (s : gostring) : bool :=
  match k, s with
  | O, _ => true
  | S k', c :: s' => utf8.isCont (N_of_ascii c) && contPrefix k' s'
  | S _, [] => false
  end.

(** [s] does not begin in the middle of a rune: its first byte, if any, is
    no continuation byte. *)
Definition startsRune (s : gostring) : bool :=
  match s with
  | [] => true
  | c :: _ => negb (utf8.isCont (N_of_ascii c))
  end.

(** What quoting does to one decoded rune. *)
Definition quoteDec (d : utf8.rune * nat) : list (utf8.rune * nat) :=
  if (fst d <? 128)%N
  then map (fun b => (N_of_ascii b, 1)) (quoteByte (ascii_of_N (fst d)))
  else [d].

(** What quoting does to one rune of the term. *)
Definition quoteRune (r : utf8.rune) : list utf8.rune :=
  if (r <? 128)%N then map N_of_ascii (quoteByte (ascii_of_N r)) else [r].

(** ** Wildcard matching on runes *)

(** The meaning of a pattern term, rune by rune: the star stands for any
    run of runes other than newline, every other rune for itself. *)
Fixpoint glob (pat text : list utf8.rune) {struct pat} : bool :=
  match pat with
  | [] => match text with [] => true | _ :: _ => false end
  | c :: pat' =>
      if (c =? 42)%N then
        (fix star (text : list utf8.rune) : bool :=
           glob pat' text
           || match text with
              | r :: text' => negb (r =? 10)%N && star text'
              | [] => false
              end) text
      else
        match text with
        | r :: text' => (r =? c)%N && glob pat' text'
        | [] => false
        end
  end.

Definition tokensOf (r : utf8.rune) : list regexp.token :=
  if (r =? 42)%N then [regexp.TAtom regexp.AnyCharNotNL; regexp.TStar]
  else [regexp.TAtom (regexp.Lit r)].

Definition instOf (r : utf8.rune) : regexp.inst :=
  if (r =? 42)%N then regexp.Star regexp.AnyCharNotNL
  else regexp.One (regexp.Lit r).

(** ** The wildcard relation *)

(** [glob] as a relation, for proofs by induction on a match. *)
Inductive globs : list utf8.rune -> list utf8.rune -> Prop :=
| globs_nil : globs [] []
| globs_lit c pat text :
    c <> 42%N -> globs pat text -> globs (c :: pat) (c :: text)
| globs_skip pat text :
    globs pat text -> globs (42%N :: pat) text
| globs_more r pat text :
    r <> 10%N -> globs (42%N :: pat) text -> globs (42%N :: pat) (r :: text).

(** ** Removing spaces and splitting at commas *)

(** [strings.Replace] of every space by nothing. *)
Definition stripSpaces (s : gostring) : gostring :=
  strings.ReplaceAll s (go " ") [].

Definition noComma (s : gostring) : bool :=
  negb (existsb (fun c => byte_eqb c ","%char) s).

Definition noNewline (s : gostring) : bool :=
  negb (existsb (fun c => byte_eqb c "010"%char) s).

(** Every term of a list of permitted names compiles. *)
Definition termsValid (permittedNames : gostring) : bool :=
  forallb utf8.ValidString (strings.Split (stripSpaces permittedNames) ","%char).

(** ** Errors *)

(** Go [error] values.  The text of a formatted error is kept as its
    format string, a double quote inside it written as a single quote; the
    values formatted into it are not modelled. *)
Inductive error : Type :=
| Sentinel (name : string)                 (* a package-level error variable *)
| Errorf (format : string)                 (* [fmt.Errorf] without [%w], [errors.New] *)
| Wrapf (format : string) (err : error).   (* [fmt.Errorf] with one [%w] *)

(** A Go result pair [(value, error)]. *)
Inductive result (A : Type) : Type :=
| Ok (a : A)
| Err (e : error).
Arguments Ok {A} a.
Arguments Err {A} e.

(** ** encoding/asn1, crypto, crypto/x509 *)

(** [asn1.ObjectIdentifier] is [[]int]. *)
Definition ObjectIdentifier := list Z.

(** [ObjectIdentifier.Equal]. *)
Fixpoint oidEqual (oi other : ObjectIdentifier) : bool :=
  match oi, other with
  | [], [] => true
  | a :: oi', b :: other' => Z.eqb a b && oidEqual oi' other'
  | _, _ => false
  end.

Inductive Curve : Type := P224 | P256 | P384 | P521.

(** The dynamic types a [crypto.PublicKey] may have. *)
Inductive PublicKey : Type :=
| ecdsaPublicKey (curve : Curve) (X Y : Z)
| rsaPublicKey (N : Z) (E : Z)
| otherPublicKey (typeName : string).

(** A [crypto.Signer]: its public key and the private material behind it. *)
Record Signer : Type := {
  Public : PublicKey;
  private : Z
}.

Module pkix.

(** [pkix.Extension]. *)
Record Extension : Type := {
  Id : ObjectIdentifier;
  Critical : bool;
  Value : gostring
}.

End pkix.

(** The fields of [x509.Certificate] that the delegate code reads.
    [Raw] stands for the rest of the certificate (signature, key, ...). *)
Record Certificate : Type := {
  SubjectCommonName : gostring;
  IssuerCommonName : gostring;
  Extensions : list pkix.Extension;
  KeyUsage : Z;
  BasicConstraintsValid : bool;
  IsCA : bool;
  Raw : gostring
}.

Definition KeyUsageDigitalSignature : Z := 1.
Definition KeyUsageCertSign : Z := 32.

(** ** delegate.go *)

Definition OID_delegateBase : ObjectIdentifier := [1;3;6;1;4;1;45724;3]%Z.
Definition OID_delegateOnboard : ObjectIdentifier := [1;3;6;1;4;1;45724;3;1;1]%Z.
Definition OID_delegateRedirect : ObjectIdentifier := [1;3;6;1;4;1;45724;3;1;2]%Z.
Definition OID_delegateUpload : ObjectIdentifier := [1;3;6;1;4;1;45724;3;1;3]%Z.
Definition OID_delegateClaim : ObjectIdentifier := [1;3;6;1;4;1;45724;3;1;4]%Z.
Definition OID_delegateProvision : ObjectIdentifier := [1;3;6;1;4;1;45724;3;1;5]%Z.
Definition OID_delegateExtend : ObjectIdentifier := [1;3;6;1;4;1;45724;3;1;6]%Z.
Definition OID_Identifier : ObjectIdentifier := [1;3;6;1;4;1;45724;3;2]%Z.
Definition OID_IdentifierConstraints : ObjectIdentifier := [1;3;6;1;4;1;45724;3;3]%Z.

Definition DelegateFlagLeaf : Z := 0.
Definition DelegateFlagIntermediate : Z := 1.
Definition DelegateFlagRoot : Z := 2.

Fixpoint certMissingOID_ext (exts : list pkix.Extension) (oid : ObjectIdentifier) : bool :=
  match exts with
  | [] => true
  | o :: exts' => if oidEqual (pkix.Id o) oid then false else certMissingOID_ext exts' oid
  end.

Definition certMissingOID (c : Certificate) (oid : ObjectIdentifier) : bool :=
  certMissingOID_ext (Extensions c) oid.

Fixpoint GetCertIdentifierStr_ext (exts : list pkix.Extension) : gostring :=
  match exts with
  | [] => []
  | x :: exts' =>
      if oidEqual (pkix.Id x) OID_Identifier
      then strings.ReplaceAll (pkix.Value x) (go " ") []
      else GetCertIdentifierStr_ext exts'
  end.

Definition GetCertIdentifierStr (cert : Certificate) : gostring :=
  GetCertIdentifierStr_ext (Extensions cert).

(** [GetIdentifier] returns a pointer to the identifier of [chain[0]]
    (the empty string when the leaf names none), or an error for the empty
    chain. *)
Definition GetIdentifier (chain : list Certificate) : result (option gostring) :=
  match chain with
  | [] => Err (Errorf "Cannot verify empty chain")
  | leaf :: _ => Ok (Some (GetCertIdentifierStr leaf))
  end.

Fixpoint getIdentConstraints_ext (exts : list pkix.Extension) : gostring :=
  match exts with
  | [] => []
  | xx :: exts' =>
      if oidEqual (pkix.Id xx) OID_IdentifierConstraints
      then strings.ReplaceAll (pkix.Value xx) (go " ") []
      else getIdentConstraints_ext exts'
  end.

Definition getIdentConstraints (cert : Certificate) : gostring :=
  getIdentConstraints_ext (Extensions cert).

(** [s] is not the empty string. *)
Definition nonEmpty (s : gostring) : bool :=
  match s with [] => false | _ :: _ => true end.

(** [chain[len(chain)-1]], for a chain that is not empty. *)
Definition lastCert (chain : list Certificate) (c0 : Certificate) : Certificate :=
  last chain c0.

(** The loop after the walk: the value of the last IdentifierConstraints
    extension of the root, not stripped of spaces. *)
Definition rootIdentOf (root : Certificate) : gostring :=
  fold_left (fun rootIdent xx =>
               if oidEqual (pkix.Id xx) OID_IdentifierConstraints then pkix.Value xx else rootIdent)
            (Extensions root) [].

Section DelegateChain.

(** Signature checking and certificate creation are the work of
    crypto/x509 and of the random source; they are parameters here. *)

(** [c.CheckSignatureFrom(parent)]. *)
Variable CheckSignatureFrom : Certificate -> Certificate -> option error.

(** [ecdsa.GenerateKey(elliptic.P256(), rand.Reader)] and
    [rsa.GenerateKey(rand.Reader, 2048)], as drawn in this run. *)
Variable ecdsaGenerateKey : result Signer.
Variable rsaGenerateKey : result Signer.

(** [GenerateDelegate(key, flags, delegateKey, subject, issuer,
    permissions, sigAlg, ident)], which ends in [x509.CreateCertificate]
    and [x509.ParseCertificate]. *)
Variable GenerateDelegate :
  Signer -> Z -> PublicKey -> gostring -> gostring ->
  list ObjectIdentifier -> Z -> gostring -> result Certificate.

(** The body of [for i, c := range chain] in [processDelegateChain],
    from the value of [prevOwner] before the turn to its value after.
    Printing is left out. *)
Definition walkStep (chain : list Certificate) (oid : option ObjectIdentifier)
           (i : nat) (c : Certificate) (prevOwner : gostring) : result gostring :=
  match (if Nat.eqb i 0
         then match GetIdentifier chain with
              | Err _ => Err (Errorf "GetIdentifier: %v")
              | Ok (Some id) => Ok id
              | Ok None => Ok []
              end
         else Ok (getIdentConstraints c)) with
  | Err e => Err e
  | Ok constrs =>
      if nonEmpty constrs && nonEmpty prevOwner
         && negb (IsPermittedIdentifierRule prevOwner constrs)
      then Err (Errorf "NamedIdentifer in entry #%d %s not allowed by prior %s\n")
      else
        let nextStr := if nonEmpty constrs then constrs else [] in
        if negb (Nat.eqb i 0) && negb (nonEmpty prevOwner) && nonEmpty nextStr
        then Err (Errorf "No NamedIdentifer in entry #%d (%s) but '%s' was indicated\n")
        else
          let prevOwner := nextStr in
          match (if negb (Nat.eqb i (length chain - 1))
                 then match nth_error chain (i + 1) with
                      | None => Some (Errorf "index out of range")
                      | Some next =>
                          match CheckSignatureFrom c next with
                          | Some _ =>
                              Some (Errorf "VerifyDelegate Chain Validation error - (#%d) %s not signed by (#%d) %s: %v\n")
                          | None =>
                              if negb (gostring_eqb (IssuerCommonName c) (SubjectCommonName next))
                              then Some (Errorf "Subject %s Issued by Issuer=%s, expected %s")
                              else None
                          end
                      end
                 else None) with
          | Some e => Err e
          | None =>
              if match oid with
                 | Some oid => certMissingOID c oid
                 | None => false
                 end
              then Err (Errorf "VerifyDelegate error - %s has no permission %v\n")
              else if Z.eqb (Z.land (KeyUsage c) KeyUsageDigitalSignature) 0
              then Err (Errorf "VerifyDelegate cert %s: No Digital Signature Usage")
              else if negb (BasicConstraintsValid c)
              then Err (Errorf "VerifyDelegate cert %s: Basic Constraints not valid")
              else if negb (Nat.eqb i 0) && negb (IsCA c)
              then Err (Errorf "VerifyDelegate cert %s: Not a CA")
              else if negb (Nat.eqb i 0)
                      && Z.eqb (Z.land (KeyUsage c) KeyUsageCertSign) 0
              then Err (Errorf "VerifyDelegate cert %s: No CerSign Usage")
              else Ok prevOwner
          end
  end.

(** [for i, c := range chain], from index [i] on. *)
Fixpoint walk (chain : list Certificate) (oid : option ObjectIdentifier)
         (i : nat) (rest : list Certificate) (prevOwner : gostring) : result gostring :=
  match rest with
  | [] => Ok prevOwner
  | c :: rest' =>
      match walkStep chain oid i c prevOwner with
      | Err e => Err e
      | Ok prevOwner' => walk chain oid (S i) rest' prevOwner'
      end
  end.

(** The first part of [processDelegateChain]: with an owner key, an
    ephemeral certificate for it is appended to the chain. *)
Definition withOwnerRoot (chain : list Certificate) (c0 : Certificate)
           (ownerKey : option PublicKey) (oidArray : list ObjectIdentifier)
  : result (list Certificate) :=
  match ownerKey with
  | None => Ok chain
  | Some public =>
      let issuer := IssuerCommonName (lastCert chain c0) in
      match (match public with
             | ecdsaPublicKey _ _ _ => Ok ecdsaGenerateKey
             | rsaPublicKey _ _ => Ok rsaGenerateKey
             | otherPublicKey _ => Err (Errorf "Unknown key type %T")
             end) with
      | Err e => Err e
      | Ok (Err _) => Err (Errorf "VerifyDelegate Error making ephemeral root CA key: %v")
      | Ok (Ok rootPriv) =>
          match GenerateDelegate rootPriv DelegateFlagRoot public issuer issuer
                                 oidArray 0 (getIdentConstraints (lastCert chain c0)) with
          | Err _ => Err (Errorf "VerifyDelegate Error createing ephemerial Owner Root Cert: %v")
          | Ok rootOwner => Ok (chain ++ [rootOwner])
          end
      end
  end.

Definition processDelegateChain (chain : list Certificate) (ownerKey : option PublicKey)
           (oid : option ObjectIdentifier) (output : bool)
           (namedOwner : option gostring) : option error :=
  let oidArray := match oid with Some oid => [oid] | None => [] end in
  match chain with
  | [] => Some (Errorf "Empty chain")
  | c0 :: _ =>
      match withOwnerRoot chain c0 ownerKey oidArray with
      | Err e => Some e
      | Ok chain =>
          match walk chain oid 0 chain [] with
          | Err e => Some e
          | Ok _ =>
              let rootIdent := rootIdentOf (lastCert chain c0) in
              match namedOwner with
              | Some namedOwner =>
                  if nonEmpty rootIdent
                     && negb (IsPermittedIdentifierRule rootIdent namedOwner)
                  then Some (Errorf "Chain scoped to namedIdentifer '%s', but root only scoped for '%s'")
                  else None
              | None => None
              end
          end
      end
  end.

Definition VerifyDelegateChain (chain : list Certificate) (ownerKey : option PublicKey)
           (oid : option ObjectIdentifier) (namedOwner : option gostring) : option error :=
  processDelegateChain chain ownerKey oid false namedOwner.

Definition PrintDelegateChain (chain : list Certificate) (ownerKey : option PublicKey)
           (oid : option ObjectIdentifier) : option error :=
  processDelegateChain chain ownerKey oid true None.

End DelegateChain.

(** The leaf's identifier [L] is carried up the chain: whatever permits
    the owner string of the moment permits [L]. *)
Definition carries (prevOwner L : gostring) : Prop :=
  nonEmpty prevOwner = true ->
  forall K, IsPermittedIdentifierRule prevOwner K = true ->
            IsPermittedIdentifierRule L K = true.

(** ** Example chains *)

Definition mkExtension (id : ObjectIdentifier) (value : gostring) : pkix.Extension :=
  {| pkix.Id := id; pkix.Critical := true; pkix.Value := value |}.

(** A certificate of a CA named [subject], issued by [issuer], with the
    key usages [GenerateDelegate] gives to roots and intermediates. *)
Definition caCert (subject issuer : string) (exts : list pkix.Extension) : Certificate :=
  {| SubjectCommonName := go subject;
     IssuerCommonName := go issuer;
     Extensions := exts;
     KeyUsage := Z.lor KeyUsageCertSign KeyUsageDigitalSignature;
     BasicConstraintsValid := true;
     IsCA := true;
     Raw := [] |}.

(** A leaf certificate as [GenerateDelegate] makes it. *)
Definition leafCert (subject issuer : string) (exts : list pkix.Extension) : Certificate :=
  {| SubjectCommonName := go subject;
     IssuerCommonName := go issuer;
     Extensions := exts;
     KeyUsage := KeyUsageDigitalSignature;
     BasicConstraintsValid := true;
     IsCA := false;
     Raw := [] |}.

(** The good chain of the specification: a root constrained to two
    wildcard domains, an intermediate constrained to a sub-domain of the
    first, and a leaf named inside it, all three with the onboard
    permission. *)
Definition goodChain : list Certificate :=
  [ leafCert "leaf" "intermediate"
      [mkExtension OID_Identifier (go "DNS:srv.sub.sub.dom1");
       mkExtension OID_delegateOnboard []];
    caCert "intermediate" "root"
      [mkExtension OID_IdentifierConstraints (go "DNS:*.sub.sub.dom1");
       mkExtension OID_delegateOnboard []];
    caCert "root" "root"
      [mkExtension OID_IdentifierConstraints (go "DNS:*.sub.dom1,DNS:*.sub.dom2");
       mkExtension OID_delegateOnboard []] ].

(** The same chain with a leaf named in the second domain. *)
Definition badChain : list Certificate :=
  [ leafCert "leaf" "intermediate"
      [mkExtension OID_Identifier (go "DNS:srv.sub.sub.dom2");
       mkExtension OID_delegateOnboard []];
    caCert "intermediate" "root"
      [mkExtension OID_IdentifierConstraints (go "DNS:*.sub.sub.dom1");
       mkExtension OID_delegateOnboard []];
    caCert "root" "root"
      [mkExtension OID_IdentifierConstraints (go "DNS:*.sub.dom1,DNS:*.sub.dom2");
       mkExtension OID_delegateOnboard []] ].

(** The chain of a row of [TestDelegateIdentChains] that is expected to
    pass for the named owner [DNS:*.dom]: the root is scoped to
    [DNS:*.sub.dom]. *)
Definition scopedRoot : Certificate :=
  caCert "Test Root CA" "Test Root CA"
    [mkExtension OID_IdentifierConstraints (go "DNS:*.sub.dom");
     mkExtension OID_delegateOnboard []].

Definition scopedChain : list Certificate :=
  [ leafCert "Test Leaf" "Test Intermediate CA"
      [mkExtension OID_Identifier (go "DNS:srv.sub.sub.dom");
       mkExtension OID_delegateOnboard []];
    caCert "Test Intermediate CA" "Test Root CA"
      [mkExtension OID_IdentifierConstraints (go "DNS:*.sub.sub.dom");
       mkExtension OID_delegateOnboard []];
    scopedRoot ].

(** A signature check that accepts, for running the examples. *)
Definition acceptSignature (c parent : Certificate) : option error := None.

(** ** Outcomes, integers *)

(** A Go call either returns or panics. *)
Inductive outcome (A : Type) : Type :=
| Returns (a : A)
| Panics.
Arguments Returns {A} a.
Arguments Panics {A}.

(** Arithmetic on [int64] (and on [int], taken to be 64 bits wide) wraps
    around. *)
Definition wrap64 (z : Z) : Z := ((z + 2 ^ 63) mod 2 ^ 64 - 2 ^ 63)%Z.

(** [len(s)] as an [int]. *)
Definition len {A : Type} (s : list A) : Z := Z.of_nat (length s).

(** The slice expression [a[lo:hi]].  Its upper bound is checked against
    the capacity in Go; the expressions of the sources never go past the
    length, which is what is checked here. *)
Definition slice {A : Type} (a : list A) (lo hi : Z) : outcome (list A) :=
  if ((0 <=? lo) && (lo <=? hi) && (hi <=? len a))%Z
  then Returns (firstn (Z.to_nat (hi - lo)) (skipn (Z.to_nat lo) a))
  else Panics.

(** ** strconv *)

Module strconv.

(** [strconv.FormatInt(i, 10)]: the decimal digits of [i], without
    leading zeros, after a minus sign when [i] is negative.  It is what
    the verb [%d] of package fmt writes for an integer. *)
Definition FormatInt (i : Z) : gostring :=
  go (DecimalString.NilZero.string_of_int (Z.to_int i)).

(** [strconv.Itoa]. *)
Definition Itoa (i : Z) : gostring := FormatInt i.

End strconv.

(** ** fsim: the fdo.payload module *)

Module fsim.

Unset Elimination Schemes.

(** The Go values that the module hands to the CBOR encoder. *)
Inductive value : Type :=
| VBool (b : bool)
| VInt (z : Z)
| VBytes (b : gostring)
| VText (s : gostring)
| VMap (entries : list (gostring * value)).

Set Elimination Schemes.

(** A key and a CBOR body: one ServiceInfo KV of the module. *)
Definition KV : Type := gostring * gostring.

(** The struct that [receive] decodes a [begin] body into; the fields
    carry their [cbor] tags as names. *)
Record beginStruct : Type := {
  mime_type : gostring;
  name : gostring;
  size : Z;
  metadata : option (list (gostring * gostring))
}.

(** The struct that the owner decodes a [result] body into. *)
Record resultStruct : Type := {
  success : bool;
  message : gostring;
  output : gostring
}.

(** [PayloadErrorInfo], also the shape of a decoded [error] body. *)
Record PayloadErrorInfo : Type := {
  Code : Z;
  Message : gostring;
  Details : gostring
}.

(** Package cbor is not among the sources: encoding and the decoding
    into each target type are parameters. *)
Record Codec : Type := {
  Encode : value -> result gostring;
  DecodeBool : gostring -> result bool;
  DecodeInt : gostring -> result Z;
  DecodeBytes : gostring -> result gostring;
  DecodeBegin : gostring -> result beginStruct;
  DecodeResult : gostring -> result resultStruct;
  DecodeError : gostring -> result PayloadErrorInfo
}.

(** [PayloadHandler], an interface: its methods act on the state [H] of
    the object behind it. *)
Record PayloadHandler (H : Type) : Type := {
  SupportsMimeType : H -> gostring -> bool;
  BeginPayload : H -> gostring -> gostring -> Z -> option (list (gostring * gostring))
                 -> H * option error;
  ReceiveChunk : H -> gostring -> H * option error;
  EndPayload : H -> H * (bool * gostring * gostring * option error);
  CancelPayload : H -> H * option error
}.
Arguments SupportsMimeType {H} p.
Arguments BeginPayload {H} p.
Arguments ReceiveChunk {H} p.
Arguments EndPayload {H} p.
Arguments CancelPayload {H} p.

(** [Payload]: the device side.  [Handler] is [None] for a nil
    interface, and otherwise holds the state of the handler object. *)
Record Payload (H : Type) : Type := {
  Handler : option H;
  Active : bool;
  receiving : bool;
  totalBytes : Z;
  expectedSize : Z;
  buffer : gostring
}.
Arguments Handler {H} p.
Arguments Active {H} p.
Arguments receiving {H} p.
Arguments totalBytes {H} p.
Arguments expectedSize {H} p.
Arguments buffer {H} p.

(** [PayloadToSend]. *)
Record PayloadToSend : Type := {
  MimeType : gostring;
  Name : gostring;
  Data : gostring;
  Metadata : option (list (gostring * gostring))
}.

(** [PayloadOwner]: the owner side.  [currentPayload] points at
    [payloads[currentIndex]]; it holds the payload pointed at. *)
Record PayloadOwner : Type := {
  payloads : list PayloadToSend;
  currentPayload : option PayloadToSend;
  currentIndex : Z;
  bytesSent : Z;
  chunkSize : Z;
  waitingForAck : bool;
  lastError : option PayloadErrorInfo
}.

Section Device.

Variable codec : Codec.
Context {H : Type}.
Variable handler : PayloadHandler H.

(** What a call of the module leaves behind: the module, the KVs
    written through [respond], and the error returned. *)
Definition reply : Type := Payload H * list KV * option error.

(** [Payload.reset]. *)
Definition reset (p : Payload H) : Payload H :=
  let handler' :=
    match Handler p with
    | Some h => if receiving p then Some (fst (CancelPayload handler h)) else Some h
    | None => None
    end in
  {| Handler := handler';
     Active := Active p;
     receiving := false;
     totalBytes := 0;
     expectedSize := 0;
     buffer := [] |}.

(** [Payload.Transition]. *)
Definition Transition (p : Payload H) (active : bool) : Payload H * option error :=
  if negb active then (reset p, None) else (p, None).

(** [Payload.sendError]: always an error.  A body counts as written
    through [respond] when its encoding succeeded. *)
Definition sendError (p : Payload H) (code : Z) (message details : gostring) : reply :=
  let errorMsg :=
    VMap ([(go "code", VInt code); (go "message", VText message)]
          ++ (if nonEmpty details then [(go "details", VText details)] else [])) in
  match Encode codec errorMsg with
  | Err err => (p, [], Some (Wrapf "failed to encode error: %w" err))
  | Ok body => (p, [(go "error", body)], Some (Errorf "payload error: %s"))
  end.

Definition setReceiving (p : Payload H) (b : bool) : Payload H :=
  {| Handler := Handler p; Active := Active p; receiving := b;
     totalBytes := totalBytes p; expectedSize := expectedSize p;
     buffer := buffer p |}.

Definition setHandler (p : Payload H) (h : H) : Payload H :=
  {| Handler := Some h; Active := Active p; receiving := receiving p;
     totalBytes := totalBytes p; expectedSize := expectedSize p;
     buffer := buffer p |}.

(** The text of an error, [err.Error()], is not modelled. *)
Definition errorText (err : error) : gostring := go "error".

(** [Payload.receive].  A method call on a nil [Handler] panics.  The
    messages that [fmt.Sprintf] builds are written out. *)
Definition receive (p : Payload H) (key body : gostring) : outcome reply :=
  if gostring_eqb key (go "active") then
    match DecodeBool codec body with
    | Err err => Returns (p, [], Some (Wrapf "invalid active message: %w" err))
    | Ok _ =>
        match Encode codec (VBool (Active p)) with
        | Err err => Returns (p, [], Some err)
        | Ok w => Returns (p, [(go "active", w)], None)
        end
    end
  else if gostring_eqb key (go "begin") then
    match Handler p with
    | None => Returns (sendError p 4 (go "No payload handler configured") [])
    | Some h =>
        match DecodeBegin codec body with
        | Err err =>
            Returns (sendError p 2 (go "Invalid begin message format") (errorText err))
        | Ok begin =>
            if negb (SupportsMimeType handler h (mime_type begin))
            then Returns (sendError p 1 (go "MIME type '" ++ mime_type begin
                                         ++ go "' not supported") [])
            else
              match BeginPayload handler h (mime_type begin) (name begin)
                                 (size begin) (metadata begin) with
              | (h', Some err) =>
                  Returns (sendError (setHandler p h') 4
                                     (go "Failed to prepare for payload") (errorText err))
              | (h', None) =>
                  let p' := {| Handler := Some h'; Active := Active p;
                               receiving := true; totalBytes := 0;
                               expectedSize := size begin; buffer := [] |} in
                  match Encode codec (VBool true) with
                  | Err err => Returns (p', [], Some err)
                  | Ok w => Returns (p', [(go "ready", w)], None)
                  end
              end
        end
    end
  else if gostring_eqb key (go "data") then
    if negb (receiving p)
    then Returns (sendError p 6 (go "Not ready to receive data") (go "Call begin first"))
    else
      match DecodeBytes codec body with
      | Err err => Returns (sendError p 6 (go "Invalid data chunk") (errorText err))
      | Ok data =>
          match Handler p with
          | None => Panics
          | Some h =>
              match ReceiveChunk handler h data with
              | (h', Some err) =>
                  Returns (sendError (setReceiving (setHandler p h') false) 4
                                     (go "Failed to process chunk") (errorText err))
              | (h', None) =>
                  let p' := {| Handler := Some h'; Active := Active p;
                               receiving := receiving p;
                               totalBytes := wrap64 (totalBytes p + len data);
                               expectedSize := expectedSize p;
                               buffer := buffer p |} in
                  match Encode codec (VInt (totalBytes p')) with
                  | Err err => Returns (p', [], Some err)
                  | Ok w => Returns (p', [(go "ack", w)], None)
                  end
              end
          end
      end
  else if gostring_eqb key (go "end") then
    if negb (receiving p)
    then Returns (sendError p 6 (go "No active transfer") [])
    else if ((0 <? expectedSize p) && negb (totalBytes p =? expectedSize p))%Z
    then Returns (sendError (setReceiving p false) 6
                            (go "Size mismatch: expected "
                             ++ strconv.FormatInt (expectedSize p)
                             ++ go ", received " ++ strconv.FormatInt (totalBytes p)) [])
    else
      match Handler p with
      | None => Panics
      | Some h =>
          match EndPayload handler h with
          | (h', (success, message, output, err)) =>
              let p' := setReceiving (setHandler p h') false in
              match err with
              | Some err =>
                  Returns (sendError p' 4 (go "Failed to apply payload") (errorText err))
              | None =>
                  let result :=
                    VMap ([(go "success", VBool success)]
                          ++ (if nonEmpty message then [(go "message", VText message)] else [])
                          ++ (if nonEmpty output then [(go "output", VText output)] else [])) in
                  match Encode codec result with
                  | Err err => Returns (p', [], Some err)
                  | Ok w => Returns (p', [(go "result", w)], None)
                  end
              end
          end
      end
  else Returns (p, [], None).

(** [Payload.Receive]: an error of [receive] resets the module. *)
Definition Receive (p : Payload H) (messageName messageBody : gostring) : outcome reply :=
  match receive p messageName messageBody with
  | Panics => Panics
  | Returns (p', out, Some err) => Returns (reset p', out, Some err)
  | Returns (p', out, None) => Returns (p', out, None)
  end.

(** [Payload.Yield]. *)
Definition Yield (p : Payload H) : reply := (p, [], None).

(** A module as [&Payload{Handler: h, Active: a}] makes it. *)
Definition fresh (h : option H) (a : bool) : Payload H :=
  {| Handler := h; Active := a; receiving := false;
     totalBytes := 0; expectedSize := 0; buffer := [] |}.

End Device.


Section Owner.

Variable codec : Codec.

(** [serviceinfo.Producer], not among the sources: the KVs written so
    far; [WriteChunk] is a parameter. *)
Definition Producer : Type := list KV.

Variable WriteChunk : Producer -> gostring -> gostring -> result Producer.

(** The flags and error that [ProduceInfo] returns. *)
Definition produced : Type := bool * bool * option error.

(** The map sent as the body of [begin]. *)
Definition beginValue (pl : PayloadToSend) : value :=
  VMap ([(go "mime_type", VText (MimeType pl))]
        ++ (if nonEmpty (Name pl) then [(go "name", VText (Name pl))] else [])
        ++ (if (0 <? len (Data pl))%Z then [(go "size", VInt (len (Data pl)))] else [])
        ++ match Metadata pl with
           | Some md => [(go "metadata", VMap (map (fun kv => (fst kv, VText (snd kv))) md))]
           | None => []
           end).

(** Encode a value and write it under [key]; the two errors carry the
    two formats given. *)
Definition encodeAndWrite (producer : Producer) (key : gostring) (v : value)
           (encodeFailed sendFailed : string) : result Producer :=
  match Encode codec v with
  | Err err => Err (Wrapf encodeFailed err)
  | Ok buf =>
      match WriteChunk producer key buf with
      | Err err => Err (Wrapf sendFailed err)
      | Ok producer' => Ok producer'
      end
  end.

(** [p.payloads[i]]. *)
Definition index {A : Type} (l : list A) (i : Z) : outcome A :=
  if (i <? 0)%Z then Panics
  else match nth_error l (Z.to_nat i) with
       | Some a => Returns a
       | None => Panics
       end.

(** [PayloadOwner.produceInfo]. *)
Definition produceInfo (p : PayloadOwner) (producer : Producer)
  : outcome (PayloadOwner * Producer * produced) :=
  if waitingForAck p then Returns (p, producer, (true, false, None))
  else
    match currentPayload p with
    | None =>
        if (len (payloads p) <=? currentIndex p)%Z
        then Returns (p, producer, (false, true, None))
        else
          match index (payloads p) (currentIndex p) with
          | Panics => Panics
          | Returns pl =>
              let p' := {| payloads := payloads p;
                           currentPayload := Some pl;
                           currentIndex := currentIndex p;
                           bytesSent := 0;
                           chunkSize := if (chunkSize p =? 0)%Z then 4096 else chunkSize p;
                           waitingForAck := waitingForAck p;
                           lastError := lastError p |} in
              match encodeAndWrite producer (go "begin") (beginValue pl)
                                   "failed to encode begin: %w"
                                   "failed to send begin: %w" with
              | Err err => Returns (p', producer, (false, false, Some err))
              | Ok producer' => Returns (p', producer', (false, false, None))
              end
          end
    | Some pl =>
        if (bytesSent p <? len (Data pl))%Z then
          let remaining := wrap64 (len (Data pl) - bytesSent p) in
          let chunkLen := chunkSize p in
          let chunkLen := if (remaining <? chunkLen)%Z then remaining else chunkLen in
          match slice (Data pl) (bytesSent p) (wrap64 (bytesSent p + chunkLen)) with
          | Panics => Panics
          | Returns chunk =>
              match encodeAndWrite producer (go "data") (VBytes chunk)
                                   "failed to encode data chunk: %w"
                                   "failed to send data chunk: %w" with
              | Err err => Returns (p, producer, (false, false, Some err))
              | Ok producer' =>
                  let p' := {| payloads := payloads p;
                               currentPayload := currentPayload p;
                               currentIndex := currentIndex p;
                               bytesSent := wrap64 (bytesSent p + chunkLen);
                               chunkSize := chunkSize p;
                               waitingForAck := true;
                               lastError := lastError p |} in
                  Returns (p', producer', (false, false, None))
              end
          end
        else
          match encodeAndWrite producer (go "end") (VBool true)
                               "failed to encode end: %w"
                               "failed to send end: %w" with
          | Err err => Returns (p, producer, (false, false, Some err))
          | Ok producer' => Returns (p, producer', (false, false, None))
          end
    end.

(** [PayloadOwner.ProduceInfo]. *)
Definition ProduceInfo := produceInfo.

(** [PayloadOwner.receive]; the log calls of the [result] case read
    [p.currentPayload.MimeType], a nil dereference when there is no
    current payload. *)
Definition ownerReceive (p : PayloadOwner) (key body : gostring)
  : outcome (PayloadOwner * option error) :=
  if gostring_eqb key (go "active") then
    match DecodeBool codec body with
    | Err err => Returns (p, Some (Wrapf "invalid active response: %w" err))
    | Ok _ => Returns (p, None)
    end
  else if gostring_eqb key (go "ready") then
    match DecodeBool codec body with
    | Err err => Returns (p, Some (Wrapf "invalid ready response: %w" err))
    | Ok ready =>
        if negb ready then Returns (p, Some (Errorf "device not ready for payload"))
        else Returns (p, None)
    end
  else if gostring_eqb key (go "ack") then
    match DecodeInt codec body with
    | Err err => Returns (p, Some (Wrapf "invalid ack response: %w" err))
    | Ok bytesReceived =>
        let p' := {| payloads := payloads p;
                     currentPayload := currentPayload p;
                     currentIndex := currentIndex p;
                     bytesSent := bytesSent p;
                     chunkSize := chunkSize p;
                     waitingForAck := false;
                     lastError := lastError p |} in
        if negb (bytesReceived =? bytesSent p)%Z
        then Returns (p', Some (Errorf "ack mismatch: sent %d, device received %d"))
        else Returns (p', None)
    end
  else if gostring_eqb key (go "result") then
    match DecodeResult codec body with
    | Err err => Returns (p, Some (Wrapf "invalid result response: %w" err))
    | Ok _ =>
        match currentPayload p with
        | None => Panics
        | Some _ =>
            Returns ({| payloads := payloads p;
                        currentPayload := None;
                        currentIndex := wrap64 (currentIndex p + 1);
                        bytesSent := 0;
                        chunkSize := chunkSize p;
                        waitingForAck := waitingForAck p;
                        lastError := lastError p |}, None)
        end
    end
  else if gostring_eqb key (go "error") then
    match DecodeError codec body with
    | Err err => Returns (p, Some (Wrapf "invalid error response: %w" err))
    | Ok errorInfo =>
        Returns ({| payloads := payloads p;
                    currentPayload := None;
                    currentIndex := currentIndex p;
                    bytesSent := 0;
                    chunkSize := chunkSize p;
                    waitingForAck := waitingForAck p;
                    lastError := Some {| Code := Code errorInfo;
                                         Message := Message errorInfo;
                                         Details := Details errorInfo |} |},
                 Some (Errorf "payload error %d: %s"))
    end
  else Returns (p, None).

(** [PayloadOwner.reset]. *)
Definition ownerReset (p : PayloadOwner) : PayloadOwner :=
  {| payloads := payloads p;
     currentPayload := None;
     currentIndex := 0;
     bytesSent := 0;
     chunkSize := chunkSize p;
     waitingForAck := false;
     lastError := None |}.

(** [PayloadOwner.Transition]. *)
Definition ownerTransition (p : PayloadOwner) (active : bool)
  : PayloadOwner * option error :=
  if negb active then (ownerReset p, None) else (p, None).

(** [PayloadOwner.HandleInfo]. *)
Definition HandleInfo := ownerReceive.

(** [PayloadOwner.AddPayload]. *)
Definition AddPayload (p : PayloadOwner) (mimeType name : gostring) (data : gostring)
           (metadata : option (list (gostring * gostring))) : PayloadOwner :=
  {| payloads := payloads p ++ [{| MimeType := mimeType; Name := name;
                                   Data := data; Metadata := metadata |}];
     currentPayload := currentPayload p;
     currentIndex := currentIndex p;
     bytesSent := bytesSent p;
     chunkSize := chunkSize p;
     waitingForAck := waitingForAck p;
     lastError := lastError p |}.

(** [PayloadOwner.SetChunkSize]. *)
Definition SetChunkSize (p : PayloadOwner) (size : Z) : PayloadOwner :=
  {| payloads := payloads p;
     currentPayload := currentPayload p;
     currentIndex := currentIndex p;
     bytesSent := bytesSent p;
     chunkSize := size;
     waitingForAck := waitingForAck p;
     lastError := lastError p |}.

End Owner.

(** The zero value [&PayloadOwner{}]. *)
Definition newOwner : PayloadOwner :=
  {| payloads := []; currentPayload := None; currentIndex := 0; bytesSent := 0;
     chunkSize := 0; waitingForAck := false; lastError := None |}.


(** *** Handlers and a codec for running the module *)

(** The calls a handler receives. *)
Inductive call : Type :=
| CallBegin (mimeType name : gostring) (size : Z)
            (metadata : option (list (gostring * gostring)))
| CallChunk (data : gostring)
| CallEnd
| CallCancel.

(** A handler that accepts every call and keeps the list of the calls
    made to it. *)
Definition recorder : PayloadHandler (list call) :=
  {| SupportsMimeType := fun _ _ => true;
     BeginPayload := fun h m n s md => (h ++ [CallBegin m n s md], None);
     ReceiveChunk := fun h data => (h ++ [CallChunk data], None);
     EndPayload := fun h => (h ++ [CallEnd], (true, [], [], None));
     CancelPayload := fun h => (h ++ [CallCancel], None) |}.

(** The chunks among the calls, in order. *)
Fixpoint chunksOf (calls : list call) : list gostring :=
  match calls with
  | [] => []
  | CallChunk data :: calls' => data :: chunksOf calls'
  | _ :: calls' => chunksOf calls'
  end.

(** How an exchange ends. *)
Inductive ending : Type :=
| ModuleDone                (* [ProduceInfo] reported [moduleDone] *)
| Failed (err : error)      (* a call returned an error *)
| OutOfCalls.              (* the bound on the calls was reached *)

Section Exchange.

Variable codec : Codec.
Variable WriteChunk : Producer -> gostring -> gostring -> result Producer.
Context {H : Type}.
Variable handler : PayloadHandler H.

(** The device's turn: every KV of the message goes to [Receive], the
    replies are collected. *)
Fixpoint deviceTurn (d : Payload H) (kvs : list KV)
  : outcome (Payload H * list KV * option error) :=
  match kvs with
  | [] => Returns (d, [], None)
  | (key, body) :: kvs' =>
      match Receive codec handler d key body with
      | Panics => Panics
      | Returns (d', out, Some err) => Returns (d', out, Some err)
      | Returns (d', out, None) =>
          match deviceTurn d' kvs' with
          | Panics => Panics
          | Returns (d'', out', err) => Returns (d'', out ++ out', err)
          end
      end
  end.

(** The owner takes the device's KVs, one [HandleInfo] each. *)
Fixpoint ownerTakes (o : PayloadOwner) (kvs : list KV)
  : outcome (PayloadOwner * option error) :=
  match kvs with
  | [] => Returns (o, None)
  | (key, body) :: kvs' =>
      match HandleInfo codec o key body with
      | Panics => Panics
      | Returns (o', Some err) => Returns (o', Some err)
      | Returns (o', None) => ownerTakes o' kvs'
      end
  end.

(** A message goes to the device module, and the reply to the owner
    module. *)
Definition deliver (o : PayloadOwner) (d : Payload H) (message : list KV)
  : outcome (PayloadOwner * Payload H * option error) :=
  match deviceTurn d message with
  | Panics => Panics
  | Returns (d1, _, Some err) => Returns (o, d1, Some err)
  | Returns (d1, replies, None) =>
      match ownerTakes o replies with
      | Panics => Panics
      | Returns (o2, err) => Returns (o2, d1, err)
      end
  end.

(** The MTU of the exchange, counted in KVs: a message takes [mtu] of
    them. *)
Variable mtu : nat.

(** Modelled from the spec: the scheduler of the ServiceInfo stream is
    not among the sources.  Following section 4.6, the two sides
    alternate.  On its turn the owner side invokes [ProduceInfo] of the
    module, again and again into the same message, until the module
    blocks the peer, or reports that it is done, or the message holds as
    many KVs as the MTU allows; the message is then sent: the device
    module receives each KV of it, and the owner module handles each KV
    of the reply.  ([Yield] of the device module writes nothing.)  The
    exchange ends when the owner module has reported that it is done, or
    at the first error.  [calls] bounds the number of calls of
    [ProduceInfo]; [message] is the message being filled and [sent]
    collects the messages sent. *)
Fixpoint exchange (calls : nat) (o : PayloadOwner) (d : Payload H) (message sent : list KV)
  : outcome (ending * PayloadOwner * Payload H * list KV) :=
  match calls with
  | O => Returns (OutOfCalls, o, d, sent ++ message)
  | S calls' =>
      match ProduceInfo codec WriteChunk o message with
      | Panics => Panics
      | Returns (o1, message1, (_, _, Some err)) =>
          Returns (Failed err, o1, d, sent ++ message1)
      | Returns (o1, message1, (blockPeer, moduleDone, None)) =>
          if negb blockPeer && negb moduleDone && (length message1 <? mtu)%nat
          then exchange calls' o1 d message1 sent
          else
            match deliver o1 d message1 with
            | Panics => Panics
            | Returns (o2, d1, Some err) => Returns (Failed err, o2, d1, sent ++ message1)
            | Returns (o2, d1, None) =>
                if moduleDone then Returns (ModuleDone, o2, d1, sent ++ message1)
                else exchange calls' o2 d1 [] (sent ++ message1)
            end
      end
  end.

(** What follows the completion of a message in [exchange]: it is sent,
    and the owner's next turn begins with an empty message. *)
Definition afterDeliver (calls : nat) (o : PayloadOwner) (d : Payload H)
           (message sent : list KV) : outcome (ending * PayloadOwner * Payload H * list KV) :=
  match deliver o d message with
  | Panics => Panics
  | Returns (o2, d1, Some err) => Returns (Failed err, o2, d1, sent ++ message)
  | Returns (o2, d1, None) => exchange calls o2 d1 [] (sent ++ message)
  end.

End Exchange.

(** The KVs sent under a key, in order. *)
Definition bodiesOf (key : gostring) (kvs : list KV) : list gostring :=
  map snd (filter (fun kv => gostring_eqb (fst kv) key) kvs).

End fsim.

(** ** cbor *)

Module cbor.

Local Open Scope N_scope.

Definition byte (n : N) : ascii := ascii_of_N (n mod 256).

(** [n] on [width] bytes, most significant first. *)
Fixpoint bigEndian (width : nat) (n : N) : gostring :=
  match width with
  | O => []
  | S width' => bigEndian width' (n / 256) ++ [byte n]
  end.

(** Modelled from the spec: package cbor is not among the sources.  The
    codec is canonical: definite lengths and the shortest encoding of
    every integer.  An item begins with its major type and an argument
    (RFC 8949): the argument sits in the first byte when below 24, and
    otherwise in the 1, 2, 4 or 8 bytes that follow. *)
Definition head (major arg : N) : gostring :=
  if arg <? 24 then [byte (major * 32 + arg)]
  else if arg <? 256 then byte (major * 32 + 24) :: bigEndian 1 arg
  else if arg <? 65536 then byte (major * 32 + 25) :: bigEndian 2 arg
  else if arg <? 4294967296 then byte (major * 32 + 26) :: bigEndian 4 arg
  else byte (major * 32 + 27) :: bigEndian 8 arg.

(** An integer: major type 0 when not negative, else major type 1 with
    argument [-1 - z]. *)
Definition int (z : Z) : gostring :=
  if (0 <=? z)%Z then head 0 (Z.to_N z) else head 1 (Z.to_N (-1 - z)).

(** A byte string (major type 2) and a text string (major type 3). *)
Definition bstr (b : gostring) : gostring := head 2 (N.of_nat (length b)) ++ b.
Definition tstr (s : gostring) : gostring := head 3 (N.of_nat (length s)) ++ s.

(** [true] and [false]. *)
Definition bool (b : Datatypes.bool) : gostring :=
  [byte (if b then 0xf5 else 0xf4)].

Unset Elimination Schemes.

(** The Go values that the sources hand to [cbor.Marshal] inside an
    [any]: integers, byte slices, strings, booleans, nil, slices, and a
    function value. *)
Inductive goValue : Type :=
| GoInt (z : Z)
| GoBytes (b : gostring)
| GoString (s : gostring)
| GoBool (b : Datatypes.bool)
| GoNil
| GoSlice (l : list goValue)
| GoFunc.

Set Elimination Schemes.

Section Marshal.

(** What [cbor.Marshal] returns for a function value.  CBOR has no
    item for a function: the encoder refuses the type. *)
Variable unsupported : result gostring.

(** Modelled from the spec: [cbor.Marshal] of a value: an array
    (major type 4) for a slice, the items above for the rest. *)
Fixpoint Marshal (v : goValue) : result gostring :=
  match v with
  | GoInt z => Ok (int z)
  | GoBytes b => Ok (bstr b)
  | GoString s => Ok (tstr s)
  | GoBool b => Ok (bool b)
  | GoNil => Ok [byte 0xf6]
  | GoSlice l =>
      (fix items (l : list goValue) (acc : gostring) : result gostring :=
         match l with
         | [] => Ok acc
         | x :: l' =>
             match Marshal x with
             | Err err => Err err
             | Ok b => items l' (acc ++ b)
             end
         end) l (head 4 (N.of_nat (length l)))
  | GoFunc => unsupported
  end.

End Marshal.

(** The encoder's answer to a type it does not support. *)
Definition ErrUnsupportedType : result gostring :=
  Err (Errorf "cbor: unsupported type").

End cbor.


(** ** Signature options: siginfo *)

Module crypto.

Local Open Scope Z_scope.

(** [crypto.Hash]. *)
Inductive Hash : Type := SHA256 | SHA384 | SHA512.

(** The values a [crypto.SignerOpts] takes in the sources: nil, a hash,
    or a pointer to [rsa.PSSOptions]. *)
Inductive SignerOpts : Type :=
| nilOpts
| HashOpts (h : Hash)
| PSSOptions (SaltLength : Z) (h : Hash).

(** [rsa.PSSSaltLengthEqualsHash]. *)
Definition PSSSaltLengthEqualsHash : Z := -1.

(** [big.Int.BitLen] of a modulus. *)
Definition BitLen (n : Z) : Z :=
  if (n =? 0)%Z then 0 else (Z.log2 (Z.abs n) + 1)%Z.

(** [rsa.PublicKey.Size]: the modulus size in bytes. *)
Definition Size (n : Z) : Z := ((BitLen n + 7) / 8)%Z.

End crypto.

Module cose.

Local Open Scope Z_scope.

(** [cose.SignatureAlgorithm] with the identifiers of the COSE
    registries, as listed with [sigInfo]. *)
Definition SignatureAlgorithm := Z.
Definition ES256Alg : SignatureAlgorithm := -7.
Definition ES384Alg : SignatureAlgorithm := -35.
Definition PS256Alg : SignatureAlgorithm := -37.
Definition PS384Alg : SignatureAlgorithm := -38.
Definition RS256Alg : SignatureAlgorithm := -257.
Definition RS384Alg : SignatureAlgorithm := -258.

(** Modelled from the spec: [cose.SignatureAlgorithmFor] is not among
    the sources.  The mapping is fixed: ECDSA P-256 gives ES256 and
    P-384 gives ES384; RSA-2048 gives RS256, or PS256 when PSS is in use,
    and RSA-3072 gives RS384 or PS384.  PSS is in use when the options are
    PSS options. *)
Definition SignatureAlgorithmFor (key : Signer) (opts : crypto.SignerOpts)
  : result SignatureAlgorithm :=
  let isPSS := match opts with crypto.PSSOptions _ _ => true | _ => false end in
  match Public key with
  | ecdsaPublicKey P256 _ _ => Ok ES256Alg
  | ecdsaPublicKey P384 _ _ => Ok ES384Alg
  | ecdsaPublicKey _ _ _ => Err (Errorf "unsupported curve")
  | rsaPublicKey n _ =>
      if (crypto.Size n =? 2048 / 8)%Z then Ok (if isPSS then PS256Alg else RS256Alg)
      else if (crypto.Size n =? 3072 / 8)%Z then Ok (if isPSS then PS384Alg else RS384Alg)
      else Err (Errorf "unsupported RSA key size")
  | otherPublicKey _ => Err (Errorf "unsupported key type")
  end.

(** *** Headers *)

(** [Label]: an int64 or a string. *)
Record Label : Type := {
  Int64 : Z;
  Str : gostring
}.

(** [HeaderMap] is [map[Label]any], [rawHeaderMap] is
    [map[Label]cbor.RawBytes]; the entries are listed in the order in
    which the encoder writes them. *)
Definition HeaderMap : Type := list (Label * cbor.goValue).
Definition rawHeaderMap : Type := list (Label * gostring).

(** [Header]. *)
Record Header : Type := {
  Protected : HeaderMap;
  Unprotected : HeaderMap
}.

Section Marshal.

Variable unsupported : result gostring.

(** [Label.MarshalCBOR].  For the zero [Int64] the source marshals
    [l.String], the method value, and not the field [l.Str]. *)
Definition Label_MarshalCBOR (l : Label) : result gostring :=
  if negb (Int64 l =? 0)
  then cbor.Marshal unsupported (cbor.GoInt (Int64 l))
  else cbor.Marshal unsupported cbor.GoFunc.

(** [newRawHeaderMap]. *)
Fixpoint newRawHeaderMap (unmarshaled : HeaderMap) : result rawHeaderMap :=
  match unmarshaled with
  | [] => Ok []
  | (label, v) :: unmarshaled' =>
      match cbor.Marshal unsupported v with
      | Err err => Err (Wrapf "error serializing header value for label %s: %w" err)
      | Ok data =>
          match newRawHeaderMap unmarshaled' with
          | Err err => Err err
          | Ok marshaled => Ok ((label, data) :: marshaled)
          end
      end
  end.

(** The entries of a map: each key through its [MarshalCBOR], each
    raw value as it is. *)
Fixpoint marshalEntries (m : rawHeaderMap) : result gostring :=
  match m with
  | [] => Ok []
  | (label, raw) :: m' =>
      match Label_MarshalCBOR label with
      | Err err => Err err
      | Ok key =>
          match marshalEntries m' with
          | Err err => Err err
          | Ok rest => Ok (key ++ raw ++ rest)
          end
      end
  end.

(** Modelled from the spec: [cbor.Marshal] of a map, a definite-length
    map (major type 5) of its entries. *)
Definition marshalRawHeaderMap (m : rawHeaderMap) : result gostring :=
  match marshalEntries m with
  | Err err => Err err
  | Ok entries => Ok (cbor.head 5 (N.of_nat (length m)) ++ entries)
  end.

(** [omitEmpty.MarshalCBOR] at the type [rawHeaderMap]. *)
Definition omitEmpty_MarshalCBOR (val : rawHeaderMap) : result gostring :=
  match marshalRawHeaderMap val with
  | Err err => Err err
  | Ok b =>
      match b with
      | [b0] =>
          if existsb (N.eqb (N_of_ascii b0)) [0x00; 0x40; 0x60; 0x80; 0xa0]%N
          then Ok []
          else Ok b
      | _ => Ok b
      end
  end.

(** Modelled from the spec: [cbor.Bstr.MarshalCBOR], the serialized
    form of the value wrapped in a byte string. *)
Definition emptyOrSerializedMap_MarshalCBOR (val : rawHeaderMap) : result gostring :=
  match omitEmpty_MarshalCBOR val with
  | Err err => Err err
  | Ok b => Ok (cbor.bstr b)
  end.

(** [Header.MarshalCBOR].  Modelled from the spec: the struct
    [cborHeader] is written as the array of its two fields. *)
Definition Header_MarshalCBOR (hdr : Header) : result gostring :=
  match newRawHeaderMap (Protected hdr) with
  | Err err => Err err
  | Ok protectedHeader =>
      match newRawHeaderMap (Unprotected hdr) with
      | Err err => Err err
      | Ok unprotectedHeader =>
          match emptyOrSerializedMap_MarshalCBOR protectedHeader with
          | Err err => Err err
          | Ok p =>
              match marshalRawHeaderMap unprotectedHeader with
              | Err err => Err err
              | Ok u => Ok (cbor.head 4 2 ++ p ++ u)
              end
          end
      end
  end.

End Marshal.

(** [AlgLabel]. *)
Definition AlgLabel : Label := {| Int64 := 1; Str := [] |}.

End cose.

(** [sigInfo]. *)
Record sigInfo : Type := {
  Type_ : cose.SignatureAlgorithm;
  Info : gostring
}.

(** [signOptsFor]. *)
Definition signOptsFor (key : Signer) (usePSS : bool) : result crypto.SignerOpts :=
  match Public key with
  | rsaPublicKey n _ =>
      match (if (crypto.Size n =? 2048 / 8)%Z then Ok (crypto.SHA256)
             else if (crypto.Size n =? 3072 / 8)%Z then Ok (crypto.SHA384)
             else Err (Errorf "unsupported RSA key size: %d bits")) with
      | Err err => Err err
      | Ok opts =>
          if usePSS
          then Ok (crypto.PSSOptions crypto.PSSSaltLengthEqualsHash opts)
          else Ok (crypto.HashOpts opts)
      end
  | _ => Ok crypto.nilOpts
  end.

(** [sigInfoFor]. *)
Definition sigInfoFor (key : Signer) (usePSS : bool) : result sigInfo :=
  match signOptsFor key usePSS with
  | Err err => Err err
  | Ok opts =>
      match cose.SignatureAlgorithmFor key opts with
      | Err err => Err err
      | Ok algID => Ok {| Type_ := algID; Info := [] |}
      end
  end.

(** ** HMAC verification: hash *)

(** [HashAlg]. *)
Definition HashAlg := Z.
Definition Sha256Hash : HashAlg := (-16)%Z.
Definition Sha384Hash : HashAlg := (-43)%Z.
Definition HmacSha256Hash : HashAlg := 5%Z.
Definition HmacSha384Hash : HashAlg := 6%Z.

(** [Hash], and [Hmac], which is the same type. *)
Record Hash : Type := {
  Algorithm : HashAlg;
  Value : gostring
}.
Definition Hmac := Hash.

(** [KeyedHasher]: an interface with the one method [Hmac], over the
    values [V] to be encoded and hashed. *)
Definition KeyedHasher (V : Type) : Type := HashAlg -> V -> result Hmac.

(** [ErrCryptoVerifyFailed], a package-level error declared outside the
    sources shown. *)
Definition ErrCryptoVerifyFailed : error := Sentinel "ErrCryptoVerifyFailed".

(** [errors.Is(err, target)] for a package-level [target]: some error of
    the chain of [err] is [target] itself. *)
Fixpoint errorsIs (err : error) (target : string) : bool :=
  match err with
  | Sentinel name => String.eqb name target
  | Errorf _ => false
  | Wrapf _ err' => errorsIs err' target
  end.

(** [hmac.Equal]: equality of the two byte strings (in constant time). *)
Definition hmacEqual (mac1 mac2 : gostring) : bool := gostring_eqb mac1 mac2.

(** [HmacVerify]. *)
Definition HmacVerify {V : Type} (dc : KeyedHasher V) (h1 : Hmac) (v : V) : option error :=
  match dc (Algorithm h1) v with
  | Err err => Some err
  | Ok h2 =>
      if negb (hmacEqual (Value h1) (Value h2))
      then Some (Wrapf "%w: hmac did not match" ErrCryptoVerifyFailed)
      else None
  end.

(** *** Example keys and hashers *)

Definition rsaKey (bits : Z) : Signer :=
  {| Public := rsaPublicKey (2 ^ (bits - 1) + 1)%Z 65537%Z; private := 1%Z |}.

Definition ecdsaKey (curve : Curve) : Signer :=
  {| Public := ecdsaPublicKey curve 1%Z 2%Z; private := 1%Z |}.

(** A hasher for the examples: the "MAC" of a byte string is the string
    itself. *)
Definition echoHasher : KeyedHasher gostring :=
  fun alg v => Ok {| Algorithm := alg; Value := v |}.

(** A hasher that supports no algorithm. *)
Definition failingHasher : KeyedHasher gostring :=
  fun alg v => Err (Errorf "unsupported hash algorithm").

(** A hasher whose own failure is reported as a failed verification, as
    one may that checks a credential before it computes. *)
Definition refusingHasher : KeyedHasher gostring :=
  fun alg v => Err (Wrapf "%w: hmac did not match" ErrCryptoVerifyFailed).

(** ** A CBOR codec for running fdo.payload on short messages *)

Module shortCodec.

Import fsim.

(** The encoder: the items of package cbor, and a map with text keys for
    a Go map. *)
Fixpoint encodeValue (v : value) : gostring :=
  match v with
  | VBool b => cbor.bool b
  | VInt z => cbor.int z
  | VBytes b => cbor.bstr b
  | VText s => cbor.tstr s
  | VMap entries =>
      cbor.head 5 (N.of_nat (length entries))
      ++ (fix items (entries : list (gostring * value)) : gostring :=
            match entries with
            | [] => []
            | (k, v) :: entries' => cbor.tstr k ++ encodeValue v ++ items entries'
            end) entries
  end.

(** The decoders read items whose argument sits in the first byte or in
    the one byte after it, which is all the examples need; anything
    else is an error. *)
Definition readHead (bs : gostring) : option (N * N * gostring) :=
  match bs with
  | [] => None
  | h :: rest =>
      let b := N_of_ascii h in
      let major := (b / 32)%N in
      let info := (b mod 32)%N in
      if (info <? 24)%N then Some (major, info, rest)
      else if (info =? 24)%N
      then match rest with
           | x :: rest' => Some (major, N_of_ascii x, rest')
           | [] => None
           end
      else None
  end.

(** A string of the major type given, and what follows it. *)
Definition readString (major : N) (bs : gostring) : option (gostring * gostring) :=
  match readHead bs with
  | Some (m, n, rest) =>
      if (m =? major)%N && (N.to_nat n <=? length rest)%nat
      then Some (firstn (N.to_nat n) rest, skipn (N.to_nat n) rest)
      else None
  | None => None
  end.

Definition readInt (bs : gostring) : option (Z * gostring) :=
  match readHead bs with
  | Some (0%N, n, rest) => Some (Z.of_N n, rest)
  | Some (1%N, n, rest) => Some ((-1 - Z.of_N n)%Z, rest)
  | _ => None
  end.

Definition readBool (bs : gostring) : option (bool * gostring) :=
  match bs with
  | h :: rest =>
      if (N_of_ascii h =? 0xf5)%N then Some (true, rest)
      else if (N_of_ascii h =? 0xf4)%N then Some (false, rest)
      else None
  | [] => None
  end.

Definition malformed {A : Type} : result A := Err (Errorf "cbor: malformed item").

(** A decoder must use up its input. *)
Definition whole {A : Type} (r : option (A * gostring)) : result A :=
  match r with
  | Some (a, []) => Ok a
  | _ => malformed
  end.

(** [n] entries of a map from text to text. *)
Fixpoint readTextMap (n : nat) (bs : gostring)
  : option (list (gostring * gostring) * gostring) :=
  match n with
  | O => Some ([], bs)
  | S n' =>
      match readString 3 bs with
      | Some (k, bs1) =>
          match readString 3 bs1 with
          | Some (v, bs2) =>
              match readTextMap n' bs2 with
              | Some (entries, bs3) => Some ((k, v) :: entries, bs3)
              | None => None
              end
          | None => None
          end
      | None => None
      end
  end.

(** [n] entries of a [begin] map into the struct. *)
Fixpoint readBegin (n : nat) (acc : beginStruct) (bs : gostring)
  : option (beginStruct * gostring) :=
  match n with
  | O => Some (acc, bs)
  | S n' =>
      match readString 3 bs with
      | None => None
      | Some (k, bs1) =>
          if gostring_eqb k (go "mime_type") then
            match readString 3 bs1 with
            | Some (s, bs2) =>
                readBegin n' {| mime_type := s; name := name acc; size := size acc;
                                metadata := metadata acc |} bs2
            | None => None
            end
          else if gostring_eqb k (go "name") then
            match readString 3 bs1 with
            | Some (s, bs2) =>
                readBegin n' {| mime_type := mime_type acc; name := s; size := size acc;
                                metadata := metadata acc |} bs2
            | None => None
            end
          else if gostring_eqb k (go "size") then
            match readInt bs1 with
            | Some (z, bs2) =>
                readBegin n' {| mime_type := mime_type acc; name := name acc; size := z;
                                metadata := metadata acc |} bs2
            | None => None
            end
          else if gostring_eqb k (go "metadata") then
            match readHead bs1 with
            | Some (5%N, m, bs2) =>
                match readTextMap (N.to_nat m) bs2 with
                | Some (md, bs3) =>
                    readBegin n' {| mime_type := mime_type acc; name := name acc;
                                    size := size acc; metadata := Some md |} bs3
                | None => None
                end
            | _ => None
            end
          else None
      end
  end.

(** [n] entries of a [result] map into the struct. *)
Fixpoint readResult (n : nat) (acc : resultStruct) (bs : gostring)
  : option (resultStruct * gostring) :=
  match n with
  | O => Some (acc, bs)
  | S n' =>
      match readString 3 bs with
      | None => None
      | Some (k, bs1) =>
          if gostring_eqb k (go "success") then
            match readBool bs1 with
            | Some (b, bs2) =>
                readResult n' {| success := b; message := message acc;
                                 output := output acc |} bs2
            | None => None
            end
          else if gostring_eqb k (go "message") then
            match readString 3 bs1 with
            | Some (s, bs2) =>
                readResult n' {| success := success acc; message := s;
                                 output := output acc |} bs2
            | None => None
            end
          else if gostring_eqb k (go "output") then
            match readString 3 bs1 with
            | Some (s, bs2) =>
                readResult n' {| success := success acc; message := message acc;
                                 output := s |} bs2
            | None => None
            end
          else None
      end
  end.

(** [n] entries of an [error] map into the struct. *)
Fixpoint readError (n : nat) (acc : PayloadErrorInfo) (bs : gostring)
  : option (PayloadErrorInfo * gostring) :=
  match n with
  | O => Some (acc, bs)
  | S n' =>
      match readString 3 bs with
      | None => None
      | Some (k, bs1) =>
          if gostring_eqb k (go "code") then
            match readInt bs1 with
            | Some (z, bs2) =>
                readError n' {| Code := z; Message := Message acc;
                                Details := Details acc |} bs2
            | None => None
            end
          else if gostring_eqb k (go "message") then
            match readString 3 bs1 with
            | Some (s, bs2) =>
                readError n' {| Code := Code acc; Message := s;
                                Details := Details acc |} bs2
            | None => None
            end
          else if gostring_eqb k (go "details") then
            match readString 3 bs1 with
            | Some (s, bs2) =>
                readError n' {| Code := Code acc; Message := Message acc;
                                Details := s |} bs2
            | None => None
            end
          else None
      end
  end.

(** A map of the entries that [read] takes, from the zero struct. *)
Definition readMap {A : Type} (read : nat -> A -> gostring -> option (A * gostring))
           (zero : A) (bs : gostring) : result A :=
  match readHead bs with
  | Some (5%N, n, rest) => whole (read (N.to_nat n) zero rest)
  | _ => malformed
  end.

Definition codec : Codec :=
  {| Encode := fun v => Ok (encodeValue v);
     DecodeBool := fun bs => whole (readBool bs);
     DecodeInt := fun bs => whole (readInt bs);
     DecodeBytes := fun bs => whole (readString 2 bs);
     DecodeBegin :=
       readMap readBegin {| mime_type := []; name := []; size := 0; metadata := None |};
     DecodeResult :=
       readMap readResult {| success := false; message := []; output := [] |};
     DecodeError :=
       readMap readError {| Code := 0; Message := []; Details := [] |} |}.

(** A producer that takes every chunk. *)
Definition WriteChunk (producer : Producer) (key body : gostring) : result Producer :=
  Ok (producer ++ [(key, body)]).

(** A payload of five bytes, to be sent in chunks of two. *)
Definition hello : PayloadToSend :=
  {| MimeType := go "text/plain"; Name := go "hello.txt"; Data := go "hello";
     Metadata := Some [(go "version", go "1.0")] |}.

End shortCodec.

(** ** The pieces of a payload *)

(** [data] cut into pieces of [size] bytes, the last one shorter when
    [size] does not divide the length; [fuel] bounds the number of
    pieces. *)
Fixpoint chunks (fuel size : nat) (data : gostring) : list gostring :=
  match fuel with
  | O => []
  | S fuel' =>
      match data with
      | [] => []
      | _ :: _ => firstn size data :: chunks fuel' size (skipn size data)
      end
  end.

(** The chunk size in use: 4096 bytes when none was set. *)
Definition effectiveChunkSize (c : Z) : Z := if (c =? 0)%Z then 4096%Z else c.

(** The pieces in which the owner module sends [data] with the chunk size
    [c]. *)
Definition pieces (c : Z) (data : gostring) : list gostring :=
  chunks (length data) (Z.to_nat (effectiveChunkSize c)) data.

(** What the device is to decode from the [begin] body of a payload. *)
Definition beginOf (pl : fsim.PayloadToSend) : fsim.beginStruct :=
  {| fsim.mime_type := fsim.MimeType pl;
     fsim.name := fsim.Name pl;
     fsim.size := len (fsim.Data pl);
     fsim.metadata := fsim.Metadata pl |}.

(** An owner module with the one payload [pl] queued and the chunk size
    [c] set. *)
Definition ownerWith (pl : fsim.PayloadToSend) (c : Z) : fsim.PayloadOwner :=
  fsim.SetChunkSize
    (fsim.AddPayload fsim.newOwner (fsim.MimeType pl) (fsim.Name pl) (fsim.Data pl)
                     (fsim.Metadata pl)) c.

(** The owner module in the middle of the payload [pl], [sent] bytes
    sent. *)
Definition ownerSending (pl : fsim.PayloadToSend) (c : Z) (sent : Z) (wait : bool)
  : fsim.PayloadOwner :=
  {| fsim.payloads := [pl]; fsim.currentPayload := Some pl; fsim.currentIndex := 0;
     fsim.bytesSent := sent; fsim.chunkSize := effectiveChunkSize c;
     fsim.waitingForAck := wait; fsim.lastError := None |}.

(** An owner module with the payloads [q] queued, in this order, and
    the chunk size [c] set. *)
Definition ownerQueue (q : list fsim.PayloadToSend) (c : Z) : fsim.PayloadOwner :=
  fsim.SetChunkSize
    (fold_left (fun p pl => fsim.AddPayload p (fsim.MimeType pl) (fsim.Name pl)
                                            (fsim.Data pl) (fsim.Metadata pl))
               q fsim.newOwner) c.

(** The owner module at the payload of index [i] in the queue [q]. *)
Definition ownerAt (q : list fsim.PayloadToSend) (i : Z) (current : option fsim.PayloadToSend)
           (sent : Z) (wait : bool) (chunkSize : Z) : fsim.PayloadOwner :=
  {| fsim.payloads := q; fsim.currentPayload := current; fsim.currentIndex := i;
     fsim.bytesSent := sent; fsim.chunkSize := chunkSize;
     fsim.waitingForAck := wait; fsim.lastError := None |}.

(** The calls that the delivery of one payload makes to the handler, and
    the keys of the messages that carry it when [end] is sent once. *)
Definition callsFor (c : Z) (pl : fsim.PayloadToSend) : list fsim.call :=
  fsim.CallBegin (fsim.MimeType pl) (fsim.Name pl) (len (fsim.Data pl)) (fsim.Metadata pl)
  :: map fsim.CallChunk (pieces c (fsim.Data pl)) ++ [fsim.CallEnd].

Definition keysFor (c : Z) (pl : fsim.PayloadToSend) : list gostring :=
  go "begin" :: repeat (go "data") (length (pieces c (fsim.Data pl))) ++ [go "end"].

(** How often [end] is written for the first payload when a message
    takes [mtu] KVs: [ProduceInfo] writes it at every call from the last
    acknowledgement to the end of the message.  With data the message is
    empty then; without, it holds [begin]. *)
Definition endsFor (mtu : nat) (pl : fsim.PayloadToSend) : nat :=
  if (mtu =? 1)%nat then 1
  else if (0 <? len (fsim.Data pl))%Z then mtu
  else mtu - 1.

(** The device module in the middle of the payload, [received] bytes
    taken, with a recording handler. *)
Definition deviceTaking (pl : fsim.PayloadToSend) (active : bool) (received : Z)
           (calls : list fsim.call) : fsim.Payload (list fsim.call) :=
  {| fsim.Handler := Some calls; fsim.Active := active; fsim.receiving := true;
     fsim.totalBytes := received; fsim.expectedSize := len (fsim.Data pl);
     fsim.buffer := [] |}.

(** The device module after the payload. *)
Definition deviceDelivered (pl : fsim.PayloadToSend) (active : bool)
           (calls : list fsim.call) : fsim.Payload (list fsim.call) :=
  {| fsim.Handler := Some calls; fsim.Active := active; fsim.receiving := false;
     fsim.totalBytes := len (fsim.Data pl); fsim.expectedSize := len (fsim.Data pl);
     fsim.buffer := [] |}.

(** ** More examples for the delegate chains *)

(** A key and a certificate generator for running the examples: the
    certificate carries what [GenerateDelegate] puts into its template. *)
Definition sampleKey : Signer :=
  {| Public := ecdsaPublicKey P256 1%Z 2%Z; private := 1%Z |}.

Definition sampleGenerateDelegate (key : Signer) (flags : Z) (delegateKey : PublicKey)
           (subject issuer : gostring) (permissions : list ObjectIdentifier)
           (sigAlg : Z) (ident : gostring) : result Certificate :=
  Ok {| SubjectCommonName := subject;
        IssuerCommonName := issuer;
        Extensions := (if nonEmpty ident
                       then [mkExtension OID_IdentifierConstraints ident] else [])
                      ++ map (fun p => mkExtension p []) permissions;
        KeyUsage := Z.lor KeyUsageCertSign KeyUsageDigitalSignature;
        BasicConstraintsValid := true;
        IsCA := true;
        Raw := [] |}.

(** The name that the loop of [processDelegateChain] reads from the
    certificate of index [i]: the identifier of the leaf, the identifier
    constraints of every other certificate. *)
Definition nameAt (i : nat) (c : Certificate) : gostring :=
  if Nat.eqb i 0 then GetCertIdentifierStr c else getIdentConstraints c.

(** [strings.Join(elems, sep)]. *)
Fixpoint Join (elems : list gostring) (sep : gostring) : gostring :=
  match elems with
  | [] => []
  | [e] => e
  | e :: elems' => e ++ sep ++ Join elems' sep
  end.

(** ** delegate.go: the names of the permissions *)

(** [asn1.ObjectIdentifier.String]: the arcs in decimal, joined by dots. *)
Definition ObjectIdentifier_String (oi : ObjectIdentifier) : gostring :=
  Join (map strconv.FormatInt oi) (go ".").

Definition DelegateOIDtoString (oid : ObjectIdentifier) : gostring :=
  if oidEqual oid OID_delegateOnboard then go "onboard"
  else if oidEqual oid OID_delegateUpload then go "upload"
  else if oidEqual oid OID_delegateRedirect then go "redirect"
  else if oidEqual oid OID_delegateClaim then go "claim"
  else if oidEqual oid OID_delegateProvision then go "provision"
  else if oidEqual oid OID_Identifier then go "identifier"
  else if oidEqual oid OID_IdentifierConstraints then go "identConstraints"
  else go "Unknown: " ++ ObjectIdentifier_String oid ++ ["010"%char].

Definition DelegateStringToOID (str : gostring) : ObjectIdentifier * option error :=
  if gostring_eqb str (go "onboard") then (OID_delegateOnboard, None)
  else if gostring_eqb str (go "upload") then (OID_delegateUpload, None)
  else if gostring_eqb str (go "redirect") then (OID_delegateRedirect, None)
  else if gostring_eqb str (go "claim") then (OID_delegateClaim, None)
  else if gostring_eqb str (go "provision") then (OID_delegateProvision, None)
  else (OID_delegateBase, Some (Errorf "Invalid Delegate OID string")).

(** ** hash.go *)

(** [HashAlg.String]; an algorithm outside the enumeration panics. *)
Definition HashAlg_String (alg : HashAlg) : outcome gostring :=
  if Z.eqb alg Sha256Hash then Returns (go "Sha256Hash")
  else if Z.eqb alg Sha384Hash then Returns (go "Sha384Hash")
  else if Z.eqb alg HmacSha256Hash then Returns (go "HmacSha256Hash")
  else if Z.eqb alg HmacSha384Hash then Returns (go "HmacSha384Hash")
  else Panics.

(** ** cose: labels as text *)

(** [Label.String]. *)
Definition Label_String (l : cose.Label) : gostring :=
  if (0 <? cose.Int64 l)%Z then strconv.FormatInt (cose.Int64 l) else cose.Str l.

(** ** States of the payload modules that their methods reach *)

(** The device modules that calls of the exported methods lead to, from a
    module as [&Payload{Handler: h, Active: a}] makes it. *)
Inductive deviceReaches {H : Type} (codec : fsim.Codec) (handler : fsim.PayloadHandler H)
  : fsim.Payload H -> Prop :=
| deviceReaches_fresh (h : option H) (a : bool) :
    deviceReaches codec handler (fsim.fresh h a)
| deviceReaches_Receive (p p' : fsim.Payload H) (messageName messageBody : gostring)
                        (out : list fsim.KV) (err : option error) :
    deviceReaches codec handler p ->
    fsim.Receive codec handler p messageName messageBody = Returns (p', out, err) ->
    deviceReaches codec handler p'
| deviceReaches_Transition (p : fsim.Payload H) (active : bool) :
    deviceReaches codec handler p ->
    deviceReaches codec handler (fst (fsim.Transition handler p active))
| deviceReaches_Yield (p : fsim.Payload H) :
    deviceReaches codec handler p ->
    deviceReaches codec handler (fst (fst (fsim.Yield p))).

(** The owner modules that calls of the exported methods lead to, from
    the zero value.  Slices are as long as an [int] can say, and the chunk
    sizes set are not negative. *)
Inductive ownerReaches (codec : fsim.Codec)
          (WriteChunk : fsim.Producer -> gostring -> gostring -> result fsim.Producer)
  : fsim.PayloadOwner -> Prop :=
| ownerReaches_new : ownerReaches codec WriteChunk fsim.newOwner
| ownerReaches_AddPayload (p : fsim.PayloadOwner) (mimeType name data : gostring)
                          (metadata : option (list (gostring * gostring))) :
    ownerReaches codec WriteChunk p ->
    (len data < 2 ^ 63)%Z ->
    (len (fsim.payloads p) + 1 < 2 ^ 63)%Z ->
    ownerReaches codec WriteChunk (fsim.AddPayload p mimeType name data metadata)
| ownerReaches_SetChunkSize (p : fsim.PayloadOwner) (size : Z) :
    ownerReaches codec WriteChunk p ->
    (0 <= size < 2 ^ 63)%Z ->
    ownerReaches codec WriteChunk (fsim.SetChunkSize p size)
| ownerReaches_ProduceInfo (p p' : fsim.PayloadOwner) (producer producer' : fsim.Producer)
                           (flags : fsim.produced) :
    ownerReaches codec WriteChunk p ->
    fsim.ProduceInfo codec WriteChunk p producer = Returns (p', producer', flags) ->
    ownerReaches codec WriteChunk p'
| ownerReaches_HandleInfo (p p' : fsim.PayloadOwner) (messageName messageBody : gostring)
                          (err : option error) :
    ownerReaches codec WriteChunk p ->
    fsim.HandleInfo codec p messageName messageBody = Returns (p', err) ->
    ownerReaches codec WriteChunk p'
| ownerReaches_Transition (p : fsim.PayloadOwner) (active : bool) :
    ownerReaches codec WriteChunk p ->
    ownerReaches codec WriteChunk (fst (fsim.ownerTransition p active)).

(** What holds of the owner module between calls. *)
Definition ownerInvariant (p : fsim.PayloadOwner) : Prop :=
  (0 <= fsim.chunkSize p < 2 ^ 63)%Z
  /\ (0 <= fsim.currentIndex p <= len (fsim.payloads p))%Z
  /\ (len (fsim.payloads p) < 2 ^ 63)%Z
  /\ Forall (fun pl => (len (fsim.Data pl) < 2 ^ 63)%Z) (fsim.payloads p)
  /\ match fsim.currentPayload p with
     | Some pl =>
         nth_error (fsim.payloads p) (Z.to_nat (fsim.currentIndex p)) = Some pl
         /\ (0 <= fsim.bytesSent p <= len (fsim.Data pl))%Z
     | None => True
     end.

(** Two payloads for the examples: five bytes with a name and metadata,
    then two bytes with neither. *)
Definition twoPayloads : list fsim.PayloadToSend :=
  [ shortCodec.hello;
    {| fsim.MimeType := go "application/octet-stream"; fsim.Name := [];
       fsim.Data := go "ab"; fsim.Metadata := None |} ].

(** ** encoding/hex, encoding/base64 *)

Module hex.

Local Open Scope N_scope.

(** [fromHexChar]: the value of a hexadecimal digit, of either case. *)
Definition fromHexChar (c : ascii) : option N :=
  let b := N_of_ascii c in
  if (48 <=? b) && (b <=? 57) then Some (b - 48)
  else if (97 <=? b) && (b <=? 102) then Some (b - 97 + 10)
  else if (65 <=? b) && (b <=? 70) then Some (b - 65 + 10)
  else None.

(** [hex.InvalidByteError] and [hex.ErrLength]. *)
Definition InvalidByteError (c : ascii) : error := Errorf "encoding/hex: invalid byte: %#U".
Definition ErrLength : error := Sentinel "hex.ErrLength".

(** [hex.DecodeString]: two digits a byte.  The digits are checked pair
    by pair, the first of a pair first; an odd length is reported after
    every digit has been found valid. *)
Fixpoint DecodeString (s : gostring) : result gostring :=
  match s with
  | [] => Ok []
  | [p] =>
      match fromHexChar p with
      | None => Err (InvalidByteError p)
      | Some _ => Err ErrLength
      end
  | p :: q :: s' =>
      match fromHexChar p with
      | None => Err (InvalidByteError p)
      | Some a =>
          match fromHexChar q with
          | None => Err (InvalidByteError q)
          | Some b =>
              match DecodeString s' with
              | Err err => Err err
              | Ok bytes => Ok (ascii_of_N (a * 16 + b) :: bytes)
              end
          end
      end
  end.

End hex.

Module base64.

Local Open Scope N_scope.

(** The alphabet of [base64.StdEncoding]. *)
Definition encodeStd : gostring :=
  go "ABCDEFGHIJKLMNOPQRSTUVWXYZabcdefghijklmnopqrstuvwxyz0123456789+/".

(** [enc.encode[val & 0x3F]]. *)
Definition encode (val : N) : ascii :=
  nth (N.to_nat (N.land val 63)) encodeStd "="%char.

(** [base64.StdEncoding.EncodeToString]: four characters for every three
    bytes, the last group padded with [=]. *)
Fixpoint EncodeToString (src : gostring) : gostring :=
  match src with
  | [] => []
  | [b0] =>
      let val := N.shiftl (N_of_ascii b0) 16 in
      [encode (N.shiftr val 18); encode (N.shiftr val 12); "="%char; "="%char]
  | [b0; b1] =>
      let val := N.lor (N.shiftl (N_of_ascii b0) 16) (N.shiftl (N_of_ascii b1) 8) in
      [encode (N.shiftr val 18); encode (N.shiftr val 12); encode (N.shiftr val 6);
       "="%char]
  | b0 :: b1 :: b2 :: src' =>
      let val := N.lor (N.lor (N.shiftl (N_of_ascii b0) 16) (N.shiftl (N_of_ascii b1) 8))
                       (N_of_ascii b2) in
      encode (N.shiftr val 18) :: encode (N.shiftr val 12) :: encode (N.shiftr val 6)
        :: encode val :: EncodeToString src'
  end.

End base64.

(** ** examples/cmd: delegate.go *)

(** [HexStringToCert].  The base64 text is cut into lines of 64
    characters, and the lines are then appended to the header one after
    the other. *)
Definition HexStringToCert (hexInput : gostring) : gostring * option error :=
  let hexString := strings.ReplaceAll hexInput ["010"%char] [] in
  let hexString := strings.ReplaceAll hexString (go " ") [] in
  match hex.DecodeString hexString with
  | Err err => ([], Some (Errorf "Failed to decode hex string: %v"))
  | Ok bytes =>
      let base64String := base64.EncodeToString bytes in
      let lines := chunks (length base64String) 64 base64String in
      let certStr := go "-----BEGIN CERTIFICATE-----" in
      let certStr := fold_left (fun certStr line => certStr ++ line) lines certStr in
      let certStr := certStr ++ go "-----END CERTIFICATE-----" in
      (certStr, None)
  end.

(** The input of [HexStringToCert] without its newlines and spaces. *)
Definition hexDigitsOf (hexInput : gostring) : gostring :=
  strings.ReplaceAll (strings.ReplaceAll hexInput ["010"%char] []) (go " ") [].

Definition isHexDigit (c : ascii) : bool :=
  match hex.fromHexChar c with Some _ => true | None => false end.

(** ** encoding/pem *)

Module pem.

(** [pem.Encode] into a [bytes.Buffer], for a block without headers, the
    only kind the sources make: the line of [BEGIN], the base64 text of
    the bytes in lines of 64 characters, each ended by a newline, and the
    line of [END].  The one error of [Encode] that is its own is for a
    header key; the buffer returns none. *)
Definition Encode (type_ : gostring) (bytes : gostring) : result gostring :=
  let b64 := base64.EncodeToString bytes in
  Ok (go "-----BEGIN " ++ type_ ++ go "-----" ++ ["010"%char]
      ++ concat (map (fun line => line ++ ["010"%char]) (chunks (length b64) 64 b64))
      ++ go "-----END " ++ type_ ++ go "-----" ++ ["010"%char]).

End pem.

(** ** delegate.go: certificates as text *)

(** [BytesToString]. *)
Definition BytesToString (b : gostring) (leader : gostring) : gostring :=
  match pem.Encode leader b with
  | Err _ => []
  | Ok pemData => pemData
  end.

(** [CertToString]. *)
Definition CertToString (cert : Certificate) (leader : gostring) : gostring :=
  match pem.Encode leader (Raw cert) with
  | Err _ => []
  | Ok pemData => pemData
  end.

(** [CertChainToString]. *)
Definition CertChainToString (leader : gostring) (chain : list Certificate) : gostring :=
  fold_left (fun result cert => result ++ CertToString cert leader) chain [].

(** [s] without its newlines. *)
Definition withoutNewlines (s : gostring) : gostring :=
  filter (fun c => negb (byte_eqb c "010"%char)) s.

(** ** fsim: the fdo.ssh module *)

Module ssh.

(** [SSHKeyInstall]. *)
Record SSHKeyInstall : Type := {
  Key : gostring;
  Username : gostring;
  Sudo : bool
}.

(** Package cbor is not among the sources: encoding and the decoding into
    each target type are parameters. *)
Record Codec : Type := {
  EncodeKeyInstall : SSHKeyInstall -> result gostring;
  EncodeStrings : list gostring -> result gostring;
  EncodeUint : Z -> result gostring;
  EncodeBytes : gostring -> result gostring;
  DecodeKeyInstall : gostring -> result SSHKeyInstall;
  DecodeStrings : gostring -> result (list gostring);
  DecodeUint : gostring -> result Z;
  DecodeBool : gostring -> result bool
}.

(** [SSH]: the device side.  The two callbacks act on the state [W] of
    the application behind them; [None] is a nil callback. *)
Record SSH (W : Type) : Type := {
  InstallAuthorizedKey : option (W -> gostring -> gostring -> bool -> W * option error);
  GetHostKeys : option (W -> W * result (list gostring));
  DefaultUsername : gostring;
  hostKeysSent : bool;
  pendingError : option Z
}.
Arguments InstallAuthorizedKey {W} s.
Arguments GetHostKeys {W} s.
Arguments DefaultUsername {W} s.
Arguments hostKeysSent {W} s.
Arguments pendingError {W} s.

(** [sshErrorString]. *)
Definition sshErrorString (code : Z) : gostring :=
  if (code =? 1)%Z then go "Bad request / Invalid format"
  else if (code =? 2)%Z then go "Permission denied"
  else if (code =? 3)%Z then go "User not found"
  else if (code =? 4)%Z then go "Filesystem error"
  else if (code =? 5)%Z then go "SSH service not available"
  else go "Unknown error".

Section Device.

Variable codec : Codec.
Context {W : Type}.

Definition withState (s : SSH W) (sent : bool) (pending : option Z) : SSH W :=
  {| InstallAuthorizedKey := InstallAuthorizedKey s;
     GetHostKeys := GetHostKeys s;
     DefaultUsername := DefaultUsername s;
     hostKeysSent := sent;
     pendingError := pending |}.

(** [SSH.reset]. *)
Definition reset (s : SSH W) : SSH W := withState s false None.

(** [SSH.Transition]. *)
Definition Transition (s : SSH W) (active : bool) : SSH W * option error :=
  if negb active then (reset s, None) else (s, None).

(** [SSH.receiveAddKey]. *)
Definition receiveAddKey (s : SSH W) (w : W) (messageBody : gostring) : W * option error :=
  match DecodeKeyInstall codec messageBody with
  | Err err => (w, Some (Wrapf "error decoding add-key: %w" err))
  | Ok keyInstall =>
      match InstallAuthorizedKey s with
      | None =>
          (w, Some (Errorf "InstallAuthorizedKey callback is required but not provided"))
      | Some install =>
          let username := Username keyInstall in
          let username := if nonEmpty username then username else DefaultUsername s in
          match install w (Key keyInstall) username (Sudo keyInstall) with
          | (w', Some err) => (w', Some (Wrapf "error installing authorized key: %w" err))
          | (w', None) => (w', None)
          end
      end
  end.

(** [SSH.receive]. *)
Definition receive (s : SSH W) (w : W) (messageName messageBody : gostring)
  : SSH W * W * option error :=
  if gostring_eqb messageName (go "add-key") then
    let (w', err) := receiveAddKey s w messageBody in (s, w', err)
  else if gostring_eqb messageName (go "error") then
    match DecodeUint codec messageBody with
    | Err err => (s, w, Some (Wrapf "error decoding error code: %w" err))
    | Ok errCode =>
        (withState s (hostKeysSent s) (Some errCode), w,
         Some (Errorf "SSH operation failed with error code %d: %s"))
    end
  else (s, w, Some (Errorf "unknown message %s")).

(** [SSH.Receive]: an error of [receive] resets the module. *)
Definition Receive (s : SSH W) (w : W) (messageName messageBody : gostring)
  : SSH W * W * option error :=
  match receive s w messageName messageBody with
  | (s', w', Some err) => (reset s', w', Some err)
  | (s', w', None) => (s', w', None)
  end.

(** [SSH.sendHostKeys]: the state of the application after the call, the
    KVs written through [respond], and the error. *)
Definition sendHostKeys (s : SSH W) (w : W) : W * list fsim.KV * option error :=
  match GetHostKeys s with
  | None => (w, [], Some (Errorf "GetHostKeys callback is required but not provided"))
  | Some getHostKeys =>
      match getHostKeys w with
      | (w', Err err) => (w', [], Some (Wrapf "error getting host keys: %w" err))
      | (w', Ok hostKeys) =>
          if (len hostKeys =? 0)%Z
          then (w', [], Some (Errorf "no SSH host keys found"))
          else
            match EncodeStrings codec hostKeys with
            | Err err => (w', [], Some (Wrapf "error sending host-keys: %w" err))
            | Ok body => (w', [(go "host-keys", body)], None)
            end
      end
  end.

(** [SSH.Yield]: the module, the application, the KVs written, whether
    [yield] was called, and the error. *)
Definition Yield (s : SSH W) (w : W) : SSH W * W * list fsim.KV * bool * option error :=
  match pendingError s with
  | Some _ => (s, w, [], false, Some (Errorf "SSH operation failed with error code %d"))
  | None =>
      if negb (hostKeysSent s) then
        match sendHostKeys s w with
        | (w', out, Some err) => (s, w', out, false, Some err)
        | (w', out, None) => (withState s true (pendingError s), w', out, true, None)
        end
      else (s, w, [], false, None)
  end.

End Device.

(** [pendingSSHResponse]. *)
Record pendingSSHResponse : Type := {
  messageType : gostring;
  data : gostring;
  errorCode : option Z
}.

(** [SSHOwner]: the owner side. *)
Record SSHOwner (W : Type) : Type := {
  AuthorizedKeys : list SSHKeyInstall;
  OnHostKeys : option (W -> list gostring -> W * option error);
  keyIndex : Z;
  pendingResponse : option pendingSSHResponse
}.
Arguments AuthorizedKeys {W} s.
Arguments OnHostKeys {W} s.
Arguments keyIndex {W} s.
Arguments pendingResponse {W} s.

Section Owner.

Variable codec : Codec.
Variable WriteChunk : fsim.Producer -> gostring -> gostring -> result fsim.Producer.
Context {W : Type}.

Definition withIndex (s : SSHOwner W) (i : Z) (pending : option pendingSSHResponse)
  : SSHOwner W :=
  {| AuthorizedKeys := AuthorizedKeys s;
     OnHostKeys := OnHostKeys s;
     keyIndex := i;
     pendingResponse := pending |}.

(** [SSHOwner.handleHostKeys]. *)
Definition handleHostKeys (s : SSHOwner W) (w : W) (messageBody : gostring)
  : W * option error :=
  match DecodeStrings codec messageBody with
  | Err err => (w, Some (Wrapf "error decoding host-keys: %w" err))
  | Ok hostKeys =>
      if (len hostKeys =? 0)%Z
      then (w, Some (Errorf "device sent empty host keys list"))
      else
        match OnHostKeys s with
        | None => (w, None)
        | Some onHostKeys =>
            match onHostKeys w hostKeys with
            | (w', Some err) => (w', Some (Wrapf "error handling host keys: %w" err))
            | (w', None) => (w', None)
            end
        end
  end.

(** [SSHOwner.HandleInfo]. *)
Definition HandleInfo (s : SSHOwner W) (w : W) (messageName messageBody : gostring)
  : W * option error :=
  if gostring_eqb messageName (go "active") then
    match DecodeBool codec messageBody with
    | Err err => (w, Some (Wrapf "error decoding active message: %w" err))
    | Ok deviceActive =>
        if negb deviceActive
        then (w, Some (Errorf "device SSH module is not active"))
        else (w, None)
    end
  else if gostring_eqb messageName (go "host-keys") then handleHostKeys s w messageBody
  else if gostring_eqb messageName (go "error") then
    match DecodeUint codec messageBody with
    | Err err => (w, Some (Wrapf "error decoding error code: %w" err))
    | Ok errCode => (w, Some (Errorf "device reported SSH error %d: %s"))
    end
  else (w, Some (Errorf "unknown message %s")).

(** [SSHOwner.ProduceInfo]: the module, the producer, and the values
    returned, [blockPeer], [moduleDone] and the error. *)
Definition ProduceInfo (s : SSHOwner W) (producer : fsim.Producer)
  : outcome (SSHOwner W * fsim.Producer * fsim.produced) :=
  match pendingResponse s with
  | Some pending =>
      match errorCode pending with
      | Some code =>
          match EncodeUint codec code with
          | Err err =>
              Returns (s, producer, (false, false,
                                     Some (Wrapf "error encoding error response: %w" err)))
          | Ok buf =>
              match WriteChunk producer (go "error") buf with
              | Err err =>
                  Returns (s, producer, (false, false,
                                         Some (Wrapf "error sending error response: %w" err)))
              | Ok producer' =>
                  Returns (withIndex s (keyIndex s) None, producer', (false, true, None))
              end
          end
      | None =>
          match EncodeBytes codec (data pending) with
          | Err err =>
              Returns (s, producer, (false, false, Some (Wrapf "error encoding %s: %w" err)))
          | Ok buf =>
              match WriteChunk producer (messageType pending) buf with
              | Err err =>
                  Returns (s, producer, (false, false, Some (Wrapf "error sending %s: %w" err)))
              | Ok producer' =>
                  Returns (withIndex s (keyIndex s) None, producer', (false, false, None))
              end
          end
      end
  | None =>
      if (keyIndex s <? len (AuthorizedKeys s))%Z then
        match fsim.index (AuthorizedKeys s) (keyIndex s) with
        | Panics => Panics
        | Returns keyInstall =>
            let s' := withIndex s (wrap64 (keyIndex s + 1)) (pendingResponse s) in
            match EncodeKeyInstall codec keyInstall with
            | Err err =>
                Returns (s', producer, (false, false,
                                        Some (Wrapf "error encoding add-key: %w" err)))
            | Ok buf =>
                match WriteChunk producer (go "add-key") buf with
                | Err err =>
                    Returns (s', producer, (false, false,
                                            Some (Wrapf "error sending add-key: %w" err)))
                | Ok producer' => Returns (s', producer', (false, false, None))
                end
            end
        end
      else Returns (s, producer, (false, true, None))
  end.

(** [SSHOwner.AddAuthorizedKey]. *)
Definition AddAuthorizedKey (s : SSHOwner W) (key username : gostring) (sudo : bool)
  : SSHOwner W :=
  {| AuthorizedKeys := AuthorizedKeys s
                       ++ [{| Key := key; Username := username; Sudo := sudo |}];
     OnHostKeys := OnHostKeys s;
     keyIndex := keyIndex s;
     pendingResponse := pendingResponse s |}.

(** [SSHOwner.Reset]. *)
Definition Reset (s : SSHOwner W) : SSHOwner W := withIndex s 0 None.

(** [ProduceInfo] called again and again, each time with the producer
    the call before left, until the module is done or a call fails;
    [fuel] bounds the number of calls. *)
Fixpoint produceAll (fuel : nat) (s : SSHOwner W) (producer : fsim.Producer)
  : outcome (SSHOwner W * fsim.Producer * fsim.ending) :=
  match fuel with
  | O => Returns (s, producer, fsim.OutOfCalls)
  | S fuel' =>
      match ProduceInfo s producer with
      | Panics => Panics
      | Returns (s', producer', (_, _, Some err)) => Returns (s', producer', fsim.Failed err)
      | Returns (s', producer', (_, true, None)) => Returns (s', producer', fsim.ModuleDone)
      | Returns (s', producer', (_, false, None)) => produceAll fuel' s' producer'
      end
  end.

End Owner.

End ssh.

(** The device modules of fdo.ssh that calls of the exported methods lead
    to, from a module made of its exported fields. *)
Inductive sshReaches {W : Type} (codec : ssh.Codec) : ssh.SSH W -> Prop :=
| sshReaches_new (install : option (W -> gostring -> gostring -> bool -> W * option error))
                 (getHostKeys : option (W -> W * result (list gostring)))
                 (defaultUsername : gostring) :
    sshReaches codec {| ssh.InstallAuthorizedKey := install;
                        ssh.GetHostKeys := getHostKeys;
                        ssh.DefaultUsername := defaultUsername;
                        ssh.hostKeysSent := false;
                        ssh.pendingError := None |}
| sshReaches_Receive (s : ssh.SSH W) (w : W) (messageName messageBody : gostring) :
    sshReaches codec s ->
    sshReaches codec (fst (fst (ssh.Receive codec s w messageName messageBody)))
| sshReaches_Transition (s : ssh.SSH W) (active : bool) :
    sshReaches codec s ->
    sshReaches codec (fst (ssh.Transition s active))
| sshReaches_Yield (s : ssh.SSH W) (w : W) :
    sshReaches codec s ->
    sshReaches codec (fst (fst (fst (fst (ssh.Yield codec s w))))).

(** A codec for running the fdo.ssh modules in the examples. *)
Definition sshCodec : ssh.Codec :=
  {| ssh.EncodeKeyInstall := fun k => Ok (cbor.tstr (ssh.Key k));
     ssh.EncodeStrings := fun l => Ok (cbor.head 4 (N.of_nat (length l))
                                       ++ concat (map cbor.tstr l));
     ssh.EncodeUint := fun z => Ok (cbor.int z);
     ssh.EncodeBytes := fun b => Ok (cbor.bstr b);
     ssh.DecodeKeyInstall := fun bs =>
       match shortCodec.whole (shortCodec.readString 3 bs) with
       | Ok key => Ok {| ssh.Key := key; ssh.Username := []; ssh.Sudo := false |}
       | Err err => Err err
       end;
     ssh.DecodeStrings := fun _ => shortCodec.malformed;
     ssh.DecodeUint := fun bs => shortCodec.whole (shortCodec.readInt bs);
     ssh.DecodeBool := fun bs => shortCodec.whole (shortCodec.readBool bs) |}.

(** A device whose application state is the list of the keys installed. *)
Definition sshDevice : ssh.SSH (list (gostring * gostring * bool)) :=
  {| ssh.InstallAuthorizedKey :=
       Some (fun w key username sudo => (w ++ [(key, username, sudo)], None));
     ssh.GetHostKeys := Some (fun w => (w, Ok [go "ssh-ed25519 AAAA host"]));
     ssh.DefaultUsername := go "admin";
     ssh.hostKeysSent := false;
     ssh.pendingError := None |}.

(** * Properties of the library models *)

(** ** Bytes *)

Lemma byte_eqb_eq (a b : ascii) : byte_eqb a b = true <-> a = b.
Proof. unfold byte_eqb. apply Ascii.eqb_eq. Qed.

Lemma byte_eqb_refl (a : ascii) : byte_eqb a a = true.
Proof. apply byte_eqb_eq. reflexivity. Qed.

Lemma byte_eqb_neq (a b : ascii) : byte_eqb a b = false <-> a <> b.
Proof. unfold byte_eqb. apply Ascii.eqb_neq. Qed.

Lemma N_of_ascii_lt_256 (c : ascii) : (N_of_ascii c < 256)%N.
Proof. apply N_ascii_bounded. Qed.

Lemma special_star : regexp.special "*"%char = true.
Proof. reflexivity. Qed.

Lemma special_backslash : regexp.special "\"%char = true.
Proof. reflexivity. Qed.

Lemma special_isASCII (b : ascii) : regexp.special b = true -> isASCII b = true.
Proof.
  unfold regexp.special, regexp.specialBytes. simpl.
  repeat match goal with
         | |- context [byte_eqb b ?c] =>
             destruct (byte_eqb b c) eqn:E;
             [apply byte_eqb_eq in E; subst b; reflexivity | clear E]
         end.
  simpl. discriminate.
Qed.

(** The quoted term followed by the closing [$] never begins with a
    star: a star of the term is behind its backslash. *)
Lemma QuoteMeta_head_not_star (p : gostring) :
  strings.HasPrefix (regexp.QuoteMeta p ++ go "$") (go "*") = false.
Proof.
  destruct p as [|b p]; [reflexivity|].
  simpl. destruct (regexp.special b) eqn:E; simpl.
  - reflexivity.
  - destruct (byte_eqb b "*"%char) eqn:F; [|reflexivity].
    apply byte_eqb_eq in F. subst b. discriminate.
Qed.

Lemma QuoteMeta_cons (b : ascii) (p : gostring) :
  regexp.QuoteMeta (b :: p)
  = (if regexp.special b then ["\"%char; b] else [b]) ++ regexp.QuoteMeta p.
Proof. reflexivity. Qed.

Lemma replaceFrom_step (old new : gostring) (c : ascii) (s : gostring) :
  strings.replaceFrom old new 0 (c :: s)
  = if strings.HasPrefix (c :: s) old
    then new ++ strings.replaceFrom old new (length old - 1) s
    else c :: strings.replaceFrom old new 0 s.
Proof. reflexivity. Qed.

Lemma HasPrefix_bs_star (c : ascii) (s : gostring) :
  strings.HasPrefix (c :: s) (go "\*")
  = byte_eqb c "\"%char && strings.HasPrefix s (go "*").
Proof. reflexivity. Qed.

Lemma HasPrefix_star_cons (c : ascii) (s : gostring) :
  strings.HasPrefix (c :: s) (go "*") = byte_eqb c "*"%char.
Proof. cbn [strings.HasPrefix go list_ascii_of_string]. destruct s; apply andb_true_r. Qed.

Lemma replace_quoted (p : gostring) :
  strings.replaceFrom (go "\*") (go ".*") 0 (regexp.QuoteMeta p ++ go "$")
  = flat_map quoteByte p ++ go "$".
Proof.
  induction p as [|b p IH]; [reflexivity|].
  rewrite QuoteMeta_cons. cbn [flat_map]. unfold quoteByte at 1.
  rewrite <- !app_assoc.
  destruct (byte_eqb b "*"%char) eqn:Estar.
  - apply byte_eqb_eq in Estar. subst b. rewrite special_star.
    cbn [app]. rewrite replaceFrom_step, HasPrefix_bs_star, HasPrefix_star_cons.
    cbn [byte_eqb Ascii.eqb Bool.eqb andb go list_ascii_of_string length Nat.sub app].
    change (strings.replaceFrom ?o ?n 1 (?c :: ?s)) with (strings.replaceFrom o n 0 s).
    cbn [go list_ascii_of_string] in IH. rewrite IH. reflexivity.
  - destruct (regexp.special b) eqn:Esp; cbn [app].
    + rewrite replaceFrom_step, HasPrefix_bs_star, HasPrefix_star_cons, Estar, andb_false_r.
      rewrite replaceFrom_step, HasPrefix_bs_star, QuoteMeta_head_not_star, andb_false_r.
      rewrite IH. reflexivity.
    + rewrite replaceFrom_step, HasPrefix_bs_star.
      destruct (byte_eqb b "\"%char) eqn:Ebs.
      * apply byte_eqb_eq in Ebs. subst b. discriminate.
      * cbn [andb]. rewrite IH. reflexivity.
Qed.

Lemma regexPattern_bytes (p : gostring) :
  regexPattern p = go "^" ++ flat_map quoteByte p ++ go "$".
Proof.
  unfold regexPattern, strings.ReplaceAll.
  change (go "\*") with ("\"%char :: go "*").
  cbn [go list_ascii_of_string app]. rewrite replaceFrom_step.
  cbn [strings.HasPrefix byte_eqb Ascii.eqb Bool.eqb andb].
  f_equal. apply replace_quoted.
Qed.

Lemma regexPattern'_eq (p : gostring) : regexPattern' p = regexPattern p.
Proof. reflexivity. Qed.

(** ** UTF-8 decoding *)

Lemma first_spec (b : N) (sz : nat) (lo hi : N) :
  utf8.first b = Some (sz, lo, hi) ->
  (sz = 2 \/ sz = 3 \/ sz = 4) /\ (128 <= lo)%N /\ (hi <= 191)%N /\ (194 <= b)%N.
Proof.
  unfold utf8.first.
  repeat match goal with
         | |- context [if ?c then _ else _] => destruct c eqn:?
         end;
    intros H; inversion H; subst; clear H;
    repeat match goal with
           | H : (_ <? _)%N = false |- _ => apply N.ltb_ge in H
           end; repeat split; try lia; auto.
Qed.

Lemma inRange_ascii (lo hi b : N) :
  (128 <= lo)%N -> (b < 128)%N -> utf8.inRange lo hi b = false.
Proof.
  intros Hlo Hb. unfold utf8.inRange.
  destruct (lo <=? b)%N eqn:E; [apply N.leb_le in E; lia | reflexivity].
Qed.

Lemma inRange_high (lo hi b : N) :
  (128 <= lo)%N -> utf8.inRange lo hi b = true -> (128 <= b)%N.
Proof.
  unfold utf8.inRange. intros Hlo H. apply andb_prop in H. destruct H as [H _].
  apply N.leb_le in H. lia.
Qed.

Lemma isASCII_lt (c : ascii) : isASCII c = true -> (N_of_ascii c < 128)%N.
Proof. unfold isASCII. apply N.ltb_lt. Qed.

Lemma isASCII_ge (c : ascii) : isASCII c = false -> (128 <= N_of_ascii c)%N.
Proof. unfold isASCII. apply N.ltb_ge. Qed.

Lemma decode_ascii (c : ascii) (s : gostring) :
  isASCII c = true -> utf8.DecodeRuneInString (c :: s) = (N_of_ascii c, 1).
Proof. intros H. unfold utf8.DecodeRuneInString. unfold isASCII in H. rewrite H. reflexivity. Qed.

Lemma decode_look (c0 : ascii) (s : gostring) :
  isASCII c0 = false ->
  utf8.DecodeRuneInString (c0 :: s) = utf8.DecodeRuneInString (c0 :: look s).
Proof.
  intros H0. unfold utf8.DecodeRuneInString. unfold isASCII in H0. rewrite H0.
  destruct (utf8.first (N_of_ascii c0)) as [[[sz lo] hi]|] eqn:Ef; [|reflexivity].
  apply first_spec in Ef. destruct Ef as (Hsz & Hlo & Hhi & _).
  assert (Hcont : forall c, isASCII c = true -> utf8.isCont (N_of_ascii c) = false).
  { intros c Hc. apply inRange_ascii; [lia | apply isASCII_lt, Hc]. }
  assert (Hr : forall c, isASCII c = true -> utf8.inRange lo hi (N_of_ascii c) = false).
  { intros c Hc. apply inRange_ascii; [lia | apply isASCII_lt, Hc]. }
  destruct s as [|c1 [|c2 [|c3 s3]]]; cbn [look].
  - reflexivity.
  - destruct (isASCII c1) eqn:E1; [|reflexivity].
    rewrite (Hr _ E1). cbn [negb]. destruct Hsz as [-> | [-> | ->]]; reflexivity.
  - destruct (isASCII c1) eqn:E1.
    + rewrite (Hr _ E1). cbn [negb]. destruct Hsz as [-> | [-> | ->]]; reflexivity.
    + destruct (isASCII c2) eqn:E2; [|reflexivity].
      rewrite (Hcont _ E2). cbn [negb].
      destruct Hsz as [-> | [-> | ->]]; cbn; destruct (utf8.inRange lo hi (N_of_ascii c1)); reflexivity.
  - destruct (isASCII c1) eqn:E1.
    + rewrite (Hr _ E1). cbn [negb]. destruct Hsz as [-> | [-> | ->]]; reflexivity.
    + destruct (isASCII c2) eqn:E2.
      * rewrite (Hcont _ E2). cbn [negb].
        destruct Hsz as [-> | [-> | ->]]; cbn; destruct (utf8.inRange lo hi (N_of_ascii c1)); reflexivity.
      * destruct (isASCII c3) eqn:E3.
        -- rewrite (Hcont _ E3). cbn [negb].
           destruct Hsz as [-> | [-> | ->]]; cbn;
             destruct (utf8.inRange lo hi (N_of_ascii c1)); cbn;
             destruct (utf8.isCont (N_of_ascii c2)); reflexivity.
        -- destruct Hsz as [-> | [-> | ->]]; reflexivity.
Qed.

Ltac nlia := zify; Z.to_euclidean_division_equations; lia.

Lemma inRange_bounds (lo hi b : N) :
  utf8.inRange lo hi b = true -> (lo <= b <= hi)%N.
Proof.
  unfold utf8.inRange. intros H. apply andb_prop in H. destruct H as [H1 H2].
  apply N.leb_le in H1. apply N.leb_le in H2. lia.
Qed.

Lemma not_isASCII_of_ge (c : ascii) : (128 <= N_of_ascii c)%N -> isASCII c = false.
Proof. intros H. unfold isASCII. apply N.ltb_ge. exact H. Qed.

(** A rune that takes more than one byte is not ASCII, and neither are the
    bytes that encode it. *)
Lemma decode_high (c0 : ascii) (s : gostring) :
  isASCII c0 = false ->
  let d := utf8.DecodeRuneInString (c0 :: s) in
  highPrefix (snd d - 1) s = true /\ (128 <= fst d)%N /\ (1 <= snd d)%nat.
Proof.
  intros H0. unfold utf8.DecodeRuneInString. unfold isASCII in H0. rewrite H0.
  apply N.ltb_ge in H0.
  assert (Herr : highPrefix (snd (utf8.RuneError, 1) - 1) s = true
                 /\ (128 <= fst (utf8.RuneError, 1))%N /\ (1 <= snd (utf8.RuneError, 1))%nat).
  { cbn. repeat split; unfold utf8.RuneError; lia. }
  unfold utf8.first.
  repeat match goal with
         | |- context [if (?a <? ?b)%N then _ else _] =>
             let E := fresh "E" in destruct (a <? b)%N eqn:E;
             [apply N.ltb_lt in E | apply N.ltb_ge in E]
         | |- context [if (?a =? ?b)%N then _ else _] =>
             let E := fresh "E" in destruct (a =? b)%N eqn:E;
             [apply N.eqb_eq in E | apply N.eqb_neq in E]
         end; try exact Herr;
  (destruct (length (c0 :: s) <? _)%nat; [exact Herr|]);
  (destruct s as [|c1 s]; [exact Herr|]);
  (destruct (utf8.inRange _ _ (N_of_ascii c1)) eqn:R1; cbn [negb]; [|exact Herr]);
  apply inRange_bounds in R1;
  cbn [Nat.leb];
  try (cbn [fst snd Nat.sub highPrefix]; rewrite not_isASCII_of_ge by lia;
       (split; [reflexivity | split; [nlia | lia]]));
  (destruct s as [|c2 s]; [exact Herr|]);
  (destruct (utf8.isCont (N_of_ascii c2)) eqn:R2; cbn [negb]; [|exact Herr]);
  apply inRange_bounds in R2;
  try (cbn [fst snd Nat.sub highPrefix]; rewrite !not_isASCII_of_ge by lia;
       (split; [reflexivity | split; [nlia | lia]]));
  (destruct s as [|c3 s]; [exact Herr|]);
  (destruct (utf8.isCont (N_of_ascii c3)) eqn:R3; cbn [negb]; [|exact Herr]);
  apply inRange_bounds in R3;
  cbn [fst snd Nat.sub highPrefix]; rewrite !not_isASCII_of_ge by lia;
  (split; [reflexivity | split; [nlia | lia]]).
Qed.

Lemma quoteByte_high (c : ascii) : isASCII c = false -> quoteByte c = [c].
Proof.
  intros H. unfold quoteByte.
  destruct (byte_eqb c "*"%char) eqn:E.
  { apply byte_eqb_eq in E. subst c. discriminate. }
  destruct (regexp.special c) eqn:S; [|reflexivity].
  apply special_isASCII in S. congruence.
Qed.

Lemma quoteByte_ascii (c : ascii) :
  isASCII c = true -> forallb isASCII (quoteByte c) = true /\ quoteByte c <> [].
Proof.
  intros H. unfold quoteByte.
  destruct (byte_eqb c "*"%char); [split; [reflexivity | discriminate]|].
  destruct (regexp.special c); cbn [forallb]; rewrite H; split; try reflexivity; discriminate.
Qed.

Lemma look_ascii_app (l s : gostring) :
  forallb isASCII l = true -> l <> [] -> look (l ++ s) = [].
Proof.
  destruct l as [|a l]; [congruence|]. cbn [forallb app look].
  intros H _. apply andb_prop in H. destruct H as [H _]. rewrite H. reflexivity.
Qed.

Lemma look_quote (p tail : gostring) :
  look tail = [] -> look (flat_map quoteByte p ++ tail) = look p.
Proof.
  intros Ht.
  assert (A : forall c q, isASCII c = true -> look (flat_map quoteByte (c :: q) ++ tail) = []).
  { intros c q Hc. cbn [flat_map]. rewrite <- app_assoc.
    destruct (quoteByte_ascii c Hc). apply look_ascii_app; assumption. }
  destruct p as [|c1 p]; [exact Ht|].
  destruct (isASCII c1) eqn:E1.
  { rewrite A by assumption. cbn [look]. rewrite E1. reflexivity. }
  cbn [flat_map]. rewrite (quoteByte_high _ E1). cbn [app look]. rewrite E1. f_equal.
  destruct p as [|c2 p]; [cbn [flat_map app]; destruct tail as [|t0 tail]; [reflexivity|] |].
  { cbn [look] in Ht. cbn beta iota. destruct (isASCII t0); [reflexivity | discriminate Ht]. }
  destruct (isASCII c2) eqn:E2.
  { pose proof (A c2 p E2) as H. cbn [look] in H. revert H.
    destruct (flat_map quoteByte (c2 :: p) ++ tail) as [|x xs]; [reflexivity|].
    cbn [look]. destruct (isASCII x); [intros _; reflexivity | discriminate]. }
  cbn [flat_map]. rewrite (quoteByte_high _ E2). cbn [app]. rewrite E2. f_equal.
  destruct p as [|c3 p]; [cbn [flat_map app]; destruct tail as [|t0 tail]; [reflexivity|] |].
  { cbn [look] in Ht. cbn beta iota. destruct (isASCII t0); [reflexivity | discriminate Ht]. }
  destruct (isASCII c3) eqn:E3.
  { pose proof (A c3 p E3) as H. cbn [look] in H. revert H.
    destruct (flat_map quoteByte (c3 :: p) ++ tail) as [|x xs]; [reflexivity|].
    cbn [look]. destruct (isASCII x); [intros _; reflexivity | discriminate]. }
  cbn [flat_map]. rewrite (quoteByte_high _ E3). cbn [app]. rewrite E3. reflexivity.
Qed.

Lemma decodeFrom_step (c : ascii) (s : gostring) :
  utf8.decodeFrom 0 (c :: s)
  = utf8.DecodeRuneInString (c :: s)
    :: utf8.decodeFrom (snd (utf8.DecodeRuneInString (c :: s)) - 1) s.
Proof. reflexivity. Qed.

Lemma decodeFrom_ascii_app (l s : gostring) :
  forallb isASCII l = true ->
  utf8.decodeFrom 0 (l ++ s)
  = map (fun b => (N_of_ascii b, 1)) l ++ utf8.decodeFrom 0 s.
Proof.
  induction l as [|a l IH]; [reflexivity|].
  cbn [forallb]. intros H. apply andb_prop in H. destruct H as [Ha Hl].
  cbn [app map]. rewrite decodeFrom_step, (decode_ascii _ _ Ha). cbn [snd Nat.sub].
  rewrite (IH Hl). reflexivity.
Qed.

Lemma decodeFrom_quote (p : gostring) :
  forall (k : nat) (tail : gostring),
    look tail = [] -> highPrefix k p = true ->
    utf8.decodeFrom k (flat_map quoteByte p ++ tail)
    = flat_map quoteDec (utf8.decodeFrom k p) ++ utf8.decodeFrom 0 tail.
Proof.
  induction p as [|c p IH]; intros k tail Ht Hk.
  - destruct k; [|discriminate]. reflexivity.
  - destruct k as [|k].
    + destruct (isASCII c) eqn:Ec.
      * cbn [flat_map]. rewrite <- app_assoc.
        destruct (quoteByte_ascii c Ec) as [Hq _].
        rewrite (decodeFrom_ascii_app _ _ Hq), decodeFrom_step, (decode_ascii _ _ Ec).
        cbn [snd Nat.sub flat_map]. rewrite (IH 0 tail Ht eq_refl).
        unfold quoteDec at 2. cbn [fst].
        apply isASCII_lt in Ec. apply N.ltb_lt in Ec. rewrite Ec.
        rewrite ascii_N_embedding. rewrite <- app_assoc. reflexivity.
      * cbn [flat_map]. rewrite (quoteByte_high _ Ec). cbn [app].
        rewrite !decodeFrom_step.
        rewrite (decode_look _ (flat_map quoteByte p ++ tail) Ec), (look_quote _ _ Ht).
        rewrite <- (decode_look _ p Ec).
        destruct (decode_high c p Ec) as (Hh & Hf & _).
        rewrite (IH _ tail Ht Hh). cbn [flat_map].
        unfold quoteDec at 2. apply N.ltb_ge in Hf. rewrite Hf. reflexivity.
    + cbn [highPrefix] in Hk. apply andb_prop in Hk. destruct Hk as [Hc Hk].
      apply negb_true_iff in Hc.
      cbn [flat_map]. rewrite (quoteByte_high _ Hc). cbn [app utf8.decodeFrom].
      apply IH; assumption.
Qed.

Lemma decodeFrom_regexPattern (p : gostring) :
  utf8.decodeFrom 0 (regexPattern p)
  = (94%N, 1) :: flat_map quoteDec (utf8.decodeFrom 0 p) ++ [(36%N, 1)].
Proof.
  rewrite regexPattern_bytes.
  change (go "^") with ["^"%char]. cbn [app].
  rewrite decodeFrom_step, decode_ascii by reflexivity. cbn [snd Nat.sub].
  rewrite decodeFrom_quote by reflexivity. reflexivity.
Qed.

(** Quoting neither repairs nor breaks the encoding. *)
Lemma ValidString_regexPattern (p : gostring) :
  utf8.ValidString (regexPattern p) = utf8.ValidString p.
Proof.
  unfold utf8.ValidString. rewrite decodeFrom_regexPattern.
  cbn [forallb]. rewrite forallb_app. cbn. rewrite andb_true_r.
  induction (utf8.decodeFrom 0 p) as [|d l IH]; [reflexivity|].
  cbn [flat_map forallb]. rewrite forallb_app, IH. f_equal.
  unfold quoteDec. destruct (fst d <? 128)%N eqn:E.
  - apply N.ltb_lt in E.
    assert (Hd : utf8.isError d = false).
    { unfold utf8.isError. destruct (fst d =? utf8.RuneError)%N eqn:F; [|reflexivity].
      apply N.eqb_eq in F. unfold utf8.RuneError in F. lia. }
    rewrite Hd. cbn [negb].
    apply forallb_forall. intros x Hx. apply in_map_iff in Hx.
    destruct Hx as (b & <- & Hb).
    assert (Hasc : forallb isASCII (quoteByte (ascii_of_N (fst d))) = true).
    { apply quoteByte_ascii. unfold isASCII. rewrite N_ascii_embedding by lia.
      apply N.ltb_lt. exact E. }
    rewrite forallb_forall in Hasc. specialize (Hasc b Hb). apply isASCII_lt in Hasc.
    unfold utf8.isError. cbn [fst snd].
    destruct (N_of_ascii b =? utf8.RuneError)%N eqn:F; [|reflexivity].
    apply N.eqb_eq in F. unfold utf8.RuneError in F. lia.
  - cbn [forallb]. apply andb_true_r.
Qed.

Lemma runes_regexPattern (p : gostring) :
  utf8.runes (regexPattern p) = 94%N :: flat_map quoteRune (utf8.runes p) ++ [36%N].
Proof.
  unfold utf8.runes. rewrite decodeFrom_regexPattern.
  cbn [map fst]. f_equal. rewrite map_app. cbn [map fst]. f_equal.
  induction (utf8.decodeFrom 0 p) as [|d l IH]; [reflexivity|].
  cbn [flat_map map]. rewrite map_app, IH. f_equal.
  unfold quoteDec, quoteRune. destruct (fst d <? 128)%N; [|reflexivity].
  rewrite map_map. reflexivity.
Qed.

Lemma lex_step_plain (r : utf8.rune) (rest : list utf8.rune) :
  (r =? 92)%N = false -> (r =? 46)%N = false -> (r =? 42)%N = false ->
  (r =? 94)%N = false -> (r =? 36)%N = false -> regexp.unsupportedOp r = false ->
  regexp.lex (r :: rest) = option_map (cons (regexp.TAtom (regexp.Lit r))) (regexp.lex rest).
Proof. intros H1 H2 H3 H4 H5 H6. cbn [regexp.lex]. rewrite H1, H2, H3, H4, H5, H6. reflexivity. Qed.

Lemma lex_step_escape (c : utf8.rune) (rest : list utf8.rune) :
  regexp.isPunct c = true ->
  regexp.lex (92%N :: c :: rest)
  = option_map (cons (regexp.TAtom (regexp.Lit c))) (regexp.lex rest).
Proof. intros H. cbn [regexp.lex N.eqb Pos.eqb]. rewrite H. reflexivity. Qed.

Lemma special_runes (r : utf8.rune) :
  (r < 128)%N ->
  regexp.special (ascii_of_N r)
  = existsb (N.eqb r) [92; 46; 43; 42; 63; 40; 41; 124; 91; 93; 123; 125; 94; 36]%N.
Proof.
  intros Hr. unfold regexp.special, regexp.specialBytes.
  cbn [go list_ascii_of_string existsb].
  assert (E : forall k, (k < 128)%N ->
                        byte_eqb (ascii_of_N r) (ascii_of_N k) = (r =? k)%N).
  { intros k Hk. destruct (r =? k)%N eqn:F.
    - apply N.eqb_eq in F. subst. apply byte_eqb_refl.
    - apply byte_eqb_neq. intros G. apply N.eqb_neq in F. apply F.
      rewrite <- (N_ascii_embedding r), <- (N_ascii_embedding k) by lia.
      rewrite G. reflexivity. }
  rewrite <- !E by lia. reflexivity.
Qed.

Lemma lex_quoteRune (r : utf8.rune) (rest : list utf8.rune) :
  regexp.lex (quoteRune r ++ rest)
  = option_map (app (tokensOf r)) (regexp.lex rest).
Proof.
  assert (Hid : forall x : option (list regexp.token), forall t,
             option_map (cons t) x = option_map (app [t]) x) by reflexivity.
  unfold quoteRune, tokensOf. destruct (r <? 128)%N eqn:Hr.
  - apply N.ltb_lt in Hr. unfold quoteByte.
    assert (Hstar : byte_eqb (ascii_of_N r) "*"%char = (r =? 42)%N).
    { destruct (r =? 42)%N eqn:F.
      - apply N.eqb_eq in F. subst. reflexivity.
      - apply byte_eqb_neq. intros G. apply N.eqb_neq in F. apply F.
        rewrite <- (N_ascii_embedding r) by lia. rewrite G. reflexivity. }
    rewrite Hstar. destruct (r =? 42)%N eqn:Estar.
    + cbn. destruct (regexp.lex rest); reflexivity.
    + rewrite (special_runes r Hr).
      destruct (existsb (N.eqb r) _) eqn:Esp.
      * cbn [map app]. rewrite N_ascii_embedding by lia.
        rewrite lex_step_escape; [reflexivity|].
        unfold regexp.isPunct. apply N.ltb_lt in Hr. rewrite Hr. cbn [andb].
        cbn [existsb] in Esp. rewrite Estar in Esp. cbn [orb] in Esp.
        repeat match type of Esp with
               | ((r =? ?k)%N || _) = true =>
                   let E := fresh "E" in
                   destruct (r =? k)%N eqn:E;
                   [apply N.eqb_eq in E; subst r; reflexivity | cbn [orb] in Esp]
               end.
        discriminate.
      * cbn [map app]. rewrite N_ascii_embedding by lia.
        cbn [existsb] in Esp. rewrite Estar in Esp. cbn [orb] in Esp.
        repeat match type of Esp with
               | ((r =? ?k)%N || ?rest) = false =>
                   let E := fresh "E" in
                   destruct (r =? k)%N eqn:E; [discriminate Esp | cbn [orb] in Esp]
               end.
        apply lex_step_plain; try assumption.
        unfold regexp.unsupportedOp. cbn [existsb].
        repeat match goal with H : (r =? _)%N = false |- _ => rewrite H; clear H end.
        reflexivity.
  - cbn [app]. apply N.ltb_ge in Hr.
    destruct (r =? 42)%N eqn:Estar; [apply N.eqb_eq in Estar; lia|].
    apply lex_step_plain; try (apply N.eqb_neq; lia).
    unfold regexp.unsupportedOp. cbn [existsb].
    repeat match goal with
           | |- context [(r =? ?k)%N] =>
               let E := fresh "E" in
               destruct (r =? k)%N eqn:E; [apply N.eqb_eq in E; lia | clear E]
           end.
    reflexivity.
Qed.

Lemma lex_quoted (rs rest : list utf8.rune) :
  regexp.lex (flat_map quoteRune rs ++ rest)
  = option_map (app (flat_map tokensOf rs)) (regexp.lex rest).
Proof.
  induction rs as [|r rs IH]; cbn [flat_map app].
  - destruct (regexp.lex rest); reflexivity.
  - rewrite <- app_assoc, lex_quoteRune, IH.
    destruct (regexp.lex rest); cbn [option_map]; [rewrite app_assoc|]; reflexivity.
Qed.

Lemma assemble_quoted (rs : list utf8.rune) :
  regexp.assemble (flat_map tokensOf rs ++ [regexp.TEnd])
  = Some (map instOf rs ++ [regexp.EndText]).
Proof.
  induction rs as [|r rs IH]; [reflexivity|].
  cbn [flat_map map]. unfold tokensOf at 1, instOf at 1.
  destruct (r =? 42)%N.
  - cbn [app regexp.assemble]. rewrite IH. reflexivity.
  - cbn [app]. 
    assert (H : regexp.assemble (regexp.TAtom (regexp.Lit r) :: flat_map tokensOf rs ++ [regexp.TEnd])
                = option_map (cons (regexp.One (regexp.Lit r)))
                    (regexp.assemble (flat_map tokensOf rs ++ [regexp.TEnd]))).
    { destruct rs as [|r' rs']; [reflexivity|].
      cbn [flat_map]. unfold tokensOf at 1 3. destruct (r' =? 42)%N; reflexivity. }
    rewrite H, IH. reflexivity.
Qed.

Lemma Compile_regexPattern (p : gostring) :
  regexp.Compile (regexPattern p)
  = if utf8.ValidString p
    then Some (regexp.BeginText :: map instOf (utf8.runes p) ++ [regexp.EndText])
    else None.
Proof.
  unfold regexp.Compile. rewrite ValidString_regexPattern.
  destruct (utf8.ValidString p); [|reflexivity].
  rewrite runes_regexPattern.
  change (94%N :: ?l) with ([94%N] ++ l).
  cbn [app regexp.lex N.eqb Pos.eqb].
  rewrite lex_quoted. cbn [regexp.lex N.eqb Pos.eqb option_map].
  cbn [regexp.assemble]. change (flat_map tokensOf (utf8.runes p) ++ [regexp.TEnd])
    with (flat_map tokensOf (utf8.runes p) ++ [regexp.TEnd]).
  rewrite assemble_quoted. reflexivity.
Qed.

Lemma glob_star_unfold (pat text : list utf8.rune) :
  glob (42%N :: pat) text
  = glob pat text
    || match text with
       | r :: text' => negb (r =? 10)%N && glob (42%N :: pat) text'
       | [] => false
       end.
Proof. destruct text; reflexivity. Qed.

Lemma matchHere_star_unfold (a : regexp.atom) (re : regexp.prog) (b : bool)
      (text : list utf8.rune) :
  regexp.matchHere (regexp.Star a :: re) b text
  = regexp.matchHere re b text
    || match text with
       | r :: text' => regexp.accepts a r && regexp.matchHere (regexp.Star a :: re) false text'
       | [] => false
       end.
Proof. destruct text; reflexivity. Qed.

Lemma matchHere_quoted (rs : list utf8.rune) :
  forall (b : bool) (text : list utf8.rune),
    regexp.matchHere (map instOf rs ++ [regexp.EndText]) b text = glob rs text.
Proof.
  induction rs as [|r rs IH]; intros b text.
  - destruct text; reflexivity.
  - cbn [map app]. unfold instOf at 1. destruct (r =? 42)%N eqn:E.
    + apply N.eqb_eq in E. subst r. revert b.
      induction text as [|x text IHt]; intros b;
        rewrite matchHere_star_unfold, glob_star_unfold, IH; [reflexivity|].
      rewrite IHt. reflexivity.
    + cbn [regexp.matchHere glob]. rewrite E.
      destruct text as [|x text]; [reflexivity|].
      rewrite IH. reflexivity.
Qed.

Lemma matchAnywhere_begin_false (re : regexp.prog) (text : list utf8.rune) :
  regexp.matchAnywhere (regexp.BeginText :: re) false text = false.
Proof. induction text as [|x text IH]; [reflexivity|]. cbn. exact IH. Qed.

Lemma Match_quoted (rs text : list utf8.rune) :
  regexp.matchAnywhere (regexp.BeginText :: map instOf rs ++ [regexp.EndText]) true text
  = glob rs text.
Proof.
  destruct text as [|x text]; cbn [regexp.matchAnywhere].
  - rewrite orb_false_r. cbn [regexp.matchHere andb]. apply matchHere_quoted.
  - rewrite matchAnywhere_begin_false, orb_false_r.
    cbn [regexp.matchHere andb]. apply matchHere_quoted.
Qed.

(** The expression built from a term [p] is refused exactly when [p] is
    not valid UTF-8, and otherwise matches a text exactly when the term,
    read as a wildcard pattern, covers the whole text. *)
Theorem MatchString_regexPattern (p c : gostring) :
  regexp.MatchString (regexPattern p) c
  = if utf8.ValidString p then Some (glob (utf8.runes p) (utf8.runes c)) else None.
Proof.
  unfold regexp.MatchString. rewrite Compile_regexPattern.
  destruct (utf8.ValidString p); [|reflexivity].
  unfold regexp.Match. rewrite Match_quoted. reflexivity.
Qed.

Lemma glob_globs (pat text : list utf8.rune) :
  glob pat text = true <-> globs pat text.
Proof.
  split.
  - revert text. induction pat as [|c pat IH]; intros text H.
    + destruct text; [constructor | discriminate].
    + destruct (N.eq_dec c 42) as [->|Hc].
      * induction text as [|r text IHt]; rewrite glob_star_unfold in H;
          apply orb_prop in H; destruct H as [H|H].
        -- apply globs_skip, IH, H.
        -- discriminate.
        -- apply globs_skip, IH, H.
        -- apply andb_prop in H. destruct H as [Hr H].
           apply globs_more; [|apply IHt, H].
           apply negb_true_iff, N.eqb_neq in Hr. exact Hr.
      * cbn [glob] in H. apply N.eqb_neq in Hc. rewrite Hc in H.
        destruct text as [|r text]; [discriminate|].
        apply andb_prop in H. destruct H as [Hr H]. apply N.eqb_eq in Hr. subst r.
        apply globs_lit; [apply N.eqb_neq, Hc | apply IH, H].
  - induction 1 as [|c pat text Hc _ IH|pat text _ IH|r pat text Hr _ IH].
    + reflexivity.
    + cbn [glob]. apply N.eqb_neq in Hc. rewrite Hc, N.eqb_refl. exact IH.
    + rewrite glob_star_unfold, IH. reflexivity.
    + rewrite glob_star_unfold, IH. apply N.eqb_neq in Hr. rewrite Hr.
      apply orb_true_r.
Qed.

(** Every pattern matches itself: a star of the text is a run of one
    rune for the star of the pattern. *)
Lemma globs_refl (rs : list utf8.rune) : globs rs rs.
Proof.
  induction rs as [|r rs IH]; [constructor|].
  destruct (N.eq_dec r 42) as [->|Hr].
  - apply globs_more; [discriminate|]. apply globs_skip, IH.
  - apply globs_lit; assumption.
Qed.

(** A text matched by a pattern that is itself matched, as a text, by a
    wider pattern is matched by the wider pattern. *)
Lemma globs_trans (a b : list utf8.rune) :
  globs a b -> forall c, globs b c -> globs a c.
Proof.
  induction 1 as [|x a b Hx _ IH|a b _ IH|r a b Hr Hab IH]; intros c Hbc.
  - exact Hbc.
  - inversion Hbc; subst; try congruence.
    apply globs_lit; [assumption | apply IH; assumption].
  - apply globs_skip, IH, Hbc.
  - destruct (N.eq_dec r 42) as [->|Hr42].
    + remember (42%N :: b) as sb eqn:Esb.
      induction Hbc as [|y pb tc Hy Hpc _|pb tc Hpc _|y pb tc Hy Hpc IHc];
        inversion Esb; subst.
      * congruence.
      * apply IH, Hpc.
      * apply globs_more; [assumption | apply IHc; reflexivity].
    + inversion Hbc; subst; try congruence.
      apply globs_more; [assumption | apply IH; assumption].
Qed.

Lemma globs_app (p1 t1 p2 t2 : list utf8.rune) :
  globs p1 t1 -> globs p2 t2 -> globs (p1 ++ p2) (t1 ++ t2).
Proof.
  intros H1 H2. induction H1; cbn [app].
  - exact H2.
  - apply globs_lit; assumption.
  - apply globs_skip; assumption.
  - apply globs_more; assumption.
Qed.

(** The star alone matches every run of runes other than newline. *)
Lemma globs_star (text : list utf8.rune) :
  Forall (fun r => r <> 10%N) text -> globs [42%N] text.
Proof.
  induction 1 as [|r text Hr _ IH].
  - apply globs_skip. constructor.
  - apply globs_more; assumption.
Qed.

(** ... and nothing else. *)
Lemma globs_star_inv (text : list utf8.rune) :
  globs [42%N] text -> Forall (fun r => r <> 10%N) text.
Proof.
  intros H. remember [42%N] as p eqn:Ep.
  induction H as [|c pat text Hc _ _|pat text Hpt _|r pat text Hr _ IH];
    inversion Ep; subst.
  - congruence.
  - inversion Hpt. constructor.
  - constructor; [assumption | apply IH; reflexivity].
Qed.

Lemma HasPrefix_nil (s : gostring) : strings.HasPrefix s [] = true.
Proof. destruct s; reflexivity. Qed.

Lemma stripSpaces_filter (s : gostring) :
  stripSpaces s = filter (fun c => negb (byte_eqb c " "%char)) s.
Proof.
  unfold stripSpaces, strings.ReplaceAll. cbn [go list_ascii_of_string].
  induction s as [|c s IH]; [reflexivity|].
  rewrite replaceFrom_step. cbn [strings.HasPrefix length Nat.sub app filter].
  rewrite HasPrefix_nil, andb_true_r.
  destruct (byte_eqb c " "%char); cbn [negb]; rewrite IH; reflexivity.
Qed.

Lemma stripSpaces_app (a b : gostring) :
  stripSpaces (a ++ b) = stripSpaces a ++ stripSpaces b.
Proof. rewrite !stripSpaces_filter. apply filter_app. Qed.

Lemma stripSpaces_idem (s : gostring) : stripSpaces (stripSpaces s) = stripSpaces s.
Proof.
  rewrite !stripSpaces_filter. induction s as [|c s IH]; [reflexivity|].
  cbn [filter]. destruct (byte_eqb c " "%char) eqn:E; cbn [negb filter]; [exact IH|].
  rewrite E. cbn [negb]. f_equal. exact IH.
Qed.

Lemma Split_nonempty (s : gostring) (sep : ascii) : strings.Split s sep <> [].
Proof.
  destruct s as [|c s]; [discriminate|]. cbn [strings.Split].
  destruct (byte_eqb c sep); [discriminate|].
  destruct (strings.Split s sep); discriminate.
Qed.

Lemma Split_cons (c : ascii) (s : gostring) (sep : ascii) :
  byte_eqb c sep = false ->
  exists field fields,
    strings.Split s sep = field :: fields
    /\ strings.Split (c :: s) sep = (c :: field) :: fields.
Proof.
  intros H. cbn [strings.Split]. rewrite H.
  destruct (strings.Split s sep) as [|field fields] eqn:E.
  - exfalso. exact (Split_nonempty _ _ E).
  - exists field, fields. split; reflexivity.
Qed.

(** A string without the separator is a single field. *)
Lemma Split_none (s : gostring) (sep : ascii) :
  existsb (fun c => byte_eqb c sep) s = false -> strings.Split s sep = [s].
Proof.
  induction s as [|c s IH]; [reflexivity|].
  cbn [existsb]. intros H. apply orb_false_elim in H. destruct H as [Hc Hs].
  cbn [strings.Split]. rewrite Hc, (IH Hs). reflexivity.
Qed.

(** Splitting two lists joined by the separator. *)
Lemma Split_join (a b : gostring) (sep : ascii) :
  strings.Split (a ++ sep :: b) sep = strings.Split a sep ++ strings.Split b sep.
Proof.
  induction a as [|c a IH].
  - cbn [app strings.Split]. rewrite byte_eqb_refl. reflexivity.
  - cbn [app strings.Split]. destruct (byte_eqb c sep); [rewrite IH; reflexivity|].
    rewrite IH. destruct (strings.Split a sep) as [|f fs] eqn:E; [|reflexivity].
    exfalso. exact (Split_nonempty _ _ E).
Qed.

(** ** Decoding a concatenation *)

Lemma decode_app (c : ascii) (s v : gostring) :
  utf8.isError (utf8.DecodeRuneInString (c :: s)) = false ->
  utf8.DecodeRuneInString (c :: s ++ v) = utf8.DecodeRuneInString (c :: s).
Proof.
  destruct (isASCII c) eqn:Ec.
  { intros _. rewrite !decode_ascii by assumption. reflexivity. }
  unfold utf8.DecodeRuneInString. unfold isASCII in Ec. rewrite Ec.
  destruct (utf8.first (N_of_ascii c)) as [[[sz lo] hi]|] eqn:Ef; [|reflexivity].
  apply first_spec in Ef. destruct Ef as (Hsz & _).
  assert (Herr : utf8.isError (utf8.RuneError, 1) = true) by reflexivity.
  destruct s as [|c1 [|c2 [|c3 s]]]; cbn [app];
    destruct Hsz as [-> | [-> | ->]]; cbn [length Nat.ltb Nat.leb Nat.leb];
    try (rewrite Herr; discriminate);
    try (intros _; destruct v as [|? [|? [|? ?]]]; reflexivity);
    destruct (utf8.inRange lo hi (N_of_ascii c1)); cbn [negb];
    try (rewrite Herr; discriminate); try reflexivity;
    try (intros _; destruct v as [|? [|? [|? ?]]]; reflexivity);
    destruct (utf8.isCont (N_of_ascii c2)); cbn [negb];
    try (rewrite Herr; discriminate); try reflexivity;
    try (intros _; destruct v as [|? [|? [|? ?]]]; reflexivity).
Qed.

Lemma decode_ascii_or_high (c : ascii) (s : gostring) :
  let d := utf8.DecodeRuneInString (c :: s) in
  highPrefix (snd d - 1) s = true
  /\ (if isASCII c then d = (N_of_ascii c, 1) else (128 <= fst d)%N).
Proof.
  destruct (isASCII c) eqn:Ec.
  - rewrite (decode_ascii _ _ Ec). split; reflexivity.
  - destruct (decode_high c s Ec) as (H1 & H2 & _). split; assumption.
Qed.

Lemma decodeFrom_app (u : gostring) :
  forall (k : nat) (v : gostring),
    highPrefix k u = true ->
    forallb (fun d => negb (utf8.isError d)) (utf8.decodeFrom k u) = true ->
    utf8.decodeFrom k (u ++ v) = utf8.decodeFrom k u ++ utf8.decodeFrom 0 v.
Proof.
  induction u as [|c u IH]; intros k v Hk Hv.
  - destruct k; [reflexivity | discriminate].
  - destruct k as [|k].
    + cbn [app]. rewrite !decodeFrom_step in *. cbn [forallb] in Hv.
      apply andb_prop in Hv. destruct Hv as [Hd Hv]. apply negb_true_iff in Hd.
      rewrite (decode_app c u v Hd). cbn [app]. f_equal.
      apply IH; [|exact Hv]. apply decode_ascii_or_high.
    + cbn [highPrefix] in Hk. apply andb_prop in Hk. destruct Hk as [_ Hk].
      cbn [app utf8.decodeFrom] in *. apply IH; assumption.
Qed.

Lemma runes_app (u v : gostring) :
  utf8.ValidString u = true -> utf8.runes (u ++ v) = utf8.runes u ++ utf8.runes v.
Proof.
  intros H. unfold utf8.runes. rewrite decodeFrom_app by (reflexivity || exact H).
  apply map_app.
Qed.

Lemma ValidString_app (u v : gostring) :
  utf8.ValidString u = true -> utf8.ValidString (u ++ v) = utf8.ValidString v.
Proof.
  intros H. unfold utf8.ValidString. rewrite decodeFrom_app by (reflexivity || exact H).
  rewrite forallb_app. unfold utf8.ValidString in H. rewrite H. reflexivity.
Qed.

(** A newline rune comes from a newline byte only. *)
Lemma decodeFrom_no_newline (s : gostring) :
  existsb (fun c => byte_eqb c "010"%char) s = false ->
  forall k, Forall (fun d => fst d <> 10%N) (utf8.decodeFrom k s).
Proof.
  induction s as [|c s IH]; intros H k; [constructor|].
  cbn [existsb] in H. apply orb_false_elim in H. destruct H as [Hc Hs].
  destruct k as [|k]; [|apply IH; assumption].
  rewrite decodeFrom_step. constructor; [|apply IH; assumption].
  pose proof (decode_ascii_or_high c s) as [_ Hd]. cbv zeta in Hd.
  destruct (isASCII c).
  - rewrite Hd. cbn [fst]. intros E. apply byte_eqb_neq in Hc. apply Hc.
    rewrite <- (ascii_N_embedding c), E. reflexivity.
  - intros E. unfold utf8.rune in *. rewrite E in Hd. lia.
Qed.

Lemma runes_no_newline (s : gostring) :
  existsb (fun c => byte_eqb c "010"%char) s = false ->
  Forall (fun r => r <> 10%N) (utf8.runes s).
Proof.
  intros H. unfold utf8.runes. apply Forall_map.
  exact (decodeFrom_no_newline s H 0).
Qed.

(** The bytes of a rune after the first are continuation bytes. *)
Lemma decode_cont (c0 : ascii) (s : gostring) :
  contPrefix (snd (utf8.DecodeRuneInString (c0 :: s)) - 1) s = true.
Proof.
  unfold utf8.DecodeRuneInString.
  destruct (N_of_ascii c0 <? 128)%N; [reflexivity|].
  destruct (utf8.first (N_of_ascii c0)) as [[[sz lo] hi]|] eqn:Ef; [|reflexivity].
  apply first_spec in Ef. destruct Ef as (_ & Hlo & Hhi & _).
  destruct (length (c0 :: s) <? sz)%nat; [reflexivity|].
  destruct s as [|c1 s]; [reflexivity|].
  destruct (utf8.inRange lo hi (N_of_ascii c1)) eqn:R1; cbn [negb]; [|reflexivity].
  assert (C1 : utf8.isCont (N_of_ascii c1) = true).
  { apply inRange_bounds in R1. unfold utf8.isCont, utf8.inRange.
    apply andb_true_intro. split; apply N.leb_le; lia. }
  destruct (sz <=? 2)%nat.
  { cbn [snd Nat.sub contPrefix]. rewrite C1. reflexivity. }
  destruct s as [|c2 s]; [reflexivity|].
  destruct (utf8.isCont (N_of_ascii c2)) eqn:R2; cbn [negb]; [|reflexivity].
  destruct (sz <=? 3)%nat.
  { cbn [snd Nat.sub contPrefix]. rewrite C1, R2. reflexivity. }
  destruct s as [|c3 s]; [reflexivity|].
  destruct (utf8.isCont (N_of_ascii c3)) eqn:R3; cbn [negb]; [|reflexivity].
  cbn [snd Nat.sub contPrefix]. rewrite C1, R2, R3. reflexivity.
Qed.

(** A valid string begins with the first byte of a rune. *)
Lemma ValidString_startsRune (v : gostring) :
  utf8.ValidString v = true -> startsRune v = true.
Proof.
  destruct v as [|c s]; [reflexivity|]. unfold utf8.ValidString.
  rewrite decodeFrom_step. cbn [forallb startsRune]. intros H.
  apply andb_prop in H. destruct H as [H _].
  destruct (utf8.isCont (N_of_ascii c)) eqn:C; [|reflexivity]. exfalso.
  apply inRange_bounds in C.
  assert (E : utf8.DecodeRuneInString (c :: s) = (utf8.RuneError, 1)).
  { unfold utf8.DecodeRuneInString.
    replace (N_of_ascii c <? 128)%N with false by (symmetry; apply N.ltb_ge; lia).
    unfold utf8.first.
    replace (N_of_ascii c <? 194)%N with true by (symmetry; apply N.ltb_lt; lia).
    reflexivity. }
  rewrite E in H. discriminate.
Qed.

(** Decoding does not run across the beginning of a rune: whatever the
    bytes of [u] are, the runes of [u ++ v] end with those of [v]. *)
Lemma decodeFrom_through (u : gostring) :
  forall (k : nat) (v : gostring),
    startsRune v = true ->
    contPrefix k (u ++ v) = true ->
    exists ds,
      utf8.decodeFrom k (u ++ v) = ds ++ utf8.decodeFrom 0 v
      /\ (existsb (fun c => byte_eqb c "010"%char) u = false ->
          Forall (fun d => fst d <> 10%N) ds).
Proof.
  induction u as [|c u IH]; intros k v Hv Hk.
  - exists []. split; [|constructor]. cbn [app] in *.
    destruct k as [|k]; [reflexivity|].
    destruct v as [|b v]; [discriminate|].
    cbn [contPrefix startsRune] in *. apply andb_prop in Hk. destruct Hk as [Hb _].
    rewrite Hb in Hv. discriminate.
  - destruct k as [|k].
    + cbn [app]. rewrite decodeFrom_step.
      destruct (IH (snd (utf8.DecodeRuneInString (c :: u ++ v)) - 1) v Hv
                   (decode_cont c (u ++ v))) as (ds & E & Hn).
      exists (utf8.DecodeRuneInString (c :: u ++ v) :: ds). split.
      * rewrite E. reflexivity.
      * cbn [existsb]. intros H. apply orb_false_elim in H. destruct H as [Hc Hu].
        constructor; [|apply Hn, Hu].
        pose proof (decode_ascii_or_high c (u ++ v)) as [_ Hd]. cbv zeta in Hd.
        destruct (isASCII c).
        -- rewrite Hd. cbn [fst]. intros E'. apply byte_eqb_neq in Hc. apply Hc.
           rewrite <- (ascii_N_embedding c), E'. reflexivity.
        -- intros E'. unfold utf8.rune in *. rewrite E' in Hd. lia.
    + cbn [app contPrefix] in Hk. apply andb_prop in Hk. destruct Hk as [_ Hk].
      destruct (IH k v Hv Hk) as (ds & E & Hn).
      exists ds. split; [exact E|].
      cbn [existsb]. intros H. apply orb_false_elim in H. destruct H as [_ Hu].
      apply Hn, Hu.
Qed.

Lemma runes_through (u v : gostring) :
  utf8.ValidString v = true ->
  existsb (fun c => byte_eqb c "010"%char) u = false ->
  exists rs,
    utf8.runes (u ++ v) = rs ++ utf8.runes v /\ Forall (fun r => r <> 10%N) rs.
Proof.
  intros Hv Hn.
  destruct (decodeFrom_through u 0 v (ValidString_startsRune v Hv) eq_refl)
    as (ds & E & Hd).
  exists (map fst ds). split.
  - unfold utf8.runes. rewrite E, map_app. reflexivity.
  - apply Forall_map. exact (Hd Hn).
Qed.

Lemma noNewline_stripSpaces (s : gostring) :
  noNewline s = true ->
  existsb (fun c => byte_eqb c "010"%char) (stripSpaces s) = false.
Proof.
  unfold noNewline. intros Hn. apply negb_true_iff in Hn.
  rewrite stripSpaces_filter.
  induction s as [|c s IH]; [reflexivity|].
  cbn [existsb] in Hn. apply orb_false_elim in Hn. destruct Hn as [Hc Hn].
  cbn [filter]. destruct (negb (byte_eqb c " "%char)); [|apply IH, Hn].
  cbn [existsb]. rewrite Hc. apply IH, Hn.
Qed.

(** ** [IsPermittedIdentifier] and [IsPermittedIdentifierRule] through [glob] *)

Lemma IsPermittedIdentifier_unfold (name permittedNames : gostring) :
  IsPermittedIdentifier name permittedNames
  = anyMatches (strings.Split (stripSpaces permittedNames) ","%char) (stripSpaces name).
Proof. reflexivity. Qed.

Lemma IsPermittedIdentifierRule_unfold (child parent : gostring) :
  IsPermittedIdentifierRule child parent
  = allPermitted (strings.Split (stripSpaces child) ","%char)
                 (strings.Split (stripSpaces parent) ","%char).
Proof. reflexivity. Qed.

Lemma anyMatches_cons (domain : gostring) (names : list gostring) (name : gostring) :
  anyMatches (domain :: names) name
  = if utf8.ValidString domain
    then glob (utf8.runes domain) (utf8.runes name) || anyMatches names name
    else false.
Proof.
  cbn [anyMatches]. rewrite regexPattern'_eq, MatchString_regexPattern.
  destruct (utf8.ValidString domain); [|reflexivity].
  destruct (glob _ _); reflexivity.
Qed.

Lemma permittedBy_cons (p : gostring) (ps : list gostring) (c : gostring) :
  permittedBy (p :: ps) c
  = if utf8.ValidString p
    then if glob (utf8.runes p) (utf8.runes c) then Some true else permittedBy ps c
    else None.
Proof.
  cbn [permittedBy]. rewrite MatchString_regexPattern.
  destruct (utf8.ValidString p); [|reflexivity].
  destruct (glob _ _); reflexivity.
Qed.

Lemma anyMatches_app (names1 names2 : list gostring) (name : gostring) :
  forallb utf8.ValidString names1 = true ->
  anyMatches (names1 ++ names2) name
  = anyMatches names1 name || anyMatches names2 name.
Proof.
  induction names1 as [|d names1 IH]; [reflexivity|].
  cbn [forallb app]. intros H. apply andb_prop in H. destruct H as [Hd Hn].
  rewrite !anyMatches_cons, Hd, (IH Hn). apply orb_assoc.
Qed.

Lemma no_comma_app (a b : gostring) :
  existsb (fun c => byte_eqb c ","%char) (a ++ b)
  = existsb (fun c => byte_eqb c ","%char) a || existsb (fun c => byte_eqb c ","%char) b.
Proof. apply existsb_app. Qed.

(** ** Claims about the identifier predicates *)

(** C3: the four concrete scenarios of [IsPermittedIdentifierRule]: a
    sub-sub-domain is permitted by a wildcard domain, a wider wildcard is
    not permitted by a narrower one, and an ID is permitted by a wildcard ID
    exactly when its literal tail agrees. *)
Theorem IsPermittedIdentifierRule_scenarios :
  IsPermittedIdentifierRule (go "DNS:subsub.sub.dom") (go "DNS:*.dom") = true
  /\ IsPermittedIdentifierRule (go "DNS:*.dom") (go "DNS:*.sub.dom") = false
  /\ IsPermittedIdentifierRule (go "ID:1234-1111") (go "ID:*-1111") = true
  /\ IsPermittedIdentifierRule (go "ID:1234-1112") (go "ID:*-1111") = false.
Proof. repeat split; vm_compute; reflexivity. Qed.

(** C4, as the code stands, fails for a name that holds a comma: the name
    is compared whole against each term of the list. *)
Lemma IsPermittedIdentifier_not_reflexive :
  IsPermittedIdentifier (go "a,b") (go "a,b") = false.
Proof. vm_compute. reflexivity. Qed.

(** The star does not match a newline. *)
Lemma IsPermittedIdentifier_star_newline :
  IsPermittedIdentifier ["a"%char; "010"%char; "b"%char] (go "*") = false.
Proof. vm_compute. reflexivity. Qed.

(** A term that is not valid UTF-8 ends the search: the terms after it
    are not tried. *)
Lemma IsPermittedIdentifier_invalid_term :
  IsPermittedIdentifier (go "x") (["255"%char] ++ go "," ++ go "x") = false
  /\ IsPermittedIdentifier (go "x") ["255"%char] || IsPermittedIdentifier (go "x") (go "x") = true.
Proof. split; vm_compute; reflexivity. Qed.

Lemma noComma_Split (s : gostring) :
  noComma s = true -> strings.Split s ","%char = [s].
Proof.
  unfold noComma. intros H. apply negb_true_iff in H. apply Split_none. exact H.
Qed.

Lemma noComma_app (a b : gostring) : noComma (a ++ b) = noComma a && noComma b.
Proof. unfold noComma. rewrite existsb_app. apply negb_orb. Qed.

Lemma runes_star : utf8.runes (go "*") = [42%N].
Proof. reflexivity. Qed.

Lemma ValidString_star : utf8.ValidString (go "*") = true.
Proof. reflexivity. Qed.

Lemma glob_refl (rs : list utf8.rune) : glob rs rs = true.
Proof. apply glob_globs, globs_refl. Qed.

(** C4 (amended): [IsPermittedIdentifier] is reflexive on names that,
    spaces removed, are valid UTF-8 and hold no comma; it distributes over
    the comma of the list when the terms of the left part are valid UTF-8;
    and a star in a term, which has to be valid UTF-8 as every term, matches
    every run of bytes that holds no newline, validly encoded or not, a
    comma included. *)
Theorem IsPermittedIdentifier_laws :
  (forall x : gostring,
      utf8.ValidString (stripSpaces x) = true ->
      noComma (stripSpaces x) = true ->
      IsPermittedIdentifier x x = true)
  /\ (forall x a b : gostring,
         termsValid a = true ->
         IsPermittedIdentifier x (a ++ go "," ++ b)
         = IsPermittedIdentifier x a || IsPermittedIdentifier x b)
  /\ (forall pre mid suf : gostring,
         utf8.ValidString (stripSpaces pre) = true ->
         utf8.ValidString (stripSpaces suf) = true ->
         noComma (stripSpaces pre) = true ->
         noComma (stripSpaces suf) = true ->
         noNewline mid = true ->
         IsPermittedIdentifier (pre ++ mid ++ suf) (pre ++ go "*" ++ suf) = true).
Proof.
  split; [|split].
  - intros x Hv Hc. rewrite IsPermittedIdentifier_unfold, (noComma_Split _ Hc).
    rewrite anyMatches_cons, Hv, glob_refl. reflexivity.
  - intros x a b Ha. rewrite !IsPermittedIdentifier_unfold.
    rewrite stripSpaces_app. change (go "," ++ b) with (","%char :: b).
    change (","%char :: b) with ([","%char] ++ b). rewrite stripSpaces_app.
    change (stripSpaces [","%char]) with [","%char]. cbn [app].
    rewrite Split_join. apply anyMatches_app. exact Ha.
  - intros pre mid suf Hp Hs Cp Cs Hn.
    rewrite IsPermittedIdentifier_unfold, !stripSpaces_app.
    change (stripSpaces (go "*")) with (go "*").
    rewrite noComma_Split
      by (rewrite !noComma_app, Cp, Cs; reflexivity).
    rewrite anyMatches_cons.
    rewrite (ValidString_app _ _ Hp), (ValidString_app _ _ ValidString_star), Hs.
    rewrite (runes_app _ _ Hp), (runes_app _ _ ValidString_star), runes_star.
    rewrite (runes_app _ _ Hp).
    destruct (runes_through (stripSpaces mid) (stripSpaces suf) Hs
                            (noNewline_stripSpaces mid Hn)) as (rs & E & Hrs).
    rewrite E, orb_true_iff. left. apply glob_globs.
    apply globs_app; [apply globs_refl|].
    apply globs_app; [|apply globs_refl].
    apply globs_star. exact Hrs.
Qed.

Lemma IsPermittedIdentifier_laws_witness :
  IsPermittedIdentifier (go "DNS: a.dom") (go "DNS: a.dom") = true
  /\ IsPermittedIdentifier (go "b") (go "a" ++ go "," ++ go "b")
     = IsPermittedIdentifier (go "b") (go "a") || IsPermittedIdentifier (go "b") (go "b")
  /\ IsPermittedIdentifier (go "DNS:" ++ (go "x,y" ++ ["255"%char]) ++ go ".dom")
       (go "DNS:" ++ go "*" ++ go ".dom") = true.
Proof.
  split; [|split].
  - apply (proj1 IsPermittedIdentifier_laws); reflexivity.
  - apply (proj1 (proj2 IsPermittedIdentifier_laws)); reflexivity.
  - apply (proj2 (proj2 IsPermittedIdentifier_laws)); reflexivity.
Defined.

(** ** Transitivity of the identifier rule *)

Lemma permittedBy_true (ps : list gostring) (c : gostring) :
  permittedBy ps c = Some true <->
  exists pre p post,
    ps = pre ++ p :: post
    /\ forallb utf8.ValidString pre = true
    /\ utf8.ValidString p = true
    /\ glob (utf8.runes p) (utf8.runes c) = true.
Proof.
  split.
  - induction ps as [|q ps IH]; [discriminate|].
    rewrite permittedBy_cons. destruct (utf8.ValidString q) eqn:Hq; [|discriminate].
    destruct (glob (utf8.runes q) (utf8.runes c)) eqn:Hg.
    + intros _. exists [], q, ps. repeat split; assumption.
    + intros H. destruct (IH H) as (pre & p & post & -> & Hpre & Hp & Hm).
      exists (q :: pre), p, post. cbn [forallb app]. rewrite Hq, Hpre.
      repeat split; assumption.
  - intros (pre & p & post & -> & Hpre & Hp & Hm).
    induction pre as [|q pre IH]; cbn [app]; rewrite permittedBy_cons.
    + rewrite Hp, Hm. reflexivity.
    + cbn [forallb] in Hpre. apply andb_prop in Hpre. destruct Hpre as [Hq Hpre].
      rewrite Hq. destruct (glob (utf8.runes q) (utf8.runes c)); [reflexivity | apply IH, Hpre].
Qed.

Lemma allPermitted_true (cs ps : list gostring) :
  allPermitted cs ps = true <-> Forall (fun c => permittedBy ps c = Some true) cs.
Proof.
  induction cs as [|c cs IH]; cbn [allPermitted].
  - split; [constructor | reflexivity].
  - destruct (permittedBy ps c) as [[|]|] eqn:E.
    + rewrite IH. split; [intros H; constructor; assumption | intros H; inversion H; assumption].
    + split; [discriminate | intros H; inversion H; congruence].
    + split; [discriminate | intros H; inversion H; congruence].
Qed.

(** What a wider term permits, a term it permits permits as well. *)
Lemma permittedBy_trans (cs : list gostring) (a b : gostring) :
  utf8.ValidString b = true ->
  glob (utf8.runes b) (utf8.runes a) = true ->
  permittedBy cs b = Some true ->
  permittedBy cs a = Some true.
Proof.
  intros _ Hba Hb. apply permittedBy_true in Hb.
  destruct Hb as (pre & p & post & -> & Hpre & Hp & Hm).
  apply permittedBy_true. exists pre, p, post. repeat split; try assumption.
  apply glob_globs. apply glob_globs in Hm. apply glob_globs in Hba.
  exact (globs_trans _ _ Hm _ Hba).
Qed.

Theorem IsPermittedIdentifierRule_trans (a b c : gostring) :
  IsPermittedIdentifierRule a b = true ->
  IsPermittedIdentifierRule b c = true ->
  IsPermittedIdentifierRule a c = true.
Proof.
  rewrite !IsPermittedIdentifierRule_unfold, !allPermitted_true, !Forall_forall.
  intros Hab Hbc ta Hta.
  specialize (Hab ta Hta). apply permittedBy_true in Hab.
  destruct Hab as (pre & tb & post & E & _ & Hv & Hm).
  apply (permittedBy_trans _ ta tb Hv Hm).
  apply Hbc. rewrite E. apply in_or_app. right. left. reflexivity.
Qed.

(** ** The walk along a delegate chain *)

Section DelegateChainFacts.

Variable CheckSignatureFrom : Certificate -> Certificate -> option error.
Variable ecdsaGenerateKey : result Signer.
Variable rsaGenerateKey : result Signer.
Variable GenerateDelegate :
  Signer -> Z -> PublicKey -> gostring -> gostring ->
  list ObjectIdentifier -> Z -> gostring -> result Certificate.

Let step := walkStep CheckSignatureFrom.
Let walk' := walk CheckSignatureFrom.

(** What one successful turn of the loop has checked. *)
Lemma walkStep_ok (chain : list Certificate) (oid : option ObjectIdentifier)
      (i : nat) (c : Certificate) (prevOwner next : gostring) :
  chain <> [] ->
  step chain oid i c prevOwner = Ok next ->
  let constrs := if Nat.eqb i 0
                 then GetCertIdentifierStr (hd c chain)
                 else getIdentConstraints c in
  next = constrs
  /\ (nonEmpty constrs = true -> nonEmpty prevOwner = true ->
      IsPermittedIdentifierRule prevOwner constrs = true)
  /\ (i <> 0 -> nonEmpty constrs = true -> nonEmpty prevOwner = true)
  /\ (forall f, oid = Some f -> certMissingOID c f = false).
Proof.
  intros Hne. unfold step, walkStep.
  assert (E : (if Nat.eqb i 0
               then match GetIdentifier chain with
                    | Err _ => Err (Errorf "GetIdentifier: %v")
                    | Ok (Some id) => Ok id
                    | Ok None => Ok []
                    end
               else Ok (getIdentConstraints c))
              = Ok (if Nat.eqb i 0
                    then GetCertIdentifierStr (hd c chain)
                    else getIdentConstraints c)).
  { destruct (Nat.eqb i 0); [|reflexivity]. destruct chain; [congruence | reflexivity]. }
  rewrite E. clear E. cbv zeta.
  set (constrs := if Nat.eqb i 0 then GetCertIdentifierStr (hd c chain)
                  else getIdentConstraints c).
  destruct (nonEmpty constrs && nonEmpty prevOwner
            && negb (IsPermittedIdentifierRule prevOwner constrs)) eqn:E1;
    [discriminate|].
  assert (Hnext : (if nonEmpty constrs then constrs else []) = constrs).
  { destruct constrs; reflexivity. }
  rewrite Hnext.
  destruct (negb (Nat.eqb i 0) && negb (nonEmpty prevOwner) && nonEmpty constrs) eqn:E2;
    [discriminate|].
  match goal with |- context [match ?x with Some e => Err e | None => _ end] =>
    destruct x; [discriminate|] end.
  destruct (match oid with Some oid0 => certMissingOID c oid0 | None => false end) eqn:E3;
    [discriminate|].
  repeat match goal with |- context [if ?b then Err _ else _] =>
    destruct b; [discriminate|] end.
  intros H. inversion H; subst next. clear H.
  split; [reflexivity|]. split; [|split].
  - intros H1 H2. rewrite H1, H2 in E1. cbn [andb] in E1.
    apply negb_false_iff in E1. exact E1.
  - intros Hi H1. rewrite H1, andb_true_r in E2.
    apply Nat.eqb_neq in Hi. rewrite Hi in E2. cbn [negb andb] in E2.
    apply negb_false_iff in E2. exact E2.
  - intros f ->. exact E3.
Qed.

Lemma walk_above (chain : list Certificate) (oid : option ObjectIdentifier)
      (L : gostring) (rest : list Certificate) :
  chain <> [] ->
  forall (i : nat) (prevOwner r : gostring),
    i <> 0 ->
    carries prevOwner L ->
    walk' chain oid i rest prevOwner = Ok r ->
    Forall (fun c => nonEmpty (getIdentConstraints c) = true ->
                     IsPermittedIdentifierRule L (getIdentConstraints c) = true) rest
    /\ (forall f, oid = Some f -> Forall (fun c => certMissingOID c f = false) rest).
Proof.
  intros Hne. induction rest as [|c rest IH]; intros i prevOwner r Hi Hcar Hw.
  - split; [constructor | intros; constructor].
  - unfold walk' in Hw. cbn [walk] in Hw.
    destruct (walkStep CheckSignatureFrom chain oid i c prevOwner) as [next|e] eqn:Es;
      [|discriminate].
    destruct (walkStep_ok chain oid i c prevOwner next Hne Es) as (Hn & Hperm & Hprev & Hoid).
    apply Nat.eqb_neq in Hi. rewrite Hi in Hn, Hperm, Hprev. apply Nat.eqb_neq in Hi.
    subst next.
    assert (HL : nonEmpty (getIdentConstraints c) = true ->
                 IsPermittedIdentifierRule L (getIdentConstraints c) = true).
    { intros Hc. pose proof (Hprev Hi Hc) as Hp. apply (Hcar Hp). apply Hperm; assumption. }
    destruct (IH (S i) (getIdentConstraints c) r) as [IH1 IH2]; try assumption.
    + discriminate.
    + intros Hc K HK.
      exact (IsPermittedIdentifierRule_trans _ _ _ (HL Hc) HK).
    + split; [constructor; assumption|].
      intros f Hf. constructor; [apply Hoid, Hf | apply IH2, Hf].
Qed.

Lemma walk_sound (leaf : Certificate) (above : list Certificate)
      (oid : option ObjectIdentifier) (r : gostring) :
  walk' (leaf :: above) oid 0 (leaf :: above) [] = Ok r ->
  Forall (fun c => nonEmpty (getIdentConstraints c) = true ->
                   IsPermittedIdentifierRule (GetCertIdentifierStr leaf)
                                             (getIdentConstraints c) = true) above
  /\ (forall f, oid = Some f ->
                Forall (fun c => certMissingOID c f = false) (leaf :: above)).
Proof.
  unfold walk'. cbn [walk]. intros Hw.
  destruct (walkStep CheckSignatureFrom (leaf :: above) oid 0 leaf []) as [next|e] eqn:Es;
    [|discriminate].
  assert (Hne : leaf :: above <> []) by discriminate.
  destruct (walkStep_ok _ oid 0 leaf [] next Hne Es) as (Hn & _ & _ & Hoid).
  cbn in Hn. subst next.
  destruct (walk_above (leaf :: above) oid (GetCertIdentifierStr leaf) above Hne
                       1 (GetCertIdentifierStr leaf) r) as [H1 H2];
    try assumption.
  - discriminate.
  - intros _ K HK. exact HK.
  - split; [exact H1|]. intros f Hf. constructor; [apply Hoid, Hf | apply H2, Hf].
Qed.

End DelegateChainFacts.

Lemma oidEqual_eq (a b : ObjectIdentifier) : oidEqual a b = true <-> a = b.
Proof.
  revert b. induction a as [|x a IH]; intros [|y b]; cbn [oidEqual];
    try (split; [discriminate | congruence]).
  - split; reflexivity.
  - rewrite andb_true_iff, Z.eqb_eq, IH. split.
    + intros [-> ->]. reflexivity.
    + intros H. inversion H. split; reflexivity.
Qed.

(** A certificate that does not miss an OID carries an extension with it. *)
Lemma certMissingOID_false (c : Certificate) (oid : ObjectIdentifier) :
  certMissingOID c oid = false <-> exists e, In e (Extensions c) /\ pkix.Id e = oid.
Proof.
  unfold certMissingOID. induction (Extensions c) as [|o exts IH]; cbn [certMissingOID_ext].
  - split; [discriminate | intros (e & [] & _)].
  - destruct (oidEqual (pkix.Id o) oid) eqn:E.
    + apply oidEqual_eq in E. split; [|reflexivity].
      intros _. exists o. split; [left; reflexivity | exact E].
    + rewrite IH. split.
      * intros (e & He & Hid). exists e. split; [right; exact He | exact Hid].
      * intros (e & [->|He] & Hid).
        -- apply oidEqual_eq in Hid. congruence.
        -- exists e. split; assumption.
Qed.

Lemma withOwnerRoot_ok
      (ecdsaGenerateKey rsaGenerateKey : result Signer)
      (GenerateDelegate : Signer -> Z -> PublicKey -> gostring -> gostring ->
                          list ObjectIdentifier -> Z -> gostring -> result Certificate)
      (chain : list Certificate) (c0 : Certificate) (ownerKey : option PublicKey)
      (oidArray : list ObjectIdentifier) (chain' : list Certificate) :
  withOwnerRoot ecdsaGenerateKey rsaGenerateKey GenerateDelegate chain c0 ownerKey oidArray
  = Ok chain' ->
  chain' = chain \/ exists rootOwner, chain' = chain ++ [rootOwner].
Proof.
  unfold withOwnerRoot. destruct ownerKey as [public|].
  - match goal with |- context [match ?x with Ok _ => _ | Err _ => _ end] =>
      destruct x as [[rootPriv|?]|?]; try discriminate end.
    destruct (GenerateDelegate _ _ _ _ _ _ _ _) as [rootOwner|?]; [|discriminate].
    intros H. inversion H. right. exists rootOwner. reflexivity.
  - intros H. inversion H. left. reflexivity.
Qed.

(** C2: when [VerifyDelegateChain] accepts a chain for a function OID and
    no named owner, every certificate of the chain carries the OID among
    its extensions, and the identifier the leaf declares is permitted by the
    identifier constraints of every certificate above it that declares
    some. *)
Theorem VerifyDelegateChain_sound
        (CheckSignatureFrom : Certificate -> Certificate -> option error)
        (ecdsaGenerateKey rsaGenerateKey : result Signer)
        (GenerateDelegate : Signer -> Z -> PublicKey -> gostring -> gostring ->
                            list ObjectIdentifier -> Z -> gostring -> result Certificate)
        (chain : list Certificate) (ownerKey : option PublicKey) (f : ObjectIdentifier) :
  VerifyDelegateChain CheckSignatureFrom ecdsaGenerateKey rsaGenerateKey GenerateDelegate
                      chain ownerKey (Some f) None = None ->
  Forall (fun c => exists e, In e (Extensions c) /\ pkix.Id e = f) chain
  /\ forall leaf above,
      chain = leaf :: above ->
      nonEmpty (GetCertIdentifierStr leaf) = true ->
      Forall (fun c => nonEmpty (getIdentConstraints c) = true ->
                       IsPermittedIdentifierRule (GetCertIdentifierStr leaf)
                                                 (getIdentConstraints c) = true) above.
Proof.
  unfold VerifyDelegateChain, processDelegateChain.
  destruct chain as [|c0 rest]; [discriminate|].
  destruct (withOwnerRoot _ _ _ _ _ _ _) as [chain'|e] eqn:Ew; [|discriminate].
  destruct (walk _ _ _ _ _ _) as [r|e] eqn:Hw; [|discriminate].
  intros _.
  assert (Hc : exists extra, chain' = c0 :: rest ++ extra).
  { destruct (withOwnerRoot_ok _ _ _ _ _ _ _ _ Ew) as [->|[rootOwner ->]].
    - exists []. rewrite app_nil_r. reflexivity.
    - exists [rootOwner]. reflexivity. }
  destruct Hc as [extra ->].
  destruct (walk_sound CheckSignatureFrom c0 (rest ++ extra) (Some f) r Hw) as [H1 H2].
  split.
  - specialize (H2 f eq_refl).
    change (c0 :: rest ++ extra) with ((c0 :: rest) ++ extra) in H2.
    apply Forall_app in H2. destruct H2 as [H2 _].
    eapply Forall_impl; [|exact H2]. intros c Hm. apply certMissingOID_false. exact Hm.
  - intros leaf above E _. inversion E; subst leaf above.
    apply Forall_app in H1. exact (proj1 H1).
Qed.

Lemma VerifyDelegateChain_sound_witness :
  VerifyDelegateChain acceptSignature (Err (Errorf "no key")) (Err (Errorf "no key"))
                      (fun _ _ _ _ _ _ _ _ => Err (Errorf "no certificate"))
                      goodChain None (Some OID_delegateOnboard) None = None
  /\ Forall (fun c => exists e, In e (Extensions c) /\ pkix.Id e = OID_delegateOnboard) goodChain.
Proof.
  split; [reflexivity|].
  refine (proj1 (VerifyDelegateChain_sound acceptSignature (Err (Errorf "no key"))
                   (Err (Errorf "no key"))
                   (fun _ _ _ _ _ _ _ _ => Err (Errorf "no certificate"))
                   goodChain None OID_delegateOnboard _)).
  vm_compute. reflexivity.
Defined.

(** The bad chain of the specification is refused. *)
Lemma VerifyDelegateChain_badChain :
  VerifyDelegateChain acceptSignature (Err (Errorf "no key")) (Err (Errorf "no key"))
                      (fun _ _ _ _ _ _ _ _ => Err (Errorf "no certificate"))
                      badChain None (Some OID_delegateOnboard) None
  = Some (Errorf "NamedIdentifer in entry #%d %s not allowed by prior %s\n").
Proof. vm_compute. reflexivity. Qed.

(** C9: the empty chain is refused, whatever the other arguments, with an
    error of its own; and [GetIdentifier] gives an error and no identifier
    for it. *)
Theorem empty_chain_rejected
        (CheckSignatureFrom : Certificate -> Certificate -> option error)
        (ecdsaGenerateKey rsaGenerateKey : result Signer)
        (GenerateDelegate : Signer -> Z -> PublicKey -> gostring -> gostring ->
                            list ObjectIdentifier -> Z -> gostring -> result Certificate)
        (ownerKey : option PublicKey) (oid : option ObjectIdentifier)
        (output : bool) (namedOwner : option gostring) :
  processDelegateChain CheckSignatureFrom ecdsaGenerateKey rsaGenerateKey GenerateDelegate
                       [] ownerKey oid output namedOwner = Some (Errorf "Empty chain")
  /\ VerifyDelegateChain CheckSignatureFrom ecdsaGenerateKey rsaGenerateKey GenerateDelegate
                         [] ownerKey oid namedOwner = Some (Errorf "Empty chain")
  /\ GetIdentifier [] = Err (Errorf "Cannot verify empty chain").
Proof. repeat split. Qed.

(** C1, as the code stands: the chain of the test row whose root is
    scoped to [DNS:*.sub.dom] is accepted for the expected owner
    [DNS:*.dom], which the root's constraints do not permit: the wide name
    is not matched by the narrow pattern.  It is the root's constraints
    that the expected owner has to permit. *)
Lemma VerifyDelegateChain_namedOwner_not_permitted :
  VerifyDelegateChain acceptSignature (Err (Errorf "no key")) (Err (Errorf "no key"))
                      (fun _ _ _ _ _ _ _ _ => Err (Errorf "no certificate"))
                      scopedChain None (Some OID_delegateOnboard) (Some (go "DNS:*.dom"))
  = None
  /\ lastCert scopedChain scopedRoot = scopedRoot
  /\ rootIdentOf scopedRoot = go "DNS:*.sub.dom"
  /\ IsPermittedIdentifierRule (go "DNS:*.dom") (go "DNS:*.sub.dom") = false.
Proof. repeat split; vm_compute; reflexivity. Qed.

(** The check after the walk, on the chain as walked. *)
Lemma processDelegateChain_namedOwner
      (CheckSignatureFrom : Certificate -> Certificate -> option error)
      (ecdsaGenerateKey rsaGenerateKey : result Signer)
      (GenerateDelegate : Signer -> Z -> PublicKey -> gostring -> gostring ->
                          list ObjectIdentifier -> Z -> gostring -> result Certificate)
      (c0 : Certificate) (rest : list Certificate) (ownerKey : option PublicKey)
      (oid : option ObjectIdentifier) (output : bool) (namedOwner : gostring)
      (walked : list Certificate) :
  withOwnerRoot ecdsaGenerateKey rsaGenerateKey GenerateDelegate (c0 :: rest) c0 ownerKey
                (match oid with Some oid => [oid] | None => [] end) = Ok walked ->
  nonEmpty (rootIdentOf (lastCert walked c0)) = true ->
  processDelegateChain CheckSignatureFrom ecdsaGenerateKey rsaGenerateKey GenerateDelegate
                       (c0 :: rest) ownerKey oid output (Some namedOwner)
  = match walk CheckSignatureFrom walked oid 0 walked [] with
    | Err e => Some e
    | Ok _ =>
        if IsPermittedIdentifierRule (rootIdentOf (lastCert walked c0)) namedOwner
        then None
        else Some (Errorf "Chain scoped to namedIdentifer '%s', but root only scoped for '%s'")
    end.
Proof.
  intros Hw Hr. unfold processDelegateChain. rewrite Hw.
  destruct (walk CheckSignatureFrom walked oid 0 walked []) as [r|e]; [|reflexivity].
  cbv zeta. rewrite Hr. cbn [andb].
  destruct (IsPermittedIdentifierRule _ _); reflexivity.
Qed.

(** C1 (amended): the last certificate of the chain as it is walked (the
    last of the chain given or, with an owner key, the ephemeral owner
    certificate appended to it) being scoped by identifier constraints,
    [VerifyDelegateChain] accepts an expected owner only when the owner, as
    the list of patterns, permits those constraints; when it does not, the
    chain is refused.  Without an owner key the chain walked is the chain
    given. *)
Theorem VerifyDelegateChain_namedOwner
        (CheckSignatureFrom : Certificate -> Certificate -> option error)
        (ecdsaGenerateKey rsaGenerateKey : result Signer)
        (GenerateDelegate : Signer -> Z -> PublicKey -> gostring -> gostring ->
                            list ObjectIdentifier -> Z -> gostring -> result Certificate)
        (c0 : Certificate) (rest : list Certificate) (ownerKey : option PublicKey)
        (oid : option ObjectIdentifier) (namedOwner : gostring)
        (walked : list Certificate) :
  withOwnerRoot ecdsaGenerateKey rsaGenerateKey GenerateDelegate (c0 :: rest) c0 ownerKey
                (match oid with Some oid => [oid] | None => [] end) = Ok walked ->
  nonEmpty (rootIdentOf (lastCert walked c0)) = true ->
  (VerifyDelegateChain CheckSignatureFrom ecdsaGenerateKey rsaGenerateKey GenerateDelegate
                       (c0 :: rest) ownerKey oid (Some namedOwner) = None ->
   IsPermittedIdentifierRule (rootIdentOf (lastCert walked c0)) namedOwner = true)
  /\ (IsPermittedIdentifierRule (rootIdentOf (lastCert walked c0)) namedOwner = false ->
      exists err,
        VerifyDelegateChain CheckSignatureFrom ecdsaGenerateKey rsaGenerateKey
                            GenerateDelegate (c0 :: rest) ownerKey oid (Some namedOwner)
        = Some err)
  /\ (ownerKey = None -> walked = c0 :: rest).
Proof.
  intros Hw Hr. unfold VerifyDelegateChain.
  rewrite (processDelegateChain_namedOwner _ _ _ _ _ _ _ _ _ _ _ Hw Hr).
  split; [|split].
  - destruct (walk _ _ _ _ _ _); [|discriminate].
    destruct (IsPermittedIdentifierRule _ _); [reflexivity | discriminate].
  - intros ->. destruct (walk _ _ _ _ _ _) as [r|e]; eexists; reflexivity.
  - intros ->. cbn [withOwnerRoot] in Hw. inversion Hw. reflexivity.
Qed.

Lemma VerifyDelegateChain_namedOwner_witness :
  IsPermittedIdentifierRule (go "DNS:*.sub.dom") (go "DNS:*.dom") = true.
Proof.
  refine (proj1 (VerifyDelegateChain_namedOwner
                   acceptSignature (Err (Errorf "no key")) (Err (Errorf "no key"))
                   (fun _ _ _ _ _ _ _ _ => Err (Errorf "no certificate"))
                   (hd scopedRoot scopedChain) (tl scopedChain) None
                   (Some OID_delegateOnboard) (go "DNS:*.dom") scopedChain
                   eq_refl eq_refl) _).
  vm_compute. reflexivity.
Defined.

(** An expected owner that does not permit the root's constraints is
    refused. *)
Lemma VerifyDelegateChain_namedOwner_refused :
  VerifyDelegateChain acceptSignature (Err (Errorf "no key")) (Err (Errorf "no key"))
                      (fun _ _ _ _ _ _ _ _ => Err (Errorf "no certificate"))
                      scopedChain None (Some OID_delegateOnboard) (Some (go "DNS:*.bad"))
  = Some (Errorf "Chain scoped to namedIdentifer '%s', but root only scoped for '%s'").
Proof. vm_compute. reflexivity. Qed.

(** ** The device side of fdo.payload *)


(** [sendError] never returns nil. *)
Lemma sendError_fails {H : Type} (codec : fsim.Codec) (p : fsim.Payload H)
      (code : Z) (message details : gostring) :
  exists out err, fsim.sendError codec p code message details = (p, out, Some err).
Proof.
  unfold fsim.sendError. destruct (fsim.Encode codec _) as [body|err]; eauto.
Qed.

(** A transfer that ends on a size mismatch leaves the handler untold,
    whatever the codec: neither [EndPayload] nor [CancelPayload] is
    called. *)
Lemma Receive_size_mismatch (codec : fsim.Codec) (calls : list fsim.call) :
  let p := {| fsim.Handler := Some calls;
              fsim.Active := true;
              fsim.receiving := true;
              fsim.totalBytes := 5;
              fsim.expectedSize := 10;
              fsim.buffer := [] |} in
  exists out err,
    fsim.Receive codec fsim.recorder p (go "end") [] = Returns
      (fsim.fresh (Some calls) true, out, Some err).
Proof.
  cbv zeta. unfold fsim.Receive, fsim.receive.
  change (gostring_eqb (go "end") (go "active")) with false.
  change (gostring_eqb (go "end") (go "begin")) with false.
  change (gostring_eqb (go "end") (go "data")) with false.
  change (gostring_eqb (go "end") (go "end")) with true.
  cbv iota. cbn [fsim.receiving negb fsim.expectedSize fsim.totalBytes].
  change ((0 <? 10)%Z && negb (5 =? 10)%Z) with true. cbv iota.
  match goal with
  | |- context [fsim.sendError ?c ?q ?a ?b ?d] =>
      destruct (sendError_fails c q a b d) as (out & err & E); rewrite E
  end.
  exists out, err. reflexivity.
Qed.




(** ** Signature selection *)

(** [rsa.PublicKey.Size] counts bytes: eight bit lengths share a size. *)
Lemma Size_bits (n : Z) (bytes : Z) :
  crypto.Size n = bytes <-> (8 * bytes - 7 <= crypto.BitLen n <= 8 * bytes)%Z.
Proof.
  unfold crypto.Size. generalize (crypto.BitLen n). intros b.
  split; intros H; [subst bytes|]; Z.div_mod_to_equations; lia.
Qed.

(** C7, as the code stands: an RSA key of 2041 bits is none of 2048 bits,
    and is taken for one: its size in bytes is 256. *)
Lemma sigInfoFor_rsa_2041_bits :
  crypto.BitLen (2 ^ 2040 + 1) = 2041%Z
  /\ Public (rsaKey 2041) = rsaPublicKey (2 ^ 2040 + 1)%Z 65537%Z
  /\ signOptsFor (rsaKey 2041) false = Ok (crypto.HashOpts crypto.SHA256)
  /\ sigInfoFor (rsaKey 2041) false = Ok {| Type_ := cose.RS256Alg; Info := [] |}.
Proof. repeat split; vm_compute; reflexivity. Qed.

(** C7 (amended): the signing options and the signature algorithm follow
    from the key and [usePSS] alone.  An RSA key whose modulus is 256 bytes
    long (2041 to 2048 bits) selects SHA-256 and RS256, one of 384 bytes
    (3065 to 3072 bits) SHA-384 and RS384; exactly when [usePSS] is set the
    hash sits inside PSS options whose salt length equals the hash, and the
    algorithm is PS256 or PS384; an RSA key of any other length is an
    error.  An ECDSA key has no options, and selects ES256 on P-256 and
    ES384 on P-384.  Two keys with the same public part, and two RSA keys
    of the same size in bytes, select the same. *)
Theorem sigInfoFor_selection (key : Signer) (usePSS : bool) :
  (forall n e,
      Public key = rsaPublicKey n e ->
      ((2041 <= crypto.BitLen n <= 2048)%Z ->
       signOptsFor key usePSS
       = Ok (if usePSS
             then crypto.PSSOptions crypto.PSSSaltLengthEqualsHash crypto.SHA256
             else crypto.HashOpts crypto.SHA256)
       /\ sigInfoFor key usePSS
          = Ok {| Type_ := if usePSS then cose.PS256Alg else cose.RS256Alg; Info := [] |})
      /\ ((3065 <= crypto.BitLen n <= 3072)%Z ->
          signOptsFor key usePSS
          = Ok (if usePSS
                then crypto.PSSOptions crypto.PSSSaltLengthEqualsHash crypto.SHA384
                else crypto.HashOpts crypto.SHA384)
          /\ sigInfoFor key usePSS
             = Ok {| Type_ := if usePSS then cose.PS384Alg else cose.RS384Alg; Info := [] |})
      /\ (~ (2041 <= crypto.BitLen n <= 2048)%Z ->
          ~ (3065 <= crypto.BitLen n <= 3072)%Z ->
          exists err, signOptsFor key usePSS = Err err
                      /\ sigInfoFor key usePSS = Err err))
  /\ (forall curve x y,
         Public key = ecdsaPublicKey curve x y ->
         signOptsFor key usePSS = Ok crypto.nilOpts
         /\ (curve = P256 ->
             sigInfoFor key usePSS = Ok {| Type_ := cose.ES256Alg; Info := [] |})
         /\ (curve = P384 ->
             sigInfoFor key usePSS = Ok {| Type_ := cose.ES384Alg; Info := [] |}))
  /\ (forall key',
         (Public key' = Public key
          \/ exists n e n' e',
              Public key = rsaPublicKey n e /\ Public key' = rsaPublicKey n' e'
              /\ crypto.Size n' = crypto.Size n) ->
         signOptsFor key' usePSS = signOptsFor key usePSS
         /\ sigInfoFor key' usePSS = sigInfoFor key usePSS).
Proof.
  split; [|split].
  - intros n e Hk. unfold sigInfoFor, signOptsFor, cose.SignatureAlgorithmFor. rewrite Hk.
    change (2048 / 8)%Z with 256%Z. change (3072 / 8)%Z with 384%Z.
    split; [|split].
    + intros Hb. apply (Size_bits n 256) in Hb. rewrite Hb.
      destruct usePSS; split; reflexivity.
    + intros Hb. apply (Size_bits n 384) in Hb. rewrite Hb.
      destruct usePSS; split; reflexivity.
    + intros H1 H2.
      assert (E1 : (crypto.Size n =? 256)%Z = false).
      { apply Z.eqb_neq. intros E. apply H1. apply (Size_bits n 256). exact E. }
      assert (E2 : (crypto.Size n =? 384)%Z = false).
      { apply Z.eqb_neq. intros E. apply H2. apply (Size_bits n 384). exact E. }
      rewrite E1, E2. eexists. split; reflexivity.
  - intros curve x y Hk. unfold sigInfoFor, signOptsFor, cose.SignatureAlgorithmFor.
    rewrite Hk. split; [reflexivity|]. split; intros ->; reflexivity.
  - intros key' [Hk|(n & e & n' & e' & Hk & Hk' & Hs)].
    + unfold sigInfoFor, signOptsFor, cose.SignatureAlgorithmFor. rewrite Hk.
      split; reflexivity.
    + unfold sigInfoFor, signOptsFor, cose.SignatureAlgorithmFor. rewrite Hk, Hk', Hs.
      split; reflexivity.
Qed.

Lemma sigInfoFor_selection_witness :
  sigInfoFor (rsaKey 2048) true = Ok {| Type_ := cose.PS256Alg; Info := [] |}
  /\ sigInfoFor (rsaKey 3072) false = Ok {| Type_ := cose.RS384Alg; Info := [] |}
  /\ (exists err, sigInfoFor (rsaKey 4096) true = Err err)
  /\ sigInfoFor (ecdsaKey P384) false = Ok {| Type_ := cose.ES384Alg; Info := [] |}.
Proof.
  split; [|split; [|split]].
  - apply (proj1 (proj1 (sigInfoFor_selection (rsaKey 2048) true) _ _ eq_refl)).
    vm_compute. split; discriminate.
  - apply (proj1 (proj2 (proj1 (sigInfoFor_selection (rsaKey 3072) false) _ _ eq_refl))).
    vm_compute. split; discriminate.
  - destruct (proj2 (proj2 (proj1 (sigInfoFor_selection (rsaKey 4096) true) _ _ eq_refl)))
      as (err & _ & E).
    + vm_compute. intros [_ H]. apply H. reflexivity.
    + vm_compute. intros [_ H]. apply H. reflexivity.
    + exists err. exact E.
  - apply (proj2 (proj2 (proj1 (proj2 (sigInfoFor_selection (ecdsaKey P384) false))
                               P384 1%Z 2%Z eq_refl))).
    reflexivity.
Defined.

(** ** HMAC verification *)

Lemma gostring_eqb_eq (a b : gostring) : gostring_eqb a b = true <-> a = b.
Proof.
  revert b. induction a as [|x a IH]; intros [|y b]; cbn [gostring_eqb];
    try (split; [discriminate | congruence]).
  - split; reflexivity.
  - rewrite andb_true_iff, byte_eqb_eq, IH. split.
    + intros [-> ->]. reflexivity.
    + intros E. inversion E. split; reflexivity.
Qed.

(** C8, as the code stands: a hasher may fail with an error that wraps
    [ErrCryptoVerifyFailed] itself; [HmacVerify] returns it as it is, and
    the failed computation is then the very error of a mismatch. *)
Lemma HmacVerify_failure_as_mismatch :
  refusingHasher HmacSha256Hash (go "mac")
  = Err (Wrapf "%w: hmac did not match" ErrCryptoVerifyFailed)
  /\ echoHasher HmacSha256Hash (go "other")
     = Ok {| Algorithm := HmacSha256Hash; Value := go "other" |}
  /\ HmacVerify refusingHasher {| Algorithm := HmacSha256Hash; Value := go "mac" |} (go "mac")
     = HmacVerify echoHasher {| Algorithm := HmacSha256Hash; Value := go "mac" |} (go "other").
Proof. repeat split. Qed.

(** C8 (amended): when the HMAC of the value can be computed,
    [HmacVerify] returns nil exactly when it equals the HMAC given, and
    otherwise an error that wraps [ErrCryptoVerifyFailed].  When the
    computation fails, the error of the hasher is returned as it is:
    [errors.Is] tells it from the error of a mismatch exactly when the
    hasher's error does not wrap [ErrCryptoVerifyFailed] itself. *)
Theorem HmacVerify_spec {V : Type} (dc : KeyedHasher V) (h1 : Hmac) (v : V) :
  (forall h2,
      dc (Algorithm h1) v = Ok h2 ->
      (HmacVerify dc h1 v = None <-> Value h2 = Value h1)
      /\ (Value h2 <> Value h1 ->
          exists err, HmacVerify dc h1 v = Some err
                      /\ errorsIs err "ErrCryptoVerifyFailed" = true))
  /\ (forall err,
         dc (Algorithm h1) v = Err err ->
         HmacVerify dc h1 v = Some err
         /\ (errorsIs err "ErrCryptoVerifyFailed" = false <->
             forall mismatch,
               errorsIs mismatch "ErrCryptoVerifyFailed" = true ->
               HmacVerify dc h1 v <> Some mismatch)).
Proof.
  split.
  - intros h2 Hh. unfold HmacVerify, hmacEqual. rewrite Hh.
    destruct (gostring_eqb (Value h1) (Value h2)) eqn:E; cbn [negb].
    + apply gostring_eqb_eq in E. split.
      * split; [intros _; symmetry; exact E | reflexivity].
      * intros N. congruence.
    + split.
      * split; [discriminate|]. intros N. symmetry in N.
        apply gostring_eqb_eq in N. congruence.
      * intros _. eexists. split; reflexivity.
  - intros err Hh. unfold HmacVerify. rewrite Hh. split; [reflexivity|]. split.
    + intros He mismatch Hm N. inversion N. congruence.
    + intros H. destruct (errorsIs err "ErrCryptoVerifyFailed") eqn:E; [|reflexivity].
      exfalso. exact (H err E eq_refl).
Qed.

Lemma HmacVerify_spec_witness :
  HmacVerify echoHasher {| Algorithm := HmacSha256Hash; Value := go "mac" |} (go "mac") = None
  /\ (exists err,
         HmacVerify echoHasher {| Algorithm := HmacSha256Hash; Value := go "mac" |} (go "other")
         = Some err /\ errorsIs err "ErrCryptoVerifyFailed" = true)
  /\ HmacVerify failingHasher {| Algorithm := HmacSha256Hash; Value := go "mac" |} (go "mac")
     = Some (Errorf "unsupported hash algorithm").
Proof.
  split; [|split].
  - apply (proj1 (HmacVerify_spec echoHasher
                    {| Algorithm := HmacSha256Hash; Value := go "mac" |} (go "mac")) _ eq_refl).
    reflexivity.
  - apply (proj1 (HmacVerify_spec echoHasher
                    {| Algorithm := HmacSha256Hash; Value := go "mac" |} (go "other")) _ eq_refl).
    discriminate.
  - apply (proj2 (HmacVerify_spec failingHasher
                    {| Algorithm := HmacSha256Hash; Value := go "mac" |} (go "mac")) _ eq_refl).
Defined.

(** ** COSE headers *)

(** An empty protected map is written as the empty byte string [0x40];
    the empty map wrapped in a byte string would be [0x41 0xa0]. *)
Lemma emptyOrSerializedMap_empty (unsupported : result gostring) :
  cose.emptyOrSerializedMap_MarshalCBOR unsupported [] = Ok [ascii_of_N 0x40]
  /\ cbor.bstr [ascii_of_N 0xa0] = [ascii_of_N 0x41; ascii_of_N 0xa0].
Proof. split; reflexivity. Qed.

(** C5, at a failing input: the protected part of a header with an empty
    protected map is the zero-length byte string; but a label that is a
    string is marshalled through the method value [l.String] and not
    through its text, so that two headers that differ in the text of a
    label only are marshalled alike, whatever the encoder does with a
    function value, and with an encoder that refuses function values such
    a header is not marshalled at all: there is nothing for
    [UnmarshalCBOR] to reproduce the maps from. *)
Theorem Header_MarshalCBOR_text_label (unsupported : result gostring) :
  (forall (u : cose.HeaderMap) (ur : cose.rawHeaderMap) (ub : gostring),
      cose.newRawHeaderMap unsupported u = Ok ur ->
      cose.marshalRawHeaderMap unsupported ur = Ok ub ->
      cose.Header_MarshalCBOR unsupported {| cose.Protected := []; cose.Unprotected := u |}
      = Ok (cbor.head 4 2 ++ [ascii_of_N 0x40] ++ ub))
  /\ cose.Header_MarshalCBOR unsupported
       {| cose.Protected := [({| cose.Int64 := 0; cose.Str := go "x" |}, cbor.GoInt 1)];
          cose.Unprotected := [] |}
     = cose.Header_MarshalCBOR unsupported
         {| cose.Protected := [({| cose.Int64 := 0; cose.Str := go "y" |}, cbor.GoInt 1)];
            cose.Unprotected := [] |}
  /\ cose.Header_MarshalCBOR cbor.ErrUnsupportedType
       {| cose.Protected := [({| cose.Int64 := 0; cose.Str := go "x" |}, cbor.GoInt 1)];
          cose.Unprotected := [] |}
     = Err (Errorf "cbor: unsupported type").
Proof.
  split; [|split].
  - intros u ur ub Hu Hb. unfold cose.Header_MarshalCBOR.
    cbn [cose.Protected cose.Unprotected cose.newRawHeaderMap].
    rewrite Hu. rewrite (proj1 (emptyOrSerializedMap_empty unsupported)), Hb.
    reflexivity.
  - reflexivity.
  - reflexivity.
Qed.

Lemma Header_MarshalCBOR_text_label_witness :
  cose.Header_MarshalCBOR cbor.ErrUnsupportedType
    {| cose.Protected := [];
       cose.Unprotected := [(cose.AlgLabel, cbor.GoInt (-7))] |}
  = Ok (map ascii_of_N [0x82; 0x40; 0xa1; 0x01; 0x26]%N).
Proof.
  refine (proj1 (Header_MarshalCBOR_text_label cbor.ErrUnsupportedType)
                [(cose.AlgLabel, cbor.GoInt (-7))] _ _ eq_refl eq_refl).
Defined.

(** The bytes of the test of the sources: the map [{1: -7}] wrapped in a
    byte string is [43 a1 01 26]. *)
Lemma emptyOrSerializedMap_alg :
  cose.emptyOrSerializedMap_MarshalCBOR cbor.ErrUnsupportedType
    [(cose.AlgLabel, cbor.int (-7))]
  = Ok (map ascii_of_N [0x43; 0xa1; 0x01; 0x26]%N).
Proof. reflexivity. Qed.

(** ** The exchange of payloads *)

Lemma wrap64_small (z : Z) : (- 2 ^ 63 <= z < 2 ^ 63)%Z -> wrap64 z = z.
Proof.
  intros H. unfold wrap64.
  rewrite Z.mod_small by (change (2 ^ 64)%Z with (2 ^ 63 + 2 ^ 63)%Z; lia). lia.
Qed.

Lemma len_app {A : Type} (a b : list A) : len (a ++ b) = (len a + len b)%Z.
Proof. unfold len. rewrite length_app. lia. Qed.

Lemma size_pos (c : Z) : (0 <= c < 2 ^ 63)%Z -> (0 < effectiveChunkSize c < 2 ^ 63)%Z.
Proof.
  intros Hc. unfold effectiveChunkSize. destruct (c =? 0)%Z eqn:E.
  - lia.
  - apply Z.eqb_neq in E. lia.
Qed.

Lemma effectiveChunkSize_idem (c : Z) :
  effectiveChunkSize (effectiveChunkSize c) = effectiveChunkSize c.
Proof.
  unfold effectiveChunkSize. destruct (c =? 0)%Z eqn:E; [reflexivity|].
  rewrite E. reflexivity.
Qed.

Lemma chunks_concat (size : nat) (fuel : nat) :
  forall data : gostring,
    (0 < size)%nat -> (length data <= fuel)%nat -> concat (chunks fuel size data) = data.
Proof.
  induction fuel as [|fuel IH]; intros data Hs Hl.
  - destruct data; [reflexivity | cbn [length] in Hl; lia].
  - destruct data as [|b data']; [reflexivity|].
    cbn [chunks concat]. rewrite IH.
    + apply firstn_skipn.
    + exact Hs.
    + rewrite length_skipn. cbn [length] in *. lia.
Qed.

Lemma pieces_concat (c : Z) (data : gostring) :
  (0 <= c)%Z -> concat (pieces c data) = data.
Proof.
  intros Hc. unfold pieces. apply chunks_concat; [|lia].
  unfold effectiveChunkSize. destruct (Z.eqb_spec c 0); lia.
Qed.

Lemma Forall2_data_keys (codec : fsim.Codec) (kvs : list fsim.KV) (ps : list gostring) :
  Forall2 (fun kv piece => fst kv = go "data"
                           /\ fsim.DecodeBytes codec (snd kv) = Ok piece) kvs ps ->
  map fst kvs = repeat (go "data") (length ps)
  /\ fsim.bodiesOf (go "data") kvs = map snd kvs
  /\ Forall2 (fun body piece => fsim.DecodeBytes codec body = Ok piece) (map snd kvs) ps.
Proof.
  induction 1 as [|kv p kvs ps [Hk Hd] _ (IH1 & IH2 & IH3)].
  - repeat split. constructor.
  - cbn [map length repeat]. unfold fsim.bodiesOf in *. cbn [filter].
    rewrite Hk, IH1. change (gostring_eqb (go "data") (go "data")) with true.
    cbn [map]. rewrite IH2. repeat split. constructor; assumption.
Qed.

(** A message in two parts goes to the device part after part. *)
Lemma deviceTurn_app {H : Type} (codec : fsim.Codec) (handler : fsim.PayloadHandler H)
      (m1 m2 : list fsim.KV) :
  forall d : fsim.Payload H,
    fsim.deviceTurn codec handler d (m1 ++ m2)
    = match fsim.deviceTurn codec handler d m1 with
      | Panics => Panics
      | Returns (d1, out1, Some err) => Returns (d1, out1, Some err)
      | Returns (d1, out1, None) =>
          match fsim.deviceTurn codec handler d1 m2 with
          | Panics => Panics
          | Returns (d2, out2, err) => Returns (d2, out1 ++ out2, err)
          end
      end.
Proof.
  induction m1 as [|[key body] m1 IH]; intros d; cbn [app fsim.deviceTurn].
  - destruct (fsim.deviceTurn codec handler d m2) as [[[d2 out2] err]|]; reflexivity.
  - destruct (fsim.Receive codec handler d key body) as [[[d' out] [err|]]|]; try reflexivity.
    rewrite IH.
    destruct (fsim.deviceTurn codec handler d' m1) as [[[d1 out1] [err1|]]|]; try reflexivity.
    destruct (fsim.deviceTurn codec handler d1 m2) as [[[d2 out2] err2]|]; [|reflexivity].
    rewrite app_assoc. reflexivity.
Qed.

Lemma ownerTakes_app (codec : fsim.Codec) (r1 r2 : list fsim.KV) :
  forall o : fsim.PayloadOwner,
    fsim.ownerTakes codec o (r1 ++ r2)
    = match fsim.ownerTakes codec o r1 with
      | Panics => Panics
      | Returns (o1, Some err) => Returns (o1, Some err)
      | Returns (o1, None) => fsim.ownerTakes codec o1 r2
      end.
Proof.
  induction r1 as [|[key body] r1 IH]; intros o; cbn [app fsim.ownerTakes]; [reflexivity|].
  destruct (fsim.HandleInfo codec o key body) as [[o' [err|]]|]; try reflexivity.
  apply IH.
Qed.

Lemma owner_ready (codec : fsim.Codec) (o : fsim.PayloadOwner) (wt : gostring) :
  fsim.DecodeBool codec wt = Ok true ->
  fsim.HandleInfo codec o (go "ready") wt = Returns (o, None).
Proof.
  intros Hb. unfold fsim.HandleInfo, fsim.ownerReceive.
  change (gostring_eqb (go "ready") (go "active")) with false.
  change (gostring_eqb (go "ready") (go "ready")) with true.
  cbv iota. rewrite Hb. reflexivity.
Qed.

Section Scheduler.

Import fsim.

Variable codec : Codec.
Variable WriteChunk : Producer -> gostring -> gostring -> result Producer.
Context {H : Type}.
Variable handler : PayloadHandler H.
Variable mtu : nat.

Let run := exchange codec WriteChunk handler mtu.

Let after := afterDeliver codec WriteChunk handler mtu.

(** The module has written and neither blocks nor is done, and the message
    has room: the next call writes into the same message. *)
Lemma exchange_continue (calls : nat) (o o1 : PayloadOwner) (d : Payload H)
      (message message1 sent : list KV) :
  ProduceInfo codec WriteChunk o message = Returns (o1, message1, (false, false, None)) ->
  (length message1 < mtu)%nat ->
  run (S calls) o d message sent = run calls o1 d message1 sent.
Proof.
  intros Hp Hl. unfold run. cbn [exchange]. rewrite Hp. cbn [negb andb].
  apply Nat.ltb_lt in Hl. rewrite Hl. reflexivity.
Qed.

(** The message is full: it is sent. *)
Lemma exchange_full (calls : nat) (o o1 : PayloadOwner) (d : Payload H)
      (message message1 sent : list KV) :
  ProduceInfo codec WriteChunk o message = Returns (o1, message1, (false, false, None)) ->
  (mtu <= length message1)%nat ->
  run (S calls) o d message sent = after calls o1 d message1 sent.
Proof.
  intros Hp Hl. unfold run, after, afterDeliver. cbn [exchange]. rewrite Hp. cbn [negb andb].
  apply Nat.ltb_ge in Hl. rewrite Hl.
  destruct (deliver codec handler o1 d message1) as [[[o2 d1] [err|]]|]; reflexivity.
Qed.

(** The module blocks the peer: the message is sent. *)
Lemma exchange_blocked (calls : nat) (o o1 : PayloadOwner) (d : Payload H)
      (message message1 sent : list KV) :
  ProduceInfo codec WriteChunk o message = Returns (o1, message1, (true, false, None)) ->
  run (S calls) o d message sent = after calls o1 d message1 sent.
Proof.
  intros Hp. unfold run, after, afterDeliver. cbn [exchange]. rewrite Hp. cbn [negb andb].
  destruct (deliver codec handler o1 d message1) as [[[o2 d1] [err|]]|]; reflexivity.
Qed.

(** The module is done with nothing left to send. *)
Lemma exchange_done (calls : nat) (o o1 : PayloadOwner) (d : Payload H)
      (blockPeer : bool) (sent : list KV) :
  ProduceInfo codec WriteChunk o [] = Returns (o1, [], (blockPeer, true, None)) ->
  run (S calls) o d [] sent = Returns (ModuleDone, o1, d, sent).
Proof.
  intros Hp. unfold run. cbn [exchange]. rewrite Hp.
  rewrite andb_false_r. cbn [andb deliver deviceTurn ownerTakes]. rewrite app_nil_r.
  reflexivity.
Qed.

End Scheduler.

Section PayloadExchange.

Import fsim.

Variable codec : Codec.
Variable WriteChunk : Producer -> gostring -> gostring -> result Producer.
Variable q : list PayloadToSend.
Variable c : Z.
Variable active : bool.
Variable mtu : nat.

Let size := effectiveChunkSize c.

Hypothesis c_range : (0 <= c < 2 ^ 63)%Z.
Hypothesis q_range : (len q < 2 ^ 63)%Z.
Hypothesis data_range : forall pl, In pl q -> (len (Data pl) < 2 ^ 63)%Z.
Hypothesis producer_accepts :
  forall producer key body, WriteChunk producer key body = Ok (producer ++ [(key, body)]).
Hypothesis mtu_pos : (1 <= mtu)%nat.

(** The codec decodes what it encoded of the payloads. *)
Variables wt wr : gostring.
Variable res : resultStruct.
Hypothesis true_codec : Encode codec (VBool true) = Ok wt /\ DecodeBool codec wt = Ok true.
Hypothesis result_codec :
  Encode codec (VMap [(go "success", VBool true)]) = Ok wr /\ DecodeResult codec wr = Ok res.
Hypothesis begin_codec :
  forall pl, In pl q ->
             exists w, Encode codec (beginValue pl) = Ok w
                       /\ DecodeBegin codec w = Ok (beginOf pl).
Hypothesis int_codec :
  forall pl z, In pl q -> (0 <= z <= len (Data pl))%Z ->
               exists w, Encode codec (VInt z) = Ok w /\ DecodeInt codec w = Ok z.
Hypothesis bytes_codec :
  forall pl piece, In pl q -> In piece (pieces c (Data pl)) ->
                   exists w, Encode codec (VBytes piece) = Ok w
                             /\ DecodeBytes codec w = Ok piece.

Let at_ := ownerAt q.
Let run := exchange codec WriteChunk recorder mtu.
Let taking := fun pl => deviceTaking pl active.
Let delivered := fun pl => deviceDelivered pl active.

(** *** The calls of [ProduceInfo] *)

Lemma produce_begin (i : nat) (pl : PayloadToSend) (cs : Z) (w : gostring)
      (message : list KV) :
  nth_error q i = Some pl ->
  effectiveChunkSize cs = size ->
  Encode codec (beginValue pl) = Ok w ->
  ProduceInfo codec WriteChunk (at_ (Z.of_nat i) None 0 false cs) message
  = Returns (at_ (Z.of_nat i) (Some pl) 0 false size, message ++ [(go "begin", w)],
             (false, false, None)).
Proof.
  intros Hnth Hcs He.
  assert (Hlt : (i < length q)%nat) by (apply nth_error_Some; congruence).
  unfold ProduceInfo, produceInfo, at_, ownerAt.
  cbn [waitingForAck currentPayload payloads currentIndex chunkSize lastError].
  destruct (Z.leb_spec (len q) (Z.of_nat i)); [unfold len in *; lia|].
  unfold index. destruct (Z.ltb_spec (Z.of_nat i) 0); [lia|].
  rewrite Nat2Z.id, Hnth. unfold encodeAndWrite. rewrite He, producer_accepts.
  subst size. rewrite <- Hcs. reflexivity.
Qed.

Lemma produce_data (i : Z) (pl : PayloadToSend) (done rest : gostring) (w : gostring)
      (message : list KV) :
  In pl q ->
  Data pl = done ++ rest ->
  rest <> [] ->
  Encode codec (VBytes (firstn (Z.to_nat size) rest)) = Ok w ->
  ProduceInfo codec WriteChunk (at_ i (Some pl) (len done) false size) message
  = Returns (at_ i (Some pl) (len (done ++ firstn (Z.to_nat size) rest)) true size,
             message ++ [(go "data", w)], (false, false, None))
    /\ (0 <= len (done ++ firstn (Z.to_nat size) rest) <= len (Data pl))%Z.
Proof.
  intros Hin Hdata Hrest He.
  set (piece := firstn (Z.to_nat size) rest) in *.
  pose proof (size_pos c c_range) as Hsize. fold size in Hsize.
  pose proof (data_range pl Hin) as Hdr.
  assert (Hlen : len (Data pl) = (len done + len rest)%Z).
  { rewrite Hdata. apply len_app. }
  assert (Hrpos : (0 < len rest)%Z).
  { unfold len. destruct rest; [congruence | cbn [length]; lia]. }
  assert (Hdn : (0 <= len done)%Z) by (unfold len; lia).
  set (n := if (len rest <? size)%Z then len rest else size).
  assert (Hpiece : len piece = n).
  { unfold piece, n. destruct (len rest <? size)%Z eqn:E;
      [apply Z.ltb_lt in E | apply Z.ltb_ge in E];
      unfold len in *; rewrite length_firstn; lia. }
  assert (Hn : (0 < n <= len rest)%Z).
  { unfold n. destruct (len rest <? size)%Z eqn:E.
    - lia.
    - apply Z.ltb_ge in E. lia. }
  assert (Hdp : len (done ++ piece) = (len done + n)%Z).
  { rewrite len_app. lia. }
  split; [|lia].
  unfold ProduceInfo, produceInfo, at_, ownerAt.
  cbn [waitingForAck currentPayload bytesSent chunkSize payloads currentIndex lastError].
  rewrite Hlen.
  replace (len done <? len done + len rest)%Z with true by (symmetry; apply Z.ltb_lt; lia).
  replace (len done + len rest - len done)%Z with (len rest) by lia.
  rewrite (wrap64_small (len rest)) by lia.
  fold n. rewrite (wrap64_small (len done + n)) by lia.
  unfold slice. rewrite Hlen.
  replace ((0 <=? len done) && (len done <=? len done + n)
           && (len done + n <=? len done + len rest))%Z with true
    by (symmetry; rewrite !andb_true_iff, !Z.leb_le; lia).
  replace (len done + n - len done)%Z with n by lia.
  assert (Hs : firstn (Z.to_nat n) (skipn (Z.to_nat (len done)) (Data pl)) = piece).
  { unfold len. rewrite Nat2Z.id, Hdata, skipn_app, skipn_all, Nat.sub_diag.
    cbn [skipn app]. unfold piece, n.
    destruct (len rest <? size)%Z eqn:E; [|reflexivity].
    apply Z.ltb_lt in E. unfold len in *. rewrite Nat2Z.id.
    rewrite !firstn_all2 by lia. reflexivity. }
  rewrite Hs. unfold encodeAndWrite. rewrite He, producer_accepts.
  rewrite Hdp. reflexivity.
Qed.

(** While the acknowledgement is awaited nothing is written. *)
Lemma produce_blocked (i : Z) (current : option PayloadToSend) (k : Z) (message : list KV) :
  ProduceInfo codec WriteChunk (at_ i current k true size) message
  = Returns (at_ i current k true size, message, (true, false, None)).
Proof. reflexivity. Qed.

(** Every byte being sent, [end] is written, and the module is left as
    it was. *)
Lemma produce_end (i : Z) (pl : PayloadToSend) (message : list KV) :
  ProduceInfo codec WriteChunk (at_ i (Some pl) (len (Data pl)) false size) message
  = Returns (at_ i (Some pl) (len (Data pl)) false size, message ++ [(go "end", wt)],
             (false, false, None)).
Proof.
  unfold ProduceInfo, produceInfo, at_, ownerAt.
  cbn [waitingForAck currentPayload bytesSent].
  rewrite Z.ltb_irrefl. unfold encodeAndWrite. rewrite (proj1 true_codec), producer_accepts.
  reflexivity.
Qed.

Lemma produce_done (cs : Z) (message : list KV) :
  ProduceInfo codec WriteChunk (at_ (len q) None 0 false cs) message
  = Returns (at_ (len q) None 0 false cs, message, (false, true, None)).
Proof.
  unfold ProduceInfo, produceInfo, at_, ownerAt.
  cbn [waitingForAck currentPayload payloads currentIndex].
  rewrite Z.leb_refl. reflexivity.
Qed.

(** *** The calls of [Receive] *)

Lemma device_begin (d : Payload (list call)) (calls : list call) (pl : PayloadToSend)
      (w : gostring) :
  Handler d = Some calls ->
  Active d = active ->
  DecodeBegin codec w = Ok (beginOf pl) ->
  Receive codec recorder d (go "begin") w
  = Returns (taking pl 0 (calls ++ [CallBegin (MimeType pl) (Name pl) (len (Data pl))
                                              (Metadata pl)]),
             [(go "ready", wt)], None).
Proof.
  intros Hh Ha Hd. destruct true_codec as [Het _]. unfold Receive, receive.
  change (gostring_eqb (go "begin") (go "active")) with false.
  change (gostring_eqb (go "begin") (go "begin")) with true.
  cbv iota. rewrite Hh, Hd.
  cbn [recorder SupportsMimeType BeginPayload negb beginOf mime_type name fsim.size metadata].
  rewrite Het, Ha. reflexivity.
Qed.

Lemma device_data (pl : PayloadToSend) (done piece : gostring) (calls : list call)
      (w wa : gostring) :
  (len (done ++ piece) < 2 ^ 63)%Z ->
  DecodeBytes codec w = Ok piece ->
  Encode codec (VInt (len (done ++ piece))) = Ok wa ->
  Receive codec recorder (taking pl (len done) calls) (go "data") w
  = Returns (taking pl (len (done ++ piece)) (calls ++ [CallChunk piece]),
             [(go "ack", wa)], None).
Proof.
  intros Hl Hd Hea. unfold Receive, receive.
  change (gostring_eqb (go "data") (go "active")) with false.
  change (gostring_eqb (go "data") (go "begin")) with false.
  change (gostring_eqb (go "data") (go "data")) with true.
  cbv iota. unfold taking, deviceTaking. cbn [receiving negb]. rewrite Hd.
  cbn [Handler recorder ReceiveChunk totalBytes Active expectedSize buffer].
  rewrite <- len_app. rewrite (wrap64_small (len (done ++ piece)))
    by (split; [unfold len; lia | exact Hl]).
  rewrite Hea. reflexivity.
Qed.

Lemma device_end (pl : PayloadToSend) (calls : list call) (body : gostring) :
  Receive codec recorder (taking pl (len (Data pl)) calls) (go "end") body
  = Returns (delivered pl (calls ++ [CallEnd]), [(go "result", wr)], None).
Proof.
  destruct result_codec as [Her _]. unfold Receive, receive, taking, deviceTaking.
  change (gostring_eqb (go "end") (go "active")) with false.
  change (gostring_eqb (go "end") (go "begin")) with false.
  change (gostring_eqb (go "end") (go "data")) with false.
  change (gostring_eqb (go "end") (go "end")) with true.
  cbv iota. cbn [receiving negb expectedSize totalBytes].
  rewrite Z.eqb_refl. cbn [negb]. rewrite andb_false_r.
  cbn [Handler recorder EndPayload nonEmpty app].
  rewrite Her. reflexivity.
Qed.

(** A second [end] finds no transfer: an error, and the handler is left
    alone. *)
Lemma device_end_again (pl : PayloadToSend) (calls : list call) (body : gostring) :
  exists out err,
    Receive codec recorder (delivered pl calls) (go "end") body
    = Returns (fresh (Some calls) active, out, Some err).
Proof.
  unfold Receive, receive, delivered, deviceDelivered.
  change (gostring_eqb (go "end") (go "active")) with false.
  change (gostring_eqb (go "end") (go "begin")) with false.
  change (gostring_eqb (go "end") (go "data")) with false.
  change (gostring_eqb (go "end") (go "end")) with true.
  cbv iota. cbn [receiving negb].
  match goal with
  | |- context [sendError ?cd ?p ?a ?b ?e] =>
      destruct (sendError_fails cd p a b e) as (out & err & E); rewrite E
  end.
  exists out, err. reflexivity.
Qed.

(** *** The calls of [HandleInfo] *)

Lemma owner_ack (i : Z) (current : option PayloadToSend) (k : Z) (wa : gostring) :
  DecodeInt codec wa = Ok k ->
  HandleInfo codec (at_ i current k true size) (go "ack") wa
  = Returns (at_ i current k false size, None).
Proof.
  intros Hda. unfold HandleInfo, ownerReceive.
  change (gostring_eqb (go "ack") (go "active")) with false.
  change (gostring_eqb (go "ack") (go "ready")) with false.
  change (gostring_eqb (go "ack") (go "ack")) with true.
  cbv iota. rewrite Hda. unfold at_, ownerAt. cbn [bytesSent]. rewrite Z.eqb_refl.
  reflexivity.
Qed.

Lemma owner_result (i : nat) (pl : PayloadToSend) (k : Z) :
  (i < length q)%nat ->
  HandleInfo codec (at_ (Z.of_nat i) (Some pl) k false size) (go "result") wr
  = Returns (at_ (Z.of_nat (S i)) None 0 false size, None).
Proof.
  intros Hlt. destruct result_codec as [_ Hdr]. unfold HandleInfo, ownerReceive.
  change (gostring_eqb (go "result") (go "active")) with false.
  change (gostring_eqb (go "result") (go "ready")) with false.
  change (gostring_eqb (go "result") (go "ack")) with false.
  change (gostring_eqb (go "result") (go "result")) with true.
  cbv iota. rewrite Hdr. unfold at_, ownerAt.
  cbn [currentPayload payloads currentIndex chunkSize waitingForAck lastError].
  rewrite wrap64_small by (unfold len in q_range; lia).
  replace (Z.of_nat i + 1)%Z with (Z.of_nat (S i)) by lia. reflexivity.
Qed.

(** *** Messages *)

(** The device [d0] and the message being filled for it stand for a
    device in the middle of the payload: when the message is sent the
    device is there, and its replies leave the owner as it is. *)
Let pending (d0 : Payload (list call)) (message : list KV) (pl : PayloadToSend)
    (k : Z) (calls : list call) : Prop :=
  exists replies,
    deviceTurn codec recorder d0 message = Returns (taking pl k calls, replies, None)
    /\ forall o, ownerTakes codec o replies = Returns (o, None).

Lemma pending_nil (pl : PayloadToSend) (k : Z) (calls : list call) :
  pending (taking pl k calls) [] pl k calls.
Proof. exists []. split; reflexivity. Qed.

Lemma pending_begin (d : Payload (list call)) (calls : list call) (pl : PayloadToSend)
      (w : gostring) :
  Handler d = Some calls ->
  Active d = active ->
  DecodeBegin codec w = Ok (beginOf pl) ->
  pending d [(go "begin", w)] pl 0
          (calls ++ [CallBegin (MimeType pl) (Name pl) (len (Data pl)) (Metadata pl)]).
Proof.
  intros Hh Ha Hd. exists [(go "ready", wt)]. split.
  - cbn [deviceTurn]. rewrite (device_begin d calls pl w Hh Ha Hd). reflexivity.
  - intros o. cbn [ownerTakes]. rewrite (owner_ready codec o wt (proj2 true_codec)).
    reflexivity.
Qed.

Lemma deliver_begin (o : PayloadOwner) (d : Payload (list call)) (calls : list call)
      (pl : PayloadToSend) (w : gostring) :
  Handler d = Some calls ->
  Active d = active ->
  DecodeBegin codec w = Ok (beginOf pl) ->
  deliver codec recorder o d [(go "begin", w)]
  = Returns (o, taking pl 0 (calls ++ [CallBegin (MimeType pl) (Name pl) (len (Data pl))
                                                 (Metadata pl)]), None).
Proof.
  intros Hh Ha Hd. destruct (pending_begin d calls pl w Hh Ha Hd) as (replies & Hdev & Hown).
  unfold deliver. rewrite Hdev, Hown. reflexivity.
Qed.

Lemma deliver_data (i : Z) (pl : PayloadToSend) (done piece : gostring)
      (d0 : Payload (list call)) (message : list KV) (calls : list call) (w wa : gostring) :
  pending d0 message pl (len done) calls ->
  (len (done ++ piece) < 2 ^ 63)%Z ->
  DecodeBytes codec w = Ok piece ->
  Encode codec (VInt (len (done ++ piece))) = Ok wa ->
  DecodeInt codec wa = Ok (len (done ++ piece)) ->
  deliver codec recorder (at_ i (Some pl) (len (done ++ piece)) true size) d0
          (message ++ [(go "data", w)])
  = Returns (at_ i (Some pl) (len (done ++ piece)) false size,
             taking pl (len (done ++ piece)) (calls ++ [CallChunk piece]), None).
Proof.
  intros (replies & Hdev & Hown) Hl Hd Hea Hda.
  unfold deliver. rewrite deviceTurn_app, Hdev. cbn [deviceTurn].
  rewrite (device_data pl done piece calls w wa Hl Hd Hea).
  rewrite ownerTakes_app, Hown. cbn [app ownerTakes].
  rewrite (owner_ack i (Some pl) _ wa Hda). reflexivity.
Qed.

Lemma deliver_end (i : nat) (pl : PayloadToSend) (d0 : Payload (list call))
      (message : list KV) (calls : list call) :
  (i < length q)%nat ->
  pending d0 message pl (len (Data pl)) calls ->
  deliver codec recorder (at_ (Z.of_nat i) (Some pl) (len (Data pl)) false size) d0
          (message ++ [(go "end", wt)])
  = Returns (at_ (Z.of_nat (S i)) None 0 false size, delivered pl (calls ++ [CallEnd]), None).
Proof.
  intros Hlt (replies & Hdev & Hown).
  unfold deliver. rewrite deviceTurn_app, Hdev. cbn [deviceTurn].
  rewrite (device_end pl calls wt).
  rewrite ownerTakes_app, Hown. cbn [app ownerTakes].
  rewrite (owner_result i pl _ Hlt). reflexivity.
Qed.

(** The second [end] of a message stops the exchange. *)
Lemma deliver_ends (o : PayloadOwner) (pl : PayloadToSend) (d0 : Payload (list call))
      (message : list KV) (calls : list call) :
  pending d0 message pl (len (Data pl)) calls ->
  exists err,
    forall j,
      deliver codec recorder o d0 (message ++ repeat (go "end", wt) (S (S j)))
      = Returns (o, fresh (Some (calls ++ [CallEnd])) active, Some err).
Proof.
  intros (replies & Hdev & Hown).
  destruct (device_end_again pl (calls ++ [CallEnd]) wt) as (out & err & E).
  exists err. intros j.
  unfold deliver. rewrite deviceTurn_app, Hdev. cbn [repeat deviceTurn].
  rewrite (device_end pl calls wt). fold delivered. rewrite E. reflexivity.
Qed.

(** *** Turns *)

(** The turn of [begin]: the message is sent when it takes one KV, and
    is left to be filled otherwise. *)
Lemma turn_begin (i : nat) (pl : PayloadToSend) (cs : Z) (d : Payload (list call))
      (calls : list call) (sent : list KV) :
  nth_error q i = Some pl ->
  effectiveChunkSize cs = size ->
  Handler d = Some calls ->
  Active d = active ->
  exists w d0 message sent',
    pending d0 message pl 0
            (calls ++ [CallBegin (MimeType pl) (Name pl) (len (Data pl)) (Metadata pl)])
    /\ length message = (if (mtu =? 1)%nat then 0 else 1)%nat
    /\ sent' ++ message = sent ++ [(go "begin", w)]
    /\ forall k,
        run (1 + k) (at_ (Z.of_nat i) None 0 false cs) d [] sent
        = run k (at_ (Z.of_nat i) (Some pl) 0 false size) d0 message sent'.
Proof.
  intros Hnth Hcs Hh Ha.
  assert (Hin : In pl q) by (eapply nth_error_In; exact Hnth).
  destruct (begin_codec pl Hin) as (w & He & Hd).
  pose proof (produce_begin i pl cs w [] Hnth Hcs He) as Hp. cbn [app] in Hp.
  exists w. destruct (Nat.eqb_spec mtu 1) as [Hm|Hm].
  - exists (taking pl 0 (calls ++ [CallBegin (MimeType pl) (Name pl) (len (Data pl))
                                            (Metadata pl)])), [], (sent ++ [(go "begin", w)]).
    split; [apply pending_nil|]. split; [reflexivity|]. split; [apply app_nil_r|].
    intros k. unfold run. cbn [Nat.add].
    rewrite (exchange_full codec WriteChunk recorder mtu k _ _ d [] _ sent Hp)
      by (cbn [length]; lia).
    unfold afterDeliver. rewrite (deliver_begin _ d calls pl w Hh Ha Hd). reflexivity.
  - exists d, [(go "begin", w)], sent.
    split; [apply pending_begin; assumption|]. split; [reflexivity|]. split; [reflexivity|].
    intros k. unfold run. cbn [Nat.add].
    apply (exchange_continue codec WriteChunk recorder mtu k _ _ d [] _ sent Hp).
    cbn [length]. lia.
Qed.

(** The turn of one data chunk: [rest] is what is left to send.  The
    message is sent with the chunk, at once when it is full and otherwise
    at the next call, which blocks. *)
Lemma turn_data (i : Z) (pl : PayloadToSend) (done rest : gostring)
      (d0 : Payload (list call)) (message : list KV) (calls : list call) (sent : list KV) :
  In pl q ->
  Data pl = done ++ rest ->
  rest <> [] ->
  In (firstn (Z.to_nat size) rest) (pieces c (Data pl)) ->
  pending d0 message pl (len done) calls ->
  exists w n,
    DecodeBytes codec w = Ok (firstn (Z.to_nat size) rest)
    /\ forall k,
        run (n + k) (at_ i (Some pl) (len done) false size) d0 message sent
        = run k (at_ i (Some pl) (len (done ++ firstn (Z.to_nat size) rest)) false size)
              (taking pl (len (done ++ firstn (Z.to_nat size) rest))
                      (calls ++ [CallChunk (firstn (Z.to_nat size) rest)]))
              [] (sent ++ message ++ [(go "data", w)]).
Proof.
  intros Hin Hdata Hrest Hpin Hpend.
  set (piece := firstn (Z.to_nat size) rest) in *.
  destruct (bytes_codec pl piece Hin Hpin) as (w & He & Hd).
  destruct (produce_data i pl done rest w message Hin Hdata Hrest He) as [Hp Hz].
  fold piece in Hp, Hz.
  destruct (int_codec pl _ Hin Hz) as (wa & Hea & Hda).
  pose proof (data_range pl Hin) as Hdr.
  assert (Hdel := deliver_data i pl done piece d0 message calls w wa Hpend
                               ltac:(lia) Hd Hea Hda).
  exists w. destruct (Nat.lt_ge_cases (length (message ++ [(go "data", w)])) mtu) as [Hl|Hl].
  - exists 2. split; [exact Hd|]. intros k. unfold run. cbn [Nat.add].
    rewrite (exchange_continue codec WriteChunk recorder mtu (S k) _ _ d0 message _ sent Hp Hl).
    rewrite (exchange_blocked codec WriteChunk recorder mtu k _ _ d0 _ _ sent
                              (produce_blocked i (Some pl) _ _)).
    unfold afterDeliver. rewrite Hdel. reflexivity.
  - exists 1. split; [exact Hd|]. intros k. unfold run. cbn [Nat.add].
    rewrite (exchange_full codec WriteChunk recorder mtu k _ _ d0 message _ sent Hp Hl).
    unfold afterDeliver. rewrite Hdel. reflexivity.
Qed.

(** Every byte being sent and acknowledged, each call writes [end]
    until the message is full. *)
Lemma ends_loop (i : Z) (pl : PayloadToSend) (d0 : Payload (list call)) (sent : list KV) :
  forall (j : nat) (message : list KV) (k : nat),
    (length message + S j = mtu)%nat ->
    run (S j + k) (at_ i (Some pl) (len (Data pl)) false size) d0 message sent
    = afterDeliver codec WriteChunk recorder mtu k
                   (at_ i (Some pl) (len (Data pl)) false size) d0
                   (message ++ repeat (go "end", wt) (S j)) sent.
Proof.
  induction j as [|j IH]; intros message k Hl.
  - unfold run. cbn [Nat.add repeat].
    apply (exchange_full codec WriteChunk recorder mtu k _ _ d0 message _ sent
                         (produce_end i pl message)).
    rewrite length_app. cbn [length]. lia.
  - unfold run. change (S (S j) + k)%nat with (S (S j + k)).
    rewrite (exchange_continue codec WriteChunk recorder mtu (S j + k) _ _ d0 message _ sent
                               (produce_end i pl message))
      by (rewrite length_app; cbn [length]; lia).
    fold run. rewrite IH by (rewrite length_app; cbn [length]; lia).
    rewrite <- app_assoc. reflexivity.
Qed.

(** The turn of [end].  When the message has room for one more KV, [end]
    is written once and the device's result moves the owner to the next
    payload; when it has room for more, [end] is written again and the
    device refuses the second. *)
Lemma turn_ends (i : nat) (pl : PayloadToSend) (d0 : Payload (list call))
      (message : list KV) (calls : list call) (sent : list KV) :
  nth_error q i = Some pl ->
  pending d0 message pl (len (Data pl)) calls ->
  (length message < mtu)%nat ->
  (mtu - length message = 1 ->
   forall k,
     run (1 + k) (at_ (Z.of_nat i) (Some pl) (len (Data pl)) false size) d0 message sent
     = run k (at_ (Z.of_nat (S i)) None 0 false size) (delivered pl (calls ++ [CallEnd]))
           [] (sent ++ message ++ [(go "end", wt)]))%nat
  /\ (2 <= mtu - length message ->
      exists err, forall k,
        run (mtu - length message + k)
            (at_ (Z.of_nat i) (Some pl) (len (Data pl)) false size) d0 message sent
        = Returns (Failed err, at_ (Z.of_nat i) (Some pl) (len (Data pl)) false size,
                   fresh (Some (calls ++ [CallEnd])) active,
                   sent ++ message ++ repeat (go "end", wt) (mtu - length message)))%nat.
Proof.
  intros Hnth Hpend Hl.
  assert (Hlt : (i < length q)%nat) by (apply nth_error_Some; congruence).
  split.
  - intros He k.
    rewrite (ends_loop (Z.of_nat i) pl d0 sent 0 message k) by lia.
    unfold afterDeliver. cbn [repeat].
    rewrite (deliver_end i pl d0 message calls Hlt Hpend). reflexivity.
  - intros He.
    destruct (deliver_ends (at_ (Z.of_nat i) (Some pl) (len (Data pl)) false size)
                           pl d0 message calls Hpend) as (err & Hdel).
    exists err. intros k.
    destruct (mtu - length message)%nat as [|[|j]] eqn:E; try lia.
    rewrite (ends_loop (Z.of_nat i) pl d0 sent (S j) message k) by lia.
    unfold afterDeliver. rewrite Hdel. reflexivity.
Qed.

(** The turns of the data chunks and of [end] of one payload, by
    induction on the number of pieces left. *)
Lemma payload_turns (i : nat) (pl : PayloadToSend) (fuel : nat) :
  nth_error q i = Some pl ->
  forall (done rest : gostring) (d0 : Payload (list call)) (message : list KV)
         (calls : list call) (sent : list KV),
    Data pl = done ++ rest ->
    (length rest <= fuel)%nat ->
    (forall piece, In piece (chunks fuel (Z.to_nat size) rest) ->
                   In piece (pieces c (Data pl))) ->
    pending d0 message pl (len done) calls ->
    (length message < mtu)%nat ->
    forall ends : nat,
      ends = match rest with [] => (mtu - length message)%nat | _ :: _ => mtu end ->
      exists kvs n,
        Forall2 (fun kv piece => fst kv = go "data" /\ DecodeBytes codec (snd kv) = Ok piece)
                kvs (chunks fuel (Z.to_nat size) rest)
        /\ (ends = 1%nat ->
            forall k,
              run (n + k) (at_ (Z.of_nat i) (Some pl) (len done) false size) d0 message sent
              = run k (at_ (Z.of_nat (S i)) None 0 false size)
                    (delivered pl (calls ++ map CallChunk (chunks fuel (Z.to_nat size) rest)
                                         ++ [CallEnd]))
                    [] (sent ++ message ++ kvs ++ [(go "end", wt)]))
        /\ ((2 <= ends)%nat ->
            exists err, forall k,
              run (n + k) (at_ (Z.of_nat i) (Some pl) (len done) false size) d0 message sent
              = Returns (Failed err, at_ (Z.of_nat i) (Some pl) (len (Data pl)) false size,
                         fresh (Some (calls ++ map CallChunk (chunks fuel (Z.to_nat size) rest)
                                            ++ [CallEnd])) active,
                         sent ++ message ++ kvs ++ repeat (go "end", wt) ends)).
Proof.
  intros Hnth.
  assert (Hin : In pl q) by (eapply nth_error_In; exact Hnth).
  assert (Hlast : forall done d0 message calls sent ends,
             Data pl = done ->
             pending d0 message pl (len done) calls ->
             (length message < mtu)%nat ->
             ends = (mtu - length message)%nat ->
             exists (kvs : list KV) (n : nat),
               Forall2 (fun kv piece => fst kv = go "data"
                                        /\ DecodeBytes codec (snd kv) = Ok piece) kvs []
               /\ (ends = 1%nat ->
                   forall k,
                     run (n + k) (at_ (Z.of_nat i) (Some pl) (len done) false size) d0
                         message sent
                     = run k (at_ (Z.of_nat (S i)) None 0 false size)
                           (delivered pl (calls ++ map CallChunk [] ++ [CallEnd]))
                           [] (sent ++ message ++ kvs ++ [(go "end", wt)]))
               /\ ((2 <= ends)%nat ->
                   exists err, forall k,
                     run (n + k) (at_ (Z.of_nat i) (Some pl) (len done) false size) d0
                         message sent
                     = Returns (Failed err,
                                at_ (Z.of_nat i) (Some pl) (len (Data pl)) false size,
                                fresh (Some (calls ++ map CallChunk [] ++ [CallEnd])) active,
                                sent ++ message ++ kvs ++ repeat (go "end", wt) ends))).
  { intros done d0 message calls sent ends Hdone Hpend Hl He. subst done.
    destruct (turn_ends i pl d0 message calls sent Hnth Hpend Hl) as [H1 H2].
    exists [], ends. split; [constructor|]. cbn [map app]. split.
    - intros E. rewrite E in *. apply H1. congruence.
    - intros E. rewrite He in *. exact (H2 E). }
  pose proof (size_pos c c_range) as Hsize. fold size in Hsize.
  induction fuel as [|fuel IH];
    intros done rest d0 message calls sent Hdata Hlen Hpin Hpend Hl ends He.
  - destruct rest; [|cbn [length] in Hlen; lia].
    rewrite app_nil_r in Hdata. cbn [chunks].
    exact (Hlast done d0 message calls sent ends Hdata Hpend Hl He).
  - destruct rest as [|b rest'].
    + rewrite app_nil_r in Hdata. cbn [chunks].
      exact (Hlast done d0 message calls sent ends Hdata Hpend Hl He).
    + set (rest := b :: rest') in *.
      change (chunks (S fuel) (Z.to_nat size) rest)
        with (firstn (Z.to_nat size) rest
              :: chunks fuel (Z.to_nat size) (skipn (Z.to_nat size) rest)) in *.
      set (piece := firstn (Z.to_nat size) rest) in *.
      destruct (turn_data (Z.of_nat i) pl done rest d0 message calls sent Hin Hdata)
        as (w & n1 & Hd & Hx); try assumption.
      { discriminate. }
      { apply Hpin. left. reflexivity. }
      fold piece in Hd, Hx.
      destruct (IH (done ++ piece) (skipn (Z.to_nat size) rest)
                   (taking pl (len (done ++ piece)) (calls ++ [CallChunk piece])) []
                   (calls ++ [CallChunk piece]) (sent ++ message ++ [(go "data", w)]))
        with (ends := ends) as (kvs & n2 & Hf & H1 & H2).
      { rewrite <- app_assoc. unfold piece. rewrite firstn_skipn. exact Hdata. }
      { rewrite length_skipn. subst rest. cbn [length] in *. lia. }
      { intros p Hp. apply Hpin. right. exact Hp. }
      { apply pending_nil. }
      { cbn [length]. lia. }
      { rewrite He. subst rest. cbv iota. cbn [length].
        destruct (skipn (Z.to_nat size) (b :: rest')); [lia | reflexivity]. }
      exists ((go "data", w) :: kvs), (n1 + n2)%nat.
      split; [constructor; [split; [reflexivity | exact Hd] | exact Hf]|].
      split.
      * intros E k. rewrite <- Nat.add_assoc, Hx, (H1 E k). cbn [map app].
        rewrite <- !app_assoc. reflexivity.
      * intros E. destruct (H2 E) as (err & Hr). exists err. intros k.
        rewrite <- Nat.add_assoc, Hx, (Hr k). cbn [map app].
        rewrite <- !app_assoc. reflexivity.
Qed.

(** One payload, from [begin] to [end]. *)
Lemma payload_exchange (i : nat) (pl : PayloadToSend) (cs : Z) (d : Payload (list call))
      (calls : list call) (sent : list KV) :
  nth_error q i = Some pl ->
  effectiveChunkSize cs = size ->
  Handler d = Some calls ->
  Active d = active ->
  exists kvs n,
    map fst kvs = go "begin" :: repeat (go "data") (length (pieces c (Data pl)))
    /\ Forall2 (fun body piece => DecodeBytes codec body = Ok piece)
               (bodiesOf (go "data") kvs) (pieces c (Data pl))
    /\ (endsFor mtu pl = 1%nat ->
        forall k,
          run (n + k) (at_ (Z.of_nat i) None 0 false cs) d [] sent
          = run k (at_ (Z.of_nat (S i)) None 0 false size)
                (delivered pl (calls ++ callsFor c pl)) [] (sent ++ kvs ++ [(go "end", wt)]))
    /\ ((2 <= endsFor mtu pl)%nat ->
        exists err, forall k,
          run (n + k) (at_ (Z.of_nat i) None 0 false cs) d [] sent
          = Returns (Failed err, at_ (Z.of_nat i) (Some pl) (len (Data pl)) false size,
                     fresh (Some (calls ++ callsFor c pl)) active,
                     sent ++ kvs ++ repeat (go "end", wt) (endsFor mtu pl))).
Proof.
  intros Hnth Hcs Hh Ha.
  destruct (turn_begin i pl cs d calls sent Hnth Hcs Hh Ha)
    as (w & d0 & message & sent' & Hpend & Hlm & Hsent & Hb).
  set (calls1 := calls ++ [CallBegin (MimeType pl) (Name pl) (len (Data pl)) (Metadata pl)])
    in *.
  assert (Hl : (length message < mtu)%nat).
  { rewrite Hlm. destruct (Nat.eqb_spec mtu 1); lia. }
  destruct (payload_turns i pl (length (Data pl)) Hnth [] (Data pl) d0 message calls1 sent'
                          eq_refl (Nat.le_refl _) (fun piece Hp => Hp) Hpend Hl
                          (endsFor mtu pl))
    as (dkvs & n & Hf & H1 & H2).
  { unfold endsFor. rewrite Hlm. unfold len.
    destruct (Data pl) as [|b data']; cbn [length].
    - destruct (Nat.eqb_spec mtu 1) as [->|Hm]; reflexivity.
    - destruct (Nat.eqb_spec mtu 1) as [->|Hm]; [reflexivity|].
      destruct (Z.ltb_spec 0 (Z.of_nat (S (length data')))); [reflexivity | lia]. }
  change (chunks (length (Data pl)) (Z.to_nat size) (Data pl)) with (pieces c (Data pl))
    in Hf, H1, H2.
  change (len []) with 0%Z in H1, H2.
  destruct (Forall2_data_keys codec dkvs (pieces c (Data pl)) Hf) as (Hk1 & Hk2 & Hk3).
  assert (Hcalls : forall tail, calls1 ++ tail
                                = calls ++ CallBegin (MimeType pl) (Name pl) (len (Data pl))
                                                     (Metadata pl) :: tail).
  { intros tail. unfold calls1. rewrite <- app_assoc. reflexivity. }
  assert (Hs : forall tail, sent' ++ message ++ tail = sent ++ ((go "begin", w) :: tail)).
  { intros tail. rewrite app_assoc, Hsent, <- app_assoc. reflexivity. }
  exists ((go "begin", w) :: dkvs), (1 + n)%nat.
  split; [cbn [map fst]; rewrite Hk1; reflexivity|].
  split.
  { unfold bodiesOf in *. cbn [filter].
    change (gostring_eqb (fst (go "begin", w)) (go "data")) with false. cbv iota.
    rewrite Hk2. exact Hk3. }
  split.
  - intros E k. rewrite <- Nat.add_assoc, Hb, (H1 E k), Hcalls, Hs. reflexivity.
  - intros E. destruct (H2 E) as (err & Hr). exists err. intros k.
    rewrite <- Nat.add_assoc, Hb, (Hr k), Hcalls, Hs. reflexivity.
Qed.

(** With a message that takes one KV, the payloads from index
    [length pre] on go one after the other, and the module then reports
    that it is done. *)
Lemma queue_exchange (rest : list PayloadToSend) :
  mtu = 1%nat ->
  forall (pre : list PayloadToSend) (cs : Z) (d : Payload (list call)) (calls : list call)
         (sent : list KV),
    q = pre ++ rest ->
    effectiveChunkSize cs = size ->
    Handler d = Some calls ->
    Active d = active ->
    exists o' d' kvs n,
      (forall k, run (n + k) (at_ (len pre) None 0 false cs) d [] sent
                 = Returns (ModuleDone, o', d', sent ++ kvs))
      /\ currentIndex o' = len q
      /\ currentPayload o' = None
      /\ Handler d' = Some (calls ++ flat_map (callsFor c) rest)
      /\ map fst kvs = flat_map (keysFor c) rest
      /\ Forall2 (fun body piece => DecodeBytes codec body = Ok piece)
                 (bodiesOf (go "data") kvs) (flat_map (fun pl => pieces c (Data pl)) rest).
Proof.
  intros Hm.
  induction rest as [|pl rest IH]; intros pre cs d calls sent Hq Hcs Hh Ha.
  - rewrite app_nil_r in Hq. subst pre.
    exists (at_ (len q) None 0 false cs), d, [], 1%nat. cbn [flat_map]. split.
    + intros k. unfold run. cbn [Nat.add]. rewrite app_nil_r.
      apply (exchange_done codec WriteChunk recorder mtu k _ _ d false sent).
      apply produce_done.
    + rewrite app_nil_r. repeat split; try assumption. constructor.
  - assert (Hnth : nth_error q (length pre) = Some pl).
    { rewrite Hq, nth_error_app2 by lia. rewrite Nat.sub_diag. reflexivity. }
    destruct (payload_exchange (length pre) pl cs d calls sent Hnth Hcs Hh Ha)
      as (pkvs & n1 & Hk1 & Hb1 & H1 & _).
    assert (He : endsFor mtu pl = 1%nat) by (unfold endsFor; rewrite Hm; reflexivity).
    specialize (H1 He).
    destruct (IH (pre ++ [pl]) size (delivered pl (calls ++ callsFor c pl))
                 (calls ++ callsFor c pl) (sent ++ pkvs ++ [(go "end", wt)]))
      as (o' & d' & kvs & n2 & Hx & Hi & Hc & Hh' & Hk & Hbodies).
    { rewrite <- app_assoc. exact Hq. }
    { apply effectiveChunkSize_idem. }
    { reflexivity. }
    { reflexivity. }
    assert (Hlen : len (pre ++ [pl]) = Z.of_nat (S (length pre))).
    { rewrite len_app. unfold len. cbn [length]. lia. }
    rewrite Hlen in Hx.
    exists o', d', (pkvs ++ [(go "end", wt)] ++ kvs), (n1 + n2)%nat.
    split; [|split; [exact Hi | split; [exact Hc | split; [|split]]]].
    + intros k. unfold len at 1. rewrite <- Nat.add_assoc, H1, Hx.
      rewrite <- !app_assoc. reflexivity.
    + rewrite Hh'. cbn [flat_map]. rewrite <- app_assoc. reflexivity.
    + cbn [flat_map]. rewrite !map_app, Hk1, Hk. unfold keysFor.
      cbn [map app fst]. rewrite <- app_assoc. reflexivity.
    + unfold bodiesOf in *. cbn [flat_map].
      rewrite !filter_app, !map_app. cbn [filter].
      change (gostring_eqb (fst (go "end", wt)) (go "data")) with false. cbv iota.
      cbn [map app]. apply Forall2_app; [exact Hb1 | exact Hbodies].
Qed.

End PayloadExchange.








(** ... and when a message takes three KVs, [end] is written three times
    in the last turn: the device has the payload and refuses the second
    [end]. *)
Lemma payload_end_repeated :
  exists o' d' sent,
    fsim.exchange shortCodec.codec shortCodec.WriteChunk fsim.recorder 3 20
                  (ownerWith shortCodec.hello 2) (fsim.fresh (Some []) true) [] []
    = Returns (fsim.Failed (Errorf "payload error: %s"), o', d', sent)
    /\ map fst sent = [go "begin"; go "data"; go "data"; go "data";
                       go "end"; go "end"; go "end"]
    /\ fsim.Handler d'
       = Some [fsim.CallBegin (go "text/plain") (go "hello.txt") 5
                              (Some [(go "version", go "1.0")]);
               fsim.CallChunk (go "he"); fsim.CallChunk (go "ll"); fsim.CallChunk (go "o");
               fsim.CallEnd].
Proof. eexists _, _, _. split; [vm_compute; reflexivity|]. split; reflexivity. Qed.


(** * Further properties of the code *)

(** ** More laws of the identifier rule *)

Lemma permittedBy_refl (pre post : list gostring) (c : gostring) :
  forallb utf8.ValidString pre = true ->
  utf8.ValidString c = true ->
  permittedBy (pre ++ c :: post) c = Some true.
Proof.
  intros Hpre Hc. apply permittedBy_true. exists pre, c, post.
  repeat split; try assumption. apply glob_refl.
Qed.

Lemma allPermitted_refl (cs : list gostring) :
  forallb utf8.ValidString cs = true -> allPermitted cs cs = true.
Proof.
  intros H. apply allPermitted_true, Forall_forall. intros c Hc.
  destruct (in_split _ _ Hc) as (pre & post & E).
  rewrite E in H |- *. rewrite forallb_app in H. cbn [forallb] in H.
  apply andb_prop in H. destruct H as [Hpre H]. apply andb_prop in H.
  apply permittedBy_refl; [exact Hpre | exact (proj1 H)].
Qed.

Lemma allPermitted_app (cs1 cs2 ps : list gostring) :
  allPermitted (cs1 ++ cs2) ps = allPermitted cs1 ps && allPermitted cs2 ps.
Proof.
  induction cs1 as [|c cs1 IH]; [reflexivity|].
  cbn [app allPermitted]. destruct (permittedBy ps c) as [[|]|]; [exact IH | reflexivity..].
Qed.

Lemma permittedBy_app_l (ps qs : list gostring) (c : gostring) :
  permittedBy ps c = Some true -> permittedBy (ps ++ qs) c = Some true.
Proof.
  rewrite !permittedBy_true. intros (pre & p & post & -> & H).
  exists pre, p, (post ++ qs). rewrite <- app_assoc. split; [reflexivity | exact H].
Qed.

Lemma stripSpaces_join (a b : gostring) :
  stripSpaces (a ++ go "," ++ b) = stripSpaces a ++ ","%char :: stripSpaces b.
Proof.
  rewrite stripSpaces_app. change (go "," ++ b) with ([","%char] ++ b).
  rewrite stripSpaces_app. reflexivity.
Qed.

(** X1: The identifier rule is a preorder on the lists whose terms are valid
    UTF-8: every such list permits itself, and what is permitted by a list
    is permitted by every list that permits that one. *)
Theorem IsPermittedIdentifierRule_preorder :
  (forall x : gostring,
      termsValid x = true -> IsPermittedIdentifierRule x x = true)
  /\ (forall a b c : gostring,
         IsPermittedIdentifierRule a b = true ->
         IsPermittedIdentifierRule b c = true ->
         IsPermittedIdentifierRule a c = true).
Proof.
  split.
  - intros x H. rewrite IsPermittedIdentifierRule_unfold. apply allPermitted_refl, H.
  - exact IsPermittedIdentifierRule_trans.
Qed.

Lemma IsPermittedIdentifierRule_preorder_witness :
  IsPermittedIdentifierRule (go "DNS:*.dom, ID:7") (go "DNS:*.dom, ID:7") = true
  /\ IsPermittedIdentifierRule (go "DNS:a.b.dom") (go "DNS:*.dom") = true.
Proof.
  split.
  - apply (proj1 IsPermittedIdentifierRule_preorder). reflexivity.
  - apply (proj2 IsPermittedIdentifierRule_preorder _ (go "DNS:*.b.dom")); reflexivity.
Defined.

(** X2: A list of children is permitted exactly when each part of it is. *)
Theorem IsPermittedIdentifierRule_children (c1 c2 parent : gostring) :
  IsPermittedIdentifierRule (c1 ++ go "," ++ c2) parent
  = IsPermittedIdentifierRule c1 parent && IsPermittedIdentifierRule c2 parent.
Proof.
  rewrite !IsPermittedIdentifierRule_unfold, stripSpaces_join, Split_join.
  apply allPermitted_app.
Qed.

(** X3: Terms added at the end of the parent list take nothing away: the
    terms are tried in order and the search stops at the first match. *)
Theorem IsPermittedIdentifierRule_more_parents (child parent more : gostring) :
  IsPermittedIdentifierRule child parent = true ->
  IsPermittedIdentifierRule child (parent ++ go "," ++ more) = true.
Proof.
  rewrite !IsPermittedIdentifierRule_unfold, stripSpaces_join, Split_join.
  rewrite !allPermitted_true, !Forall_forall.
  intros H c Hc. apply permittedBy_app_l, H, Hc.
Qed.

Lemma IsPermittedIdentifierRule_more_parents_witness :
  IsPermittedIdentifierRule (go "DNS:a.dom") (go "DNS:*.dom" ++ go "," ++ ["255"%char]) = true.
Proof.
  apply (IsPermittedIdentifierRule_more_parents (go "DNS:a.dom") (go "DNS:*.dom")).
  reflexivity.
Defined.

Lemma anyMatches_permittedBy (names : list gostring) (name : gostring) :
  anyMatches names name
  = match permittedBy names name with Some true => true | _ => false end.
Proof.
  induction names as [|d names IH]; [reflexivity|].
  rewrite anyMatches_cons, permittedBy_cons.
  destruct (utf8.ValidString d); [|reflexivity].
  destruct (glob (utf8.runes d) (utf8.runes name)); [reflexivity | exact IH].
Qed.

(** X4: On a single name the two predicates of delegate.go agree. *)
Theorem IsPermittedIdentifier_is_rule (name permittedNames : gostring) :
  noComma (stripSpaces name) = true ->
  IsPermittedIdentifier name permittedNames
  = IsPermittedIdentifierRule name permittedNames.
Proof.
  intros H. rewrite IsPermittedIdentifier_unfold, IsPermittedIdentifierRule_unfold.
  rewrite (noComma_Split _ H). cbn [allPermitted]. rewrite anyMatches_permittedBy.
  destruct (permittedBy _ _) as [[|]|]; reflexivity.
Qed.

Lemma IsPermittedIdentifier_is_rule_witness :
  IsPermittedIdentifier (go "DNS: a.dom") (go "ID:*, DNS:*.dom")
  = IsPermittedIdentifierRule (go "DNS: a.dom") (go "ID:*, DNS:*.dom").
Proof. apply IsPermittedIdentifier_is_rule. reflexivity. Defined.

(** X5: Spaces count nowhere: in neither argument of either predicate. *)
Theorem identifier_rules_ignore_spaces (a b other : gostring) :
  IsPermittedIdentifierRule (a ++ go " " ++ b) other = IsPermittedIdentifierRule (a ++ b) other
  /\ IsPermittedIdentifierRule other (a ++ go " " ++ b) = IsPermittedIdentifierRule other (a ++ b)
  /\ IsPermittedIdentifier (a ++ go " " ++ b) other = IsPermittedIdentifier (a ++ b) other
  /\ IsPermittedIdentifier other (a ++ go " " ++ b) = IsPermittedIdentifier other (a ++ b).
Proof.
  assert (E : stripSpaces (a ++ go " " ++ b) = stripSpaces (a ++ b)).
  { rewrite !stripSpaces_app. reflexivity. }
  rewrite !IsPermittedIdentifierRule_unfold, !IsPermittedIdentifier_unfold, E.
  repeat split.
Qed.

(** X6: What the regular expressions of [IsPermittedIdentifierRule] come
    to: a child list is permitted exactly when each of its terms is
    matched, as a wildcard pattern in which the star stands for any run of
    characters other than newline and every other character for itself, by
    a term of the parent list that is valid UTF-8 and has only valid terms
    in front of it. *)
Theorem IsPermittedIdentifierRule_wildcards (child parent : gostring) :
  IsPermittedIdentifierRule child parent = true <->
  forall c, In c (strings.Split (stripSpaces child) ","%char) ->
            exists pre p post,
              strings.Split (stripSpaces parent) ","%char = pre ++ p :: post
              /\ forallb utf8.ValidString pre = true
              /\ utf8.ValidString p = true
              /\ glob (utf8.runes p) (utf8.runes c) = true.
Proof.
  rewrite IsPermittedIdentifierRule_unfold, allPermitted_true, Forall_forall.
  split; intros H c Hc; apply permittedBy_true, H, Hc.
Qed.

Section DelegateChainStructure.

Variable CheckSignatureFrom : Certificate -> Certificate -> option error.

(** What one successful turn of the loop has checked of the certificate
    itself and of its link to the next one. *)
Lemma walkStep_checks (chain : list Certificate) (oid : option ObjectIdentifier)
      (i : nat) (c : Certificate) (prevOwner next : gostring) :
  walkStep CheckSignatureFrom chain oid i c prevOwner = Ok next ->
  Z.land (KeyUsage c) KeyUsageDigitalSignature <> 0%Z
  /\ BasicConstraintsValid c = true
  /\ (i <> 0 -> IsCA c = true /\ Z.land (KeyUsage c) KeyUsageCertSign <> 0%Z)
  /\ (forall parent, nth_error chain (S i) = Some parent ->
        CheckSignatureFrom c parent = None
        /\ IssuerCommonName c = SubjectCommonName parent).
Proof.
  unfold walkStep.
  match goal with |- context [match ?x with Ok _ => _ | Err _ => _ end] =>
    destruct x as [constrs|]; [|discriminate] end.
  match goal with |- context [if ?b then Err _ else _] =>
    destruct b; [discriminate|] end.
  cbv zeta.
  match goal with |- context [if ?b then Err _ else _] =>
    destruct b; [discriminate|] end.
  match goal with |- context [match ?x with Some e => Err e | None => _ end] =>
    destruct x eqn:Elink; [discriminate|] end.
  match goal with |- context [if ?b then Err _ else _] =>
    destruct b; [discriminate|] end.
  destruct (Z.eqb (Z.land (KeyUsage c) KeyUsageDigitalSignature) 0) eqn:Eds; [discriminate|].
  destruct (BasicConstraintsValid c) eqn:Ebc; [|discriminate]. cbn [negb].
  destruct (negb (Nat.eqb i 0) && negb (IsCA c)) eqn:Eca; [discriminate|].
  destruct (negb (Nat.eqb i 0) && Z.eqb (Z.land (KeyUsage c) KeyUsageCertSign) 0) eqn:Ecs;
    [discriminate|].
  intros _. split; [apply Z.eqb_neq, Eds|]. split; [reflexivity|]. split.
  - intros Hi. apply Nat.eqb_neq in Hi. rewrite Hi in Eca, Ecs. cbn [negb andb] in Eca, Ecs.
    split; [apply negb_false_iff, Eca | apply Z.eqb_neq, Ecs].
  - intros parent Hp.
    assert (Hlt : S i < length chain) by (apply nth_error_Some; congruence).
    assert (Hi : Nat.eqb i (length chain - 1) = false) by (apply Nat.eqb_neq; lia).
    rewrite Hi in Elink. cbn [negb] in Elink.
    replace (i + 1) with (S i) in Elink by lia. rewrite Hp in Elink.
    destruct (CheckSignatureFrom c parent); [discriminate|].
    split; [reflexivity|].
    destruct (gostring_eqb (IssuerCommonName c) (SubjectCommonName parent)) eqn:E;
      [|discriminate].
    apply gostring_eqb_eq, E.
Qed.

(** The loop from index [length pre] on, over the rest of the chain. *)
Lemma walk_checks (chain : list Certificate) (oid : option ObjectIdentifier)
      (rest : list Certificate) :
  forall (pre : list Certificate) (prevOwner r : gostring),
    chain = pre ++ rest ->
    walk CheckSignatureFrom chain oid (length pre) rest prevOwner = Ok r ->
    forall (k : nat) (c : Certificate),
      nth_error rest k = Some c ->
      Z.land (KeyUsage c) KeyUsageDigitalSignature <> 0%Z
      /\ BasicConstraintsValid c = true
      /\ (length pre + k <> 0 -> IsCA c = true /\ Z.land (KeyUsage c) KeyUsageCertSign <> 0%Z)
      /\ (forall parent, nth_error rest (S k) = Some parent ->
            CheckSignatureFrom c parent = None
            /\ IssuerCommonName c = SubjectCommonName parent).
Proof.
  induction rest as [|c0 rest IH]; intros pre prevOwner r Hchain Hw k c Hk.
  - destruct k; discriminate.
  - cbn [walk] in Hw.
    destruct (walkStep CheckSignatureFrom chain oid (length pre) c0 prevOwner)
      as [next|] eqn:Es; [|discriminate].
    destruct k as [|k].
    + cbn [nth_error] in Hk. inversion Hk; subst c0. clear Hk.
      destruct (walkStep_checks _ _ _ _ _ _ Es) as (H1 & H2 & H3 & H4).
      split; [exact H1|]. split; [exact H2|]. split.
      * intros Hi. apply H3. lia.
      * intros parent Hp. apply H4. rewrite Hchain.
        rewrite nth_error_app2 by lia.
        replace (S (length pre) - length pre) with 1 by lia. exact Hp.
    + cbn [nth_error] in Hk.
      assert (Hchain' : chain = (pre ++ [c0]) ++ rest).
      { rewrite <- app_assoc. exact Hchain. }
      assert (Hlen : length (pre ++ [c0]) = S (length pre)).
      { rewrite length_app. cbn [length]. lia. }
      rewrite <- Hlen in Hw.
      destruct (IH _ _ _ Hchain' Hw k c Hk) as (H1 & H2 & H3 & H4).
      split; [exact H1|]. split; [exact H2|]. split.
      * intros _. apply H3. lia.
      * exact H4.
Qed.

End DelegateChainStructure.

(** X7: When [VerifyDelegateChain] accepts a chain, every certificate of it
    may sign (digital signature key usage) under valid basic constraints,
    every certificate but the leaf is a CA that may sign certificates, and
    each certificate is issued by, and its signature verified against, the
    certificate that follows it. *)
Theorem VerifyDelegateChain_structure
        (CheckSignatureFrom : Certificate -> Certificate -> option error)
        (ecdsaGenerateKey rsaGenerateKey : result Signer)
        (GenerateDelegate : Signer -> Z -> PublicKey -> gostring -> gostring ->
                            list ObjectIdentifier -> Z -> gostring -> result Certificate)
        (chain : list Certificate) (ownerKey : option PublicKey)
        (oid : option ObjectIdentifier) (namedOwner : option gostring) :
  VerifyDelegateChain CheckSignatureFrom ecdsaGenerateKey rsaGenerateKey GenerateDelegate
                      chain ownerKey oid namedOwner = None ->
  forall (i : nat) (c : Certificate),
    nth_error chain i = Some c ->
    Z.land (KeyUsage c) KeyUsageDigitalSignature <> 0%Z
    /\ BasicConstraintsValid c = true
    /\ (i <> 0 -> IsCA c = true /\ Z.land (KeyUsage c) KeyUsageCertSign <> 0%Z)
    /\ (forall parent, nth_error chain (S i) = Some parent ->
          CheckSignatureFrom c parent = None
          /\ IssuerCommonName c = SubjectCommonName parent).
Proof.
  unfold VerifyDelegateChain, processDelegateChain.
  destruct chain as [|c0 rest]; [discriminate|].
  destruct (withOwnerRoot _ _ _ _ _ _ _) as [chain'|e] eqn:Ew; [|discriminate].
  destruct (walk _ _ _ _ _ _) as [r|e] eqn:Hw; [|discriminate].
  intros _ i c Hi.
  assert (Hc : exists extra, chain' = (c0 :: rest) ++ extra).
  { destruct (withOwnerRoot_ok _ _ _ _ _ _ _ _ Ew) as [->|[rootOwner ->]].
    - exists []. rewrite app_nil_r. reflexivity.
    - exists [rootOwner]. reflexivity. }
  destruct Hc as [extra ->].
  assert (Hlt : i < length (c0 :: rest)) by (apply nth_error_Some; congruence).
  assert (Hi' : nth_error ((c0 :: rest) ++ extra) i = Some c).
  { rewrite nth_error_app1 by exact Hlt. exact Hi. }
  destruct (walk_checks CheckSignatureFrom _ oid _ [] [] r eq_refl Hw i c Hi')
    as (H1 & H2 & H3 & H4).
  split; [exact H1|]. split; [exact H2|]. split; [exact H3|].
  intros parent Hp. apply H4.
  assert (Hlt' : S i < length (c0 :: rest)) by (apply nth_error_Some; congruence).
  rewrite nth_error_app1 by exact Hlt'. exact Hp.
Qed.

Lemma VerifyDelegateChain_structure_witness :
  IsCA (caCert "intermediate" "root"
          [mkExtension OID_IdentifierConstraints (go "DNS:*.sub.sub.dom1");
           mkExtension OID_delegateOnboard []]) = true
  /\ Z.land (KeyUsage (caCert "intermediate" "root"
          [mkExtension OID_IdentifierConstraints (go "DNS:*.sub.sub.dom1");
           mkExtension OID_delegateOnboard []])) KeyUsageCertSign <> 0%Z.
Proof.
  refine (proj1 (proj2 (proj2
    (VerifyDelegateChain_structure acceptSignature (Err (Errorf "no key"))
       (Err (Errorf "no key")) (fun _ _ _ _ _ _ _ _ => Err (Errorf "no certificate"))
       goodChain None (Some OID_delegateOnboard) None _ 1 _ _))) _).
  - vm_compute. reflexivity.
  - reflexivity.
  - discriminate.
Defined.

(** X8: With an owner key, an accepted chain ends in a certificate that was
    verified against the certificate generated for that key. *)
Theorem VerifyDelegateChain_owner_root
        (CheckSignatureFrom : Certificate -> Certificate -> option error)
        (ecdsaGenerateKey rsaGenerateKey : result Signer)
        (GenerateDelegate : Signer -> Z -> PublicKey -> gostring -> gostring ->
                            list ObjectIdentifier -> Z -> gostring -> result Certificate)
        (chain : list Certificate) (c0 : Certificate) (public : PublicKey)
        (oid : option ObjectIdentifier) (namedOwner : option gostring) :
  VerifyDelegateChain CheckSignatureFrom ecdsaGenerateKey rsaGenerateKey GenerateDelegate
                      chain (Some public) oid namedOwner = None ->
  exists (rootPriv : Signer) (rootOwner : Certificate),
    (ecdsaGenerateKey = Ok rootPriv \/ rsaGenerateKey = Ok rootPriv)
    /\ GenerateDelegate rootPriv DelegateFlagRoot public
         (IssuerCommonName (lastCert chain c0)) (IssuerCommonName (lastCert chain c0))
         (match oid with Some oid => [oid] | None => [] end) 0%Z
         (getIdentConstraints (lastCert chain c0)) = Ok rootOwner
    /\ CheckSignatureFrom (lastCert chain c0) rootOwner = None
    /\ IssuerCommonName (lastCert chain c0) = SubjectCommonName rootOwner
    /\ IsCA rootOwner = true.
Proof.
  unfold VerifyDelegateChain, processDelegateChain.
  destruct chain as [|c1 rest]; [discriminate|].
  assert (El : forall d, lastCert (c1 :: rest) d = lastCert (c1 :: rest) c0).
  { intros d. unfold lastCert. generalize c1. clear.
    induction rest as [|x rest IH]; intros c1; [reflexivity|].
    change (last (c1 :: x :: rest) d) with (last (x :: rest) d).
    change (last (c1 :: x :: rest) c0) with (last (x :: rest) c0). apply IH. }
  unfold withOwnerRoot. rewrite (El c1).
  set (lastc := lastCert (c1 :: rest) c0) in *.
  match goal with |- context [match ?x with Ok _ => _ | Err _ => _ end] =>
    destruct x as [[rootPriv|?]|?] eqn:Ekey; try discriminate end.
  destruct (GenerateDelegate _ _ _ _ _ _ _ _) as [rootOwner|?] eqn:Egen; [|discriminate].
  destruct (walk _ _ _ _ _ _) as [r|e] eqn:Hw; [|discriminate].
  intros _. exists rootPriv, rootOwner.
  split.
  { destruct public; inversion Ekey; [left | right]; reflexivity. }
  split; [exact Egen|].
  set (n := length rest).
  assert (Hlast : nth_error ((c1 :: rest) ++ [rootOwner]) n = Some lastc).
  { unfold lastc, lastCert, n. clear. revert c1.
    induction rest as [|x rest IH]; intros c1; [reflexivity|].
    change (last (c1 :: x :: rest) c0) with (last (x :: rest) c0).
    cbn [length app nth_error]. apply IH. }
  assert (Hroot : nth_error ((c1 :: rest) ++ [rootOwner]) (S n) = Some rootOwner).
  { unfold n. clear. revert c1.
    induction rest as [|x rest IH]; intros c1; [reflexivity|].
    cbn [length app nth_error]. apply (IH x). }
  destruct (walk_checks CheckSignatureFrom _ oid _ [] [] r eq_refl Hw n lastc Hlast)
    as (_ & _ & _ & H4).
  destruct (H4 rootOwner Hroot) as [Hs Hn].
  split; [exact Hs|]. split; [exact Hn|].
  destruct (walk_checks CheckSignatureFrom _ oid _ [] [] r eq_refl Hw (S n) rootOwner Hroot)
    as (_ & _ & H3 & _).
  apply H3. cbn [length]. lia.
Qed.

Lemma VerifyDelegateChain_owner_root_witness :
  exists (rootPriv : Signer) (rootOwner : Certificate),
    (Ok sampleKey = Ok rootPriv \/ Err (Errorf "no key") = Ok rootPriv)
    /\ sampleGenerateDelegate rootPriv DelegateFlagRoot (ecdsaPublicKey P256 3 4)
         (go "root") (go "root") [OID_delegateOnboard] 0%Z
         (go "DNS:*.sub.dom1,DNS:*.sub.dom2") = Ok rootOwner
    /\ acceptSignature (lastCert goodChain (caCert "root" "root" [])) rootOwner = None
    /\ go "root" = SubjectCommonName rootOwner
    /\ IsCA rootOwner = true.
Proof.
  apply (VerifyDelegateChain_owner_root acceptSignature (Ok sampleKey) (Err (Errorf "no key"))
           sampleGenerateDelegate goodChain (caCert "root" "root" [])
           (ecdsaPublicKey P256 3 4) (Some OID_delegateOnboard) None).
  vm_compute. reflexivity.
Defined.

Section DelegateChainNames.

Variable CheckSignatureFrom : Certificate -> Certificate -> option error.

(** The loop hands the name of each certificate to the next turn, where
    it is checked against the constraints found there. *)
Lemma walk_names (chain : list Certificate) (oid : option ObjectIdentifier)
      (rest : list Certificate) :
  forall (pre : list Certificate) (prevOwner r : gostring),
    chain = pre ++ rest ->
    walk CheckSignatureFrom chain oid (length pre) rest prevOwner = Ok r ->
    forall (k : nat) (child parent : Certificate),
      nth_error rest k = Some child ->
      nth_error rest (S k) = Some parent ->
      nonEmpty (getIdentConstraints parent) = true ->
      nonEmpty (nameAt (length pre + k) child) = true
      /\ IsPermittedIdentifierRule (nameAt (length pre + k) child)
                                   (getIdentConstraints parent) = true.
Proof.
  induction rest as [|c0 rest IH]; intros pre prevOwner r Hchain Hw k child parent Hk Hp Hne.
  - destruct k; discriminate.
  - assert (Hnil : chain <> []) by (rewrite Hchain; destruct pre; discriminate).
    cbn [walk] in Hw.
    destruct (walkStep CheckSignatureFrom chain oid (length pre) c0 prevOwner)
      as [next|] eqn:Es; [|discriminate].
    assert (Hchain' : chain = (pre ++ [c0]) ++ rest).
    { rewrite <- app_assoc. exact Hchain. }
    assert (Hlen : length (pre ++ [c0]) = S (length pre)).
    { rewrite length_app. cbn [length]. lia. }
    rewrite <- Hlen in Hw.
    destruct k as [|k].
    + cbn [nth_error] in Hk, Hp. inversion Hk; subst c0. clear Hk.
      destruct rest as [|c1 rest']; [discriminate|].
      cbn [nth_error] in Hp. inversion Hp; subst c1. clear Hp.
      destruct (walkStep_ok CheckSignatureFrom chain oid (length pre) child prevOwner next
                            Hnil Es) as (Hnext & _ & _ & _).
      cbv zeta in Hnext.
      assert (Hname : next = nameAt (length pre) child).
      { rewrite Hnext. unfold nameAt. destruct (Nat.eqb (length pre) 0) eqn:E; [|reflexivity].
        apply Nat.eqb_eq in E. destruct pre; [|discriminate].
        rewrite Hchain. reflexivity. }
      cbn [walk] in Hw.
      destruct (walkStep CheckSignatureFrom chain oid (length (pre ++ [child])) parent next)
        as [next'|] eqn:Es'; [|discriminate].
      destruct (walkStep_ok CheckSignatureFrom chain oid (length (pre ++ [child])) parent next
                            next' Hnil Es') as (_ & Hperm & Hprev & _).
      cbv zeta in Hperm, Hprev.
      assert (E : Nat.eqb (length (pre ++ [child])) 0 = false)
        by (apply Nat.eqb_neq; lia).
      rewrite E in Hperm, Hprev.
      rewrite Nat.add_0_r, <- Hname.
      assert (Hn : nonEmpty next = true) by (apply Hprev; [lia | exact Hne]).
      split; [exact Hn | exact (Hperm Hne Hn)].
    + cbn [nth_error] in Hk. change (nth_error (c0 :: rest) (S (S k)))
        with (nth_error rest (S k)) in Hp.
      destruct (IH _ _ _ Hchain' Hw k child parent Hk Hp Hne) as [H1 H2].
      rewrite Hlen in H1, H2.
      replace (length pre + S k) with (S (length pre) + k) by lia.
      split; assumption.
Qed.

End DelegateChainNames.

(** X9: In a chain that [VerifyDelegateChain] accepts, the constraints
    narrow from the root down: under a certificate that declares
    identifier constraints, the certificate below declares a name (its
    identifier when it is the leaf, its own constraints otherwise) and
    that name is permitted by the constraints above it.  So a leaf without
    an identifier is not accepted under a constrained certificate. *)
Theorem VerifyDelegateChain_names_narrow
        (CheckSignatureFrom : Certificate -> Certificate -> option error)
        (ecdsaGenerateKey rsaGenerateKey : result Signer)
        (GenerateDelegate : Signer -> Z -> PublicKey -> gostring -> gostring ->
                            list ObjectIdentifier -> Z -> gostring -> result Certificate)
        (chain : list Certificate) (ownerKey : option PublicKey)
        (oid : option ObjectIdentifier) (namedOwner : option gostring) :
  VerifyDelegateChain CheckSignatureFrom ecdsaGenerateKey rsaGenerateKey GenerateDelegate
                      chain ownerKey oid namedOwner = None ->
  forall (i : nat) (child parent : Certificate),
    nth_error chain i = Some child ->
    nth_error chain (S i) = Some parent ->
    nonEmpty (getIdentConstraints parent) = true ->
    nonEmpty (nameAt i child) = true
    /\ IsPermittedIdentifierRule (nameAt i child) (getIdentConstraints parent) = true.
Proof.
  unfold VerifyDelegateChain, processDelegateChain.
  destruct chain as [|c0 rest]; [discriminate|].
  destruct (withOwnerRoot _ _ _ _ _ _ _) as [chain'|e] eqn:Ew; [|discriminate].
  destruct (walk _ _ _ _ _ _) as [r|e] eqn:Hw; [|discriminate].
  intros _ i child parent Hi Hp Hne.
  assert (Hc : exists extra, chain' = (c0 :: rest) ++ extra).
  { destruct (withOwnerRoot_ok _ _ _ _ _ _ _ _ Ew) as [->|[rootOwner ->]].
    - exists []. rewrite app_nil_r. reflexivity.
    - exists [rootOwner]. reflexivity. }
  destruct Hc as [extra ->].
  assert (Hlt : S i < length (c0 :: rest)) by (apply nth_error_Some; congruence).
  apply (walk_names CheckSignatureFrom _ oid _ [] [] r eq_refl Hw i child parent).
  - rewrite nth_error_app1 by lia. exact Hi.
  - rewrite nth_error_app1 by lia. exact Hp.
  - exact Hne.
Qed.

Lemma VerifyDelegateChain_names_narrow_witness :
  nonEmpty (go "DNS:srv.sub.sub.dom1") = true
  /\ IsPermittedIdentifierRule (go "DNS:srv.sub.sub.dom1") (go "DNS:*.sub.sub.dom1") = true.
Proof.
  apply (VerifyDelegateChain_names_narrow acceptSignature (Err (Errorf "no key"))
           (Err (Errorf "no key")) (fun _ _ _ _ _ _ _ _ => Err (Errorf "no certificate"))
           goodChain None (Some OID_delegateOnboard) None eq_refl 0
           (leafCert "leaf" "intermediate"
              [mkExtension OID_Identifier (go "DNS:srv.sub.sub.dom1");
               mkExtension OID_delegateOnboard []])
           (caCert "intermediate" "root"
              [mkExtension OID_IdentifierConstraints (go "DNS:*.sub.sub.dom1");
               mkExtension OID_delegateOnboard []])); reflexivity.
Defined.

(** X10: The names of the five delegate permissions and their OIDs determine
    each other: [DelegateStringToOID] accepts exactly the names that
    [DelegateOIDtoString] gives to the OIDs it returns, and a name it
    refuses comes with an error and the base OID. *)
Theorem DelegateStringToOID_DelegateOIDtoString (str : gostring) (oid : ObjectIdentifier) :
  (DelegateStringToOID str = (oid, None) -> DelegateOIDtoString oid = str)
  /\ (In str [go "onboard"; go "upload"; go "redirect"; go "claim"; go "provision"] ->
      DelegateOIDtoString oid = str -> DelegateStringToOID str = (oid, None))
  /\ (~ In str [go "onboard"; go "upload"; go "redirect"; go "claim"; go "provision"] ->
      DelegateStringToOID str
      = (OID_delegateBase, Some (Errorf "Invalid Delegate OID string"))).
Proof.
  split; [|split].
  - unfold DelegateStringToOID.
    repeat match goal with
    | |- context [gostring_eqb str ?s] =>
        let E := fresh "E" in
        destruct (gostring_eqb str s) eqn:E;
        [apply gostring_eqb_eq in E; subst str; intros H; inversion H; reflexivity|]
    end.
    discriminate.
  - intros Hin. unfold DelegateOIDtoString.
    repeat match goal with
    | |- context [oidEqual oid ?o] =>
        let E := fresh "E" in
        destruct (oidEqual oid o) eqn:E;
        [apply oidEqual_eq in E; subst oid; intros <-; try reflexivity;
         cbn [In] in Hin; repeat (destruct Hin as [Hin|Hin]; [discriminate|]);
         destruct Hin|]
    end.
    intros <-. cbn [In] in Hin.
    repeat (destruct Hin as [Hin|Hin]; [discriminate|]). destruct Hin.
  - intros Hn. unfold DelegateStringToOID.
    repeat match goal with
    | |- context [gostring_eqb str ?s] =>
        let E := fresh "E" in
        destruct (gostring_eqb str s) eqn:E;
        [apply gostring_eqb_eq in E; exfalso; apply Hn; rewrite E; cbn [In]; tauto|]
    end.
    reflexivity.
Qed.

Lemma DelegateStringToOID_DelegateOIDtoString_witness :
  DelegateOIDtoString OID_delegateRedirect = go "redirect"
  /\ DelegateStringToOID (go "claim") = (OID_delegateClaim, None)
  /\ DelegateStringToOID (go "extend")
     = (OID_delegateBase, Some (Errorf "Invalid Delegate OID string")).
Proof.
  split; [|split].
  - apply (proj1 (DelegateStringToOID_DelegateOIDtoString (go "redirect") OID_delegateRedirect)).
    reflexivity.
  - apply (proj1 (proj2 (DelegateStringToOID_DelegateOIDtoString (go "claim") OID_delegateClaim))).
    + cbn [In]. tauto.
    + reflexivity.
  - apply (proj2 (proj2 (DelegateStringToOID_DelegateOIDtoString (go "extend") []))).
    cbn [In]. intros H. repeat (destruct H as [H|H]; [discriminate|]). exact H.
Defined.

(** X11: [HashAlg.String] returns for the four algorithms of the enumeration,
    with a name of its own for each, and panics for every other value. *)
Theorem HashAlg_String_total_on_enum (alg : HashAlg) :
  (HashAlg_String alg = Panics <->
   ~ In alg [Sha256Hash; Sha384Hash; HmacSha256Hash; HmacSha384Hash])
  /\ (forall other s,
         HashAlg_String alg = Returns s -> HashAlg_String other = Returns s -> alg = other).
Proof.
  unfold HashAlg_String. split.
  - cbn [In].
    destruct (Z.eqb_spec alg Sha256Hash);
      [split; [discriminate | intros H; exfalso; apply H; auto]|].
    destruct (Z.eqb_spec alg Sha384Hash);
      [split; [discriminate | intros H; exfalso; apply H; auto]|].
    destruct (Z.eqb_spec alg HmacSha256Hash);
      [split; [discriminate | intros H; exfalso; apply H; auto]|].
    destruct (Z.eqb_spec alg HmacSha384Hash);
      [split; [discriminate | intros H; exfalso; apply H; auto 6]|].
    split; [|reflexivity]. intros _ H.
    repeat (destruct H as [H|H]; [congruence|]). exact H.
  - intros other s.
    destruct (Z.eqb_spec alg Sha256Hash); destruct (Z.eqb_spec other Sha256Hash);
    destruct (Z.eqb_spec alg Sha384Hash); destruct (Z.eqb_spec other Sha384Hash);
    destruct (Z.eqb_spec alg HmacSha256Hash); destruct (Z.eqb_spec other HmacSha256Hash);
    destruct (Z.eqb_spec alg HmacSha384Hash); destruct (Z.eqb_spec other HmacSha384Hash);
    intros H1 H2; try congruence; inversion H1; subst s; inversion H2.
Qed.

Lemma HashAlg_String_total_on_enum_witness :
  HashAlg_String 7%Z = Panics /\ Sha256Hash = Sha256Hash.
Proof.
  split.
  - apply (proj1 (HashAlg_String_total_on_enum 7%Z)). cbn [In].
    intros H. repeat (destruct H as [H|H]; [discriminate|]). exact H.
  - apply (proj2 (HashAlg_String_total_on_enum Sha256Hash) Sha256Hash (go "Sha256Hash"));
      reflexivity.
Defined.

Lemma go_inj (a b : string) : go a = go b -> a = b.
Proof.
  unfold go. intros H.
  rewrite <- (string_of_list_ascii_of_string a), <- (string_of_list_ascii_of_string b), H.
  reflexivity.
Qed.

Lemma to_int_norm (z : Z) : Z.to_int z = Decimal.norm (Z.to_int z).
Proof. rewrite <- (DecimalZ.to_of (Z.to_int z)), DecimalZ.of_to. reflexivity. Qed.

Lemma norm_not_nil (d : Decimal.int) :
  Decimal.norm d <> Decimal.Pos Decimal.Nil /\ Decimal.norm d <> Decimal.Neg Decimal.Nil.
Proof.
  destruct d as [u|u]; cbn [Decimal.norm].
  - split; [|discriminate]. intros H. injection H as H.
    unfold Decimal.unorm in H. destruct (Decimal.nzhead u); discriminate.
  - destruct (Decimal.nzhead u) eqn:E; split; try discriminate.
    all: intros H; injection H as H; discriminate.
Qed.

(** Decimal printing loses nothing. *)
Lemma FormatInt_inj (a b : Z) : strconv.FormatInt a = strconv.FormatInt b -> a = b.
Proof.
  unfold strconv.FormatInt. intros H. apply go_inj in H.
  apply DecimalZ.to_int_inj.
  assert (Ha : DecimalString.NilZero.int_of_string
                 (DecimalString.NilZero.string_of_int (Z.to_int a)) = Some (Z.to_int a)).
  { apply DecimalString.NilZero.isi; rewrite to_int_norm; apply norm_not_nil. }
  assert (Hb : DecimalString.NilZero.int_of_string
                 (DecimalString.NilZero.string_of_int (Z.to_int b)) = Some (Z.to_int b)).
  { apply DecimalString.NilZero.isi; rewrite to_int_norm; apply norm_not_nil. }
  rewrite H in Ha. congruence.
Qed.

(** X12: [Label.String] tells the integer labels apart when they are
    positive, and prints every other label as its text: a negative integer
    label, which [Label.MarshalCBOR] writes as an integer, prints as the
    empty text of its [Str]. *)
Theorem Label_String_labels (l l' : cose.Label) :
  ((0 < cose.Int64 l)%Z -> (0 < cose.Int64 l')%Z ->
   Label_String l = Label_String l' -> cose.Int64 l = cose.Int64 l')
  /\ ((cose.Int64 l <= 0)%Z -> Label_String l = cose.Str l).
Proof.
  unfold Label_String. split.
  - intros H1 H2. apply Z.ltb_lt in H1, H2. rewrite H1, H2. apply FormatInt_inj.
  - intros H. destruct (Z.ltb_spec 0 (cose.Int64 l)); [lia | reflexivity].
Qed.

Lemma Label_String_labels_witness :
  cose.Int64 cose.AlgLabel = cose.Int64 {| cose.Int64 := 1; cose.Str := go "alg" |}
  /\ Label_String {| cose.Int64 := -1; cose.Str := [] |} = [].
Proof.
  split.
  - apply (proj1 (Label_String_labels cose.AlgLabel
                    {| cose.Int64 := 1; cose.Str := go "alg" |})); [cbn; lia | cbn; lia | reflexivity].
  - apply (proj2 (Label_String_labels {| cose.Int64 := -1; cose.Str := [] |}
                    cose.AlgLabel)). cbn. lia.
Defined.

Lemma head_small (major arg : N) :
  (arg < 24)%N -> cbor.head major arg = [cbor.byte (major * 32 + arg)].
Proof.
  intros H. unfold cbor.head. apply N.ltb_lt in H. rewrite H. reflexivity.
Qed.

Lemma head_length (major arg : N) : 1 <= length (cbor.head major arg).
Proof.
  unfold cbor.head.
  repeat match goal with |- context [if ?b then _ else _] => destruct b end;
    cbn [length]; lia.
Qed.

Lemma head_large (major arg : N) :
  (24 <= arg)%N -> 2 <= length (cbor.head major arg).
Proof.
  intros H. unfold cbor.head. destruct (N.ltb_spec arg 24); [lia|].
  repeat match goal with |- context [if ?b then _ else _] => destruct b end;
    cbn [length cbor.bigEndian]; rewrite ?length_app; cbn [length]; lia.
Qed.

(** [omitEmpty] leaves out the empty map and nothing else: a map with an
    entry is written as [cbor.Marshal] writes it. *)
Lemma omitEmpty_MarshalCBOR_spec (unsupported : result gostring) (val : cose.rawHeaderMap) :
  cose.omitEmpty_MarshalCBOR unsupported val
  = match val with
    | [] => Ok []
    | _ :: _ => cose.marshalRawHeaderMap unsupported val
    end.
Proof.
  unfold cose.omitEmpty_MarshalCBOR, cose.marshalRawHeaderMap.
  destruct val as [|[label raw] val]; [reflexivity|].
  destruct (cose.marshalEntries unsupported ((label, raw) :: val)) as [entries|]; [|reflexivity].
  set (n := N.of_nat (length ((label, raw) :: val))).
  assert (Hn : (1 <= n)%N) by (unfold n; cbn [length]; lia).
  destruct (N.ltb_spec n 24) as [Hs|Hl].
  - rewrite (head_small 5 n Hs). cbn [app].
    destruct entries; [|reflexivity].
    assert (E : N_of_ascii (cbor.byte (5 * 32 + n)) = (160 + n)%N).
    { unfold cbor.byte. rewrite N_ascii_embedding.
      - change (5 * 32)%N with 160%N. apply N.mod_small. lia.
      - apply N.mod_lt. discriminate. }
    rewrite E. cbn [existsb].
    repeat match goal with |- context [N.eqb ?a ?b] =>
      destruct (N.eqb_spec a b); [lia|] end.
    reflexivity.
  - pose proof (head_large 5 n Hl) as H2.
    destruct (cbor.head 5 n) as [|b0 [|b1 rest]]; cbn [length] in H2; try lia.
    reflexivity.
Qed.

Lemma bstr_empty_iff (b : gostring) : cbor.bstr b = [cbor.byte 0x40] <-> b = [].
Proof.
  split; [|intros ->; reflexivity].
  intros H. apply (f_equal (@length ascii)) in H. unfold cbor.bstr in H.
  rewrite length_app in H. cbn [length] in H.
  pose proof (head_length 2 (N.of_nat (length b))).
  destruct b; [reflexivity | cbn [length] in *; lia].
Qed.

(** X13: The protected headers are written as the zero-length byte string
    exactly when the map is empty: a map with an entry is never taken for
    the empty one. *)
Theorem emptyOrSerializedMap_empty_iff (unsupported : result gostring)
        (val : cose.rawHeaderMap) (out : gostring) :
  cose.emptyOrSerializedMap_MarshalCBOR unsupported val = Ok out ->
  (out = [cbor.byte 0x40] <-> val = []).
Proof.
  unfold cose.emptyOrSerializedMap_MarshalCBOR. rewrite omitEmpty_MarshalCBOR_spec.
  destruct val as [|kv val].
  - intros H. inversion H. split; reflexivity.
  - destruct (cose.marshalRawHeaderMap unsupported (kv :: val)) as [b|] eqn:E; [|discriminate].
    intros H. inversion H. subst out. rewrite bstr_empty_iff.
    split; [|discriminate]. intros ->. exfalso.
    unfold cose.marshalRawHeaderMap in E.
    destruct (cose.marshalEntries unsupported (kv :: val)); [|discriminate].
    apply (f_equal (fun r => match r with Ok x => length x | Err _ => 0 end)) in E.
    rewrite length_app in E.
    pose proof (head_length 5 (N.of_nat (length (kv :: val)))) as Hh.
    cbn [length] in E, Hh. lia.
Qed.

Lemma emptyOrSerializedMap_empty_iff_witness :
  [cbor.byte 0x43; cbor.byte 0xa1; cbor.byte 0x01; cbor.byte 0x26] = [cbor.byte 0x40]
  <-> [(cose.AlgLabel, cbor.int (-7))] = [].
Proof.
  apply (emptyOrSerializedMap_empty_iff cbor.ErrUnsupportedType
           [(cose.AlgLabel, cbor.int (-7))]).
  reflexivity.
Defined.

Lemma sendError_state {H : Type} (codec : fsim.Codec) (p : fsim.Payload H)
      (code : Z) (message details : gostring) :
  fst (fst (fsim.sendError codec p code message details)) = p.
Proof. unfold fsim.sendError. destruct (fsim.Encode codec _); reflexivity. Qed.

Lemma Receive_of_sendError {H : Type} (codec : fsim.Codec) (handler : fsim.PayloadHandler H)
      (p q : fsim.Payload H) (key body : gostring) (code : Z) (message details : gostring) :
  fsim.receive codec handler p key body
  = Returns (fsim.sendError codec q code message details) ->
  exists out err,
    fsim.Receive codec handler p key body = Returns (fsim.reset handler q, out, Some err).
Proof.
  intros E. unfold fsim.Receive. rewrite E.
  destruct (sendError_fails codec q code message details) as (out & err & Es).
  rewrite Es. exists out, err. reflexivity.
Qed.

(** X14: A message out of turn is refused and the handler is not called:
    [data] and [end] outside a transfer, and [end] when the bytes received
    are not as many as [begin] announced.  [Receive] answers with an
    [error] message at most, returns an error, and leaves a module with
    the handler as it was and nothing in progress. *)
Theorem Receive_out_of_turn {H : Type} (codec : fsim.Codec) (handler : fsim.PayloadHandler H)
        (p : fsim.Payload H) (messageName messageBody : gostring) :
  (fsim.receiving p = false
   /\ (messageName = go "data" \/ messageName = go "end"))
  \/ (fsim.receiving p = true /\ messageName = go "end"
      /\ (0 < fsim.expectedSize p)%Z /\ fsim.totalBytes p <> fsim.expectedSize p) ->
  exists out err,
    fsim.Receive codec handler p messageName messageBody
    = Returns (fsim.fresh (fsim.Handler p) (fsim.Active p), out, Some err)
    /\ (out = [] \/ exists body, out = [(go "error", body)]).
Proof.
  intros Hcase.
  assert (Hs : exists q code message details,
             fsim.receive codec handler p messageName messageBody
             = Returns (fsim.sendError codec q code message details)
             /\ fsim.reset handler q = fsim.fresh (fsim.Handler p) (fsim.Active p)).
  { destruct Hcase as [[Hr [-> | ->]] | (Hr & -> & Hpos & Hne)].
    - exists p, 6%Z, (go "Not ready to receive data"), (go "Call begin first").
      unfold fsim.receive. cbn [gostring_eqb go list_ascii_of_string byte_eqb Ascii.eqb
                                Bool.eqb andb].
      rewrite Hr. cbn [negb]. split; [reflexivity|].
      unfold fsim.reset, fsim.fresh. rewrite Hr. destruct (fsim.Handler p); reflexivity.
    - exists p, 6%Z, (go "No active transfer"), [].
      unfold fsim.receive. cbn [gostring_eqb go list_ascii_of_string byte_eqb Ascii.eqb
                                Bool.eqb andb].
      rewrite Hr. cbn [negb]. split; [reflexivity|].
      unfold fsim.reset, fsim.fresh. rewrite Hr. destruct (fsim.Handler p); reflexivity.
    - exists (fsim.setReceiving p false), 6%Z,
             (go "Size mismatch: expected " ++ strconv.FormatInt (fsim.expectedSize p)
              ++ go ", received " ++ strconv.FormatInt (fsim.totalBytes p)), [].
      unfold fsim.receive. cbn [gostring_eqb go list_ascii_of_string byte_eqb Ascii.eqb
                                Bool.eqb andb].
      rewrite Hr. cbn [negb].
      apply Z.ltb_lt in Hpos. apply Z.eqb_neq in Hne. rewrite Hpos, Hne. cbn [negb andb].
      split; [reflexivity|].
      unfold fsim.reset, fsim.fresh, fsim.setReceiving.
      cbn [fsim.receiving fsim.Handler fsim.Active]. destruct (fsim.Handler p); reflexivity. }
  destruct Hs as (q & code & message & details & Er & Eq).
  unfold fsim.Receive. rewrite Er. unfold fsim.sendError.
  destruct (fsim.Encode codec _) as [body|e].
  - exists [(go "error", body)], (Errorf "payload error: %s"). rewrite Eq.
    split; [reflexivity | right; exists body; reflexivity].
  - exists [], (Wrapf "failed to encode error: %w" e). rewrite Eq.
    split; [reflexivity | left; reflexivity].
Qed.

Lemma Receive_out_of_turn_witness :
  exists out err,
    fsim.Receive shortCodec.codec fsim.recorder (fsim.fresh (Some []) true)
                 (go "data") (cbor.bstr (go "abc"))
    = Returns (fsim.fresh (Some []) true, out, Some err)
    /\ (out = [] \/ exists body, out = [(go "error", body)]).
Proof.
  apply (Receive_out_of_turn shortCodec.codec fsim.recorder (fsim.fresh (Some []) true)).
  left. split; [reflexivity | left; reflexivity].
Defined.

Lemma sendError_not_ok {H : Type} (codec : fsim.Codec) (p q : fsim.Payload H)
      (code : Z) (message details : gostring) (out : list fsim.KV) :
  fsim.sendError codec p code message details <> (q, out, None).
Proof.
  destruct (sendError_fails codec p code message details) as (o1 & e1 & Es).
  rewrite Es. congruence.
Qed.

Ltac sendError_absurd :=
  let E := fresh "E" in
  intros E; injection E as E; exfalso; exact (sendError_not_ok _ _ _ _ _ _ _ E).

(** In every module that the methods reach, a transfer in progress has a
    handler. *)
Lemma deviceReaches_handler {H : Type} (codec : fsim.Codec) (handler : fsim.PayloadHandler H)
      (p : fsim.Payload H) :
  deviceReaches codec handler p ->
  fsim.receiving p = true -> fsim.Handler p <> None.
Proof.
  induction 1 as [h a | p p' key body out err Hp IH Hr | p active Hp IH | p Hp IH].
  - discriminate.
  - revert Hr. unfold fsim.Receive.
    destruct (fsim.receive codec handler p key body) as [[[q o] [e|]]|] eqn:Er;
      try discriminate.
    + intros E. inversion E. subst. cbn [fsim.reset fsim.receiving]. discriminate.
    + intros E. inversion E. subst p' out err. clear E. revert Er. unfold fsim.receive.
      repeat match goal with
      | |- context [if gostring_eqb key ?k then _ else _] => destruct (gostring_eqb key k)
      end.
      * destruct (fsim.DecodeBool codec body); [|intros E; inversion E].
        destruct (fsim.Encode codec _); intros E; inversion E. subst. exact IH.
      * destruct (fsim.Handler p) as [h|] eqn:Eh; [|sendError_absurd].
        destruct (fsim.DecodeBegin codec body) as [begin|]; [|sendError_absurd].
        destruct (negb _); [sendError_absurd|].
        destruct (fsim.BeginPayload handler h _ _ _ _) as [h' [e|]]; [sendError_absurd|].
        destruct (fsim.Encode codec _); intros E; inversion E.
        subst. cbn [fsim.Handler]. discriminate.
      * destruct (negb (fsim.receiving p)); [sendError_absurd|].
        destruct (fsim.DecodeBytes codec body) as [data|]; [|sendError_absurd].
        destruct (fsim.Handler p) as [h|]; [|discriminate].
        destruct (fsim.ReceiveChunk handler h data) as [h' [e|]]; [sendError_absurd|].
        destruct (fsim.Encode codec _); intros E; inversion E.
        subst. cbn [fsim.Handler]. discriminate.
      * destruct (negb (fsim.receiving p)); [sendError_absurd|].
        destruct (_ && _); [sendError_absurd|].
        destruct (fsim.Handler p) as [h|]; [|discriminate].
        destruct (fsim.EndPayload handler h) as [h' [[[s m] o0] [e|]]]; [sendError_absurd|].
        destruct (fsim.Encode codec _); intros E; inversion E.
        subst. cbn [fsim.setReceiving fsim.receiving]. discriminate.
      * intros E. inversion E. subst. exact IH.
  - unfold fsim.Transition. destruct (negb active); cbn [fst]; [|exact IH].
    cbn [fsim.reset fsim.receiving]. discriminate.
  - exact IH.
Qed.

(** X15: The device module never panics: whatever messages it has been sent
    and whatever the handler answered, [Receive] returns. *)
Theorem Receive_never_panics {H : Type} (codec : fsim.Codec) (handler : fsim.PayloadHandler H)
        (p : fsim.Payload H) (messageName messageBody : gostring) :
  deviceReaches codec handler p ->
  fsim.Receive codec handler p messageName messageBody <> Panics.
Proof.
  intros Hp. pose proof (deviceReaches_handler codec handler p Hp) as Hh.
  unfold fsim.Receive.
  destruct (fsim.receive codec handler p messageName messageBody) as [[[q o] [e|]]|] eqn:Er;
    try discriminate.
  exfalso. revert Er. unfold fsim.receive.
  repeat match goal with
  | |- context [if gostring_eqb messageName ?k then _ else _] =>
      destruct (gostring_eqb messageName k)
  end.
  - destruct (fsim.DecodeBool codec messageBody); [|discriminate].
    destruct (fsim.Encode codec _); discriminate.
  - destruct (fsim.Handler p) as [h|]; [|discriminate].
    destruct (fsim.DecodeBegin codec messageBody); [|discriminate].
    destruct (negb _); [discriminate|].
    destruct (fsim.BeginPayload handler h _ _ _ _) as [h' [e|]]; [discriminate|].
    destruct (fsim.Encode codec _); discriminate.
  - destruct (fsim.receiving p) eqn:Hr; cbn [negb]; [|discriminate].
    destruct (fsim.DecodeBytes codec messageBody); [|discriminate].
    destruct (fsim.Handler p) as [h|]; [|exfalso; apply Hh; reflexivity].
    destruct (fsim.ReceiveChunk handler h _) as [h' [e|]]; [discriminate|].
    destruct (fsim.Encode codec _); discriminate.
  - destruct (fsim.receiving p) eqn:Hr; cbn [negb]; [|discriminate].
    destruct (_ && _); [discriminate|].
    destruct (fsim.Handler p) as [h|]; [|exfalso; apply Hh; reflexivity].
    destruct (fsim.EndPayload handler h) as [h' [[[s m] o0] [e|]]]; [discriminate|].
    destruct (fsim.Encode codec _); discriminate.
  - discriminate.
Qed.

Lemma Receive_never_panics_witness :
  fsim.Receive shortCodec.codec fsim.recorder (fsim.fresh None true) (go "end") [] <> Panics.
Proof.
  apply (Receive_never_panics shortCodec.codec fsim.recorder (fsim.fresh None true)).
  apply deviceReaches_fresh.
Defined.

Lemma len_nonneg {A : Type} (a : list A) : (0 <= len a)%Z.
Proof. unfold len. lia. Qed.

Lemma index_in_range {A : Type} (l : list A) (i : Z) :
  (0 <= i < len l)%Z ->
  exists a, fsim.index l i = Returns a /\ nth_error l (Z.to_nat i) = Some a.
Proof.
  intros Hi. unfold fsim.index. destruct (Z.ltb_spec i 0); [lia|].
  destruct (nth_error l (Z.to_nat i)) as [a|] eqn:E.
  - exists a. split; reflexivity.
  - apply nth_error_None in E. unfold len in Hi. lia.
Qed.

Lemma slice_in_range {A : Type} (a : list A) (lo hi : Z) :
  (0 <= lo <= hi)%Z -> (hi <= len a)%Z -> slice a lo hi <> Panics.
Proof.
  intros H1 H2. unfold slice.
  destruct (Z.leb_spec 0 lo); [|lia]. destruct (Z.leb_spec lo hi); [|lia].
  destruct (Z.leb_spec hi (len a)); [|lia]. discriminate.
Qed.

Lemma ownerInvariant_ProduceInfo (codec : fsim.Codec)
      (WriteChunk : fsim.Producer -> gostring -> gostring -> result fsim.Producer)
      (p : fsim.PayloadOwner) (producer : fsim.Producer) :
  ownerInvariant p ->
  exists p' producer' flags,
    fsim.ProduceInfo codec WriteChunk p producer = Returns (p', producer', flags)
    /\ ownerInvariant p'.
Proof.
  intros Hinv. pose proof Hinv as (Hc & Hi & Hl & Hd & Hcur).
  unfold fsim.ProduceInfo, fsim.produceInfo.
  destruct (fsim.waitingForAck p) eqn:Ew.
  { eexists _, _, _. split; [reflexivity | exact Hinv]. }
  destruct (fsim.currentPayload p) as [pl|] eqn:Ecur.
  - destruct Hcur as [Hnth Hb].
    assert (Hpl : (len (fsim.Data pl) < 2 ^ 63)%Z).
    { rewrite Forall_forall in Hd. apply Hd. eapply nth_error_In. exact Hnth. }
    destruct (Z.ltb_spec (fsim.bytesSent p) (len (fsim.Data pl))) as [Hlt|Hge].
    + cbv zeta.
      rewrite (wrap64_small (len (fsim.Data pl) - fsim.bytesSent p)) by lia.
      set (chunkLen := if (len (fsim.Data pl) - fsim.bytesSent p <? fsim.chunkSize p)%Z
                       then (len (fsim.Data pl) - fsim.bytesSent p)%Z
                       else fsim.chunkSize p).
      assert (Hcl : (0 <= chunkLen <= len (fsim.Data pl) - fsim.bytesSent p)%Z).
      { unfold chunkLen.
        destruct (Z.ltb_spec (len (fsim.Data pl) - fsim.bytesSent p) (fsim.chunkSize p)); lia. }
      rewrite (wrap64_small (fsim.bytesSent p + chunkLen)) by lia.
      destruct (slice (fsim.Data pl) (fsim.bytesSent p) (fsim.bytesSent p + chunkLen))
        as [chunk|] eqn:Es.
      2:{ exfalso. revert Es. apply slice_in_range; lia. }
      destruct (fsim.encodeAndWrite codec WriteChunk producer (go "data") _ _ _).
      * eexists _, _, _. split; [reflexivity|].
        unfold ownerInvariant. cbn [fsim.chunkSize fsim.currentIndex fsim.payloads
                                    fsim.currentPayload fsim.bytesSent].
        repeat split; try assumption; try lia.
      * eexists _, _, _. split; [reflexivity | exact Hinv].
    + destruct (fsim.encodeAndWrite codec WriteChunk producer (go "end") _ _ _);
        eexists _, _, _; (split; [reflexivity | exact Hinv]).
  - destruct (Z.leb_spec (len (fsim.payloads p)) (fsim.currentIndex p)) as [Hdone|Hmore].
    { eexists _, _, _. split; [reflexivity | exact Hinv]. }
    destruct (index_in_range (fsim.payloads p) (fsim.currentIndex p)) as (pl & Eidx & Hnth);
      [lia|].
    rewrite Eidx.
    assert (Hinv' : ownerInvariant
                      {| fsim.payloads := fsim.payloads p;
                         fsim.currentPayload := Some pl;
                         fsim.currentIndex := fsim.currentIndex p;
                         fsim.bytesSent := 0;
                         fsim.chunkSize := if (fsim.chunkSize p =? 0)%Z then 4096%Z
                                           else fsim.chunkSize p;
                         fsim.waitingForAck := fsim.waitingForAck p;
                         fsim.lastError := fsim.lastError p |}).
    { unfold ownerInvariant. cbn [fsim.chunkSize fsim.currentIndex fsim.payloads
                                  fsim.currentPayload fsim.bytesSent].
      repeat split; try assumption; try lia.
      - destruct (fsim.chunkSize p =? 0)%Z; lia.
      - destruct (fsim.chunkSize p =? 0)%Z; lia.
      - apply len_nonneg. }
    destruct (fsim.encodeAndWrite codec WriteChunk producer (go "begin") _ _ _);
      eexists _, _, _; (split; [reflexivity | exact Hinv']).
Qed.

Lemma ownerInvariant_HandleInfo (codec : fsim.Codec) (p p' : fsim.PayloadOwner)
      (messageName messageBody : gostring) (err : option error) :
  ownerInvariant p ->
  fsim.HandleInfo codec p messageName messageBody = Returns (p', err) ->
  ownerInvariant p'.
Proof.
  intros Hinv. pose proof Hinv as (Hc & Hi & Hl & Hd & Hcur).
  unfold fsim.HandleInfo, fsim.ownerReceive.
  repeat match goal with
  | |- context [if gostring_eqb messageName ?k then _ else _] =>
      destruct (gostring_eqb messageName k)
  end.
  - destruct (fsim.DecodeBool codec messageBody); intros E; inversion E; subst; exact Hinv.
  - destruct (fsim.DecodeBool codec messageBody) as [[|]|];
      intros E; inversion E; subst; exact Hinv.
  - destruct (fsim.DecodeInt codec messageBody) as [n|];
      [|intros E; inversion E; subst; exact Hinv].
    destruct (negb _); intros E; inversion E; subst; exact Hinv.
  - destruct (fsim.DecodeResult codec messageBody) as [r|];
      [|intros E; inversion E; subst; exact Hinv].
    destruct (fsim.currentPayload p) as [pl|] eqn:Ecur; [|discriminate].
    intros E. inversion E. subst. clear E. destruct Hcur as [Hnth _].
    assert (Hlt : (fsim.currentIndex p < len (fsim.payloads p))%Z).
    { assert (Z.to_nat (fsim.currentIndex p) < length (fsim.payloads p))
        by (apply nth_error_Some; congruence).
      unfold len. lia. }
    unfold ownerInvariant. cbn [fsim.chunkSize fsim.currentIndex fsim.payloads
                                fsim.currentPayload fsim.bytesSent].
    rewrite wrap64_small by lia. repeat split; try assumption; lia.
  - destruct (fsim.DecodeError codec messageBody) as [info|];
      intros E; inversion E; subst; [|exact Hinv].
    unfold ownerInvariant. cbn [fsim.chunkSize fsim.currentIndex fsim.payloads
                                fsim.currentPayload fsim.bytesSent].
    repeat split; try assumption; lia.
  - intros E. inversion E. subst. exact Hinv.
Qed.

Lemma ownerReaches_invariant (codec : fsim.Codec)
      (WriteChunk : fsim.Producer -> gostring -> gostring -> result fsim.Producer)
      (p : fsim.PayloadOwner) :
  ownerReaches codec WriteChunk p -> ownerInvariant p.
Proof.
  induction 1 as [| p m n data md Hp IH Hdata Hq | p size Hp IH Hsize
                  | p p' producer producer' flags Hp IH Hr
                  | p p' key body err Hp IH Hr | p active Hp IH].
  - unfold ownerInvariant. cbn. repeat split; try lia. constructor.
  - destruct IH as (Hc & Hi & Hl & Hd & Hcur).
    unfold ownerInvariant, fsim.AddPayload.
    cbn [fsim.chunkSize fsim.currentIndex fsim.payloads fsim.currentPayload fsim.bytesSent].
    rewrite len_app. change (len [_]) with 1%Z.
    repeat split; try assumption; try lia.
    + apply Forall_app. split; [exact Hd|]. constructor; [exact Hdata | constructor].
    + destruct (fsim.currentPayload p) as [pl|]; [|exact I].
      destruct Hcur as [Hnth Hb]. split; [|exact Hb].
      rewrite nth_error_app1; [exact Hnth|]. apply nth_error_Some. congruence.
  - destruct IH as (Hc & Hi & Hl & Hd & Hcur).
    unfold ownerInvariant, fsim.SetChunkSize.
    cbn [fsim.chunkSize fsim.currentIndex fsim.payloads fsim.currentPayload fsim.bytesSent].
    repeat split; try assumption; lia.
  - destruct (ownerInvariant_ProduceInfo codec WriteChunk p producer IH)
      as (q & producer1 & flags1 & E & Hq).
    rewrite E in Hr. inversion Hr. subst. exact Hq.
  - exact (ownerInvariant_HandleInfo codec p p' key body err IH Hr).
  - pose proof IH as (Hc & Hi & Hl & Hd & Hcur).
    unfold fsim.ownerTransition. destruct (negb active); cbn [fst].
    + unfold ownerInvariant, fsim.ownerReset.
      cbn [fsim.chunkSize fsim.currentIndex fsim.payloads fsim.currentPayload fsim.bytesSent].
      repeat split; try assumption; lia.
    + exact IH.
Qed.

(** X16: The owner module stays within its payloads: between calls the index
    of the current payload is inside the queue, the bytes counted as sent
    are not more than the payload has, and [ProduceInfo] returns without
    a panic, as long as the chunk sizes set are not negative. *)
Theorem ProduceInfo_within_bounds (codec : fsim.Codec)
        (WriteChunk : fsim.Producer -> gostring -> gostring -> result fsim.Producer)
        (p : fsim.PayloadOwner) (producer : fsim.Producer) :
  ownerReaches codec WriteChunk p ->
  fsim.ProduceInfo codec WriteChunk p producer <> Panics
  /\ (0 <= fsim.currentIndex p <= len (fsim.payloads p))%Z
  /\ (forall pl, fsim.currentPayload p = Some pl ->
                 nth_error (fsim.payloads p) (Z.to_nat (fsim.currentIndex p)) = Some pl
                 /\ (0 <= fsim.bytesSent p <= len (fsim.Data pl))%Z).
Proof.
  intros Hp. pose proof (ownerReaches_invariant codec WriteChunk p Hp) as Hinv.
  split; [|split].
  - destruct (ownerInvariant_ProduceInfo codec WriteChunk p producer Hinv)
      as (q & producer1 & flags1 & E & _).
    rewrite E. discriminate.
  - apply Hinv.
  - intros pl Epl. destruct Hinv as (_ & _ & _ & _ & Hcur). rewrite Epl in Hcur. exact Hcur.
Qed.

Lemma ProduceInfo_within_bounds_witness :
  fsim.ProduceInfo shortCodec.codec shortCodec.WriteChunk (ownerWith shortCodec.hello 2) []
  <> Panics.
Proof.
  refine (proj1 (ProduceInfo_within_bounds shortCodec.codec shortCodec.WriteChunk
                   (ownerWith shortCodec.hello 2) [] _)).
  unfold ownerWith. apply ownerReaches_SetChunkSize; [|lia].
  apply ownerReaches_AddPayload; [apply ownerReaches_new | vm_compute; reflexivity
                                 | vm_compute; reflexivity].
Defined.

(** X17: [HandleInfo] panics in one case only: a [result] message that
    decodes when no payload is in progress, as before the first [begin]
    or after an [error]. *)
Theorem HandleInfo_panics_iff (codec : fsim.Codec) (p : fsim.PayloadOwner)
        (messageName messageBody : gostring) :
  fsim.HandleInfo codec p messageName messageBody = Panics <->
  messageName = go "result"
  /\ (exists r, fsim.DecodeResult codec messageBody = Ok r)
  /\ fsim.currentPayload p = None.
Proof.
  unfold fsim.HandleInfo, fsim.ownerReceive. split.
  - destruct (gostring_eqb messageName (go "active")) eqn:E1.
    { destruct (fsim.DecodeBool codec messageBody); discriminate. }
    destruct (gostring_eqb messageName (go "ready")) eqn:E2.
    { destruct (fsim.DecodeBool codec messageBody) as [[|]|]; discriminate. }
    destruct (gostring_eqb messageName (go "ack")) eqn:E3.
    { destruct (fsim.DecodeInt codec messageBody); [|discriminate].
      destruct (negb _); discriminate. }
    destruct (gostring_eqb messageName (go "result")) eqn:E4.
    { apply gostring_eqb_eq in E4.
      destruct (fsim.DecodeResult codec messageBody) as [r|]; [|discriminate].
      destruct (fsim.currentPayload p); [discriminate|].
      intros _. split; [exact E4|]. split; [exists r; reflexivity | reflexivity]. }
    destruct (gostring_eqb messageName (go "error")).
    { destruct (fsim.DecodeError codec messageBody); discriminate. }
    discriminate.
  - intros (-> & (r & Er) & Ec).
    change (gostring_eqb (go "result") (go "active")) with false.
    change (gostring_eqb (go "result") (go "ready")) with false.
    change (gostring_eqb (go "result") (go "ack")) with false.
    change (gostring_eqb (go "result") (go "result")) with true.
    cbv iota. rewrite Er, Ec. reflexivity.
Qed.

(** X18: An [error] message from the device is recorded for [GetLastError]
    and ends the payload, but not the wait for an acknowledgement: when it
    comes in place of the [ack] of a chunk, [ProduceInfo] blocks the peer
    from then on and writes nothing, and when it comes at another time the
    next [ProduceInfo] begins the same payload again. *)
Theorem HandleInfo_error (codec : fsim.Codec)
        (WriteChunk : fsim.Producer -> gostring -> gostring -> result fsim.Producer)
        (p : fsim.PayloadOwner) (messageBody : gostring) (info : fsim.PayloadErrorInfo) :
  fsim.DecodeError codec messageBody = Ok info ->
  exists p' err,
    fsim.HandleInfo codec p (go "error") messageBody = Returns (p', Some err)
    /\ fsim.lastError p' = Some info
    /\ fsim.currentPayload p' = None
    /\ fsim.currentIndex p' = fsim.currentIndex p
    /\ fsim.waitingForAck p' = fsim.waitingForAck p
    /\ (fsim.waitingForAck p = true ->
        forall producer,
          fsim.ProduceInfo codec WriteChunk p' producer
          = Returns (p', producer, (true, false, None)))
    /\ (fsim.waitingForAck p = false ->
        forall pl w producer producer',
          nth_error (fsim.payloads p) (Z.to_nat (fsim.currentIndex p)) = Some pl ->
          (0 <= fsim.currentIndex p)%Z ->
          fsim.Encode codec (fsim.beginValue pl) = Ok w ->
          WriteChunk producer (go "begin") w = Ok producer' ->
          exists p'',
            fsim.ProduceInfo codec WriteChunk p' producer
            = Returns (p'', producer', (false, false, None))
            /\ fsim.currentPayload p'' = Some pl).
Proof.
  intros Hd. unfold fsim.HandleInfo, fsim.ownerReceive.
  change (gostring_eqb (go "error") (go "active")) with false.
  change (gostring_eqb (go "error") (go "ready")) with false.
  change (gostring_eqb (go "error") (go "ack")) with false.
  change (gostring_eqb (go "error") (go "result")) with false.
  change (gostring_eqb (go "error") (go "error")) with true.
  cbv iota. rewrite Hd. eexists _, _. split; [reflexivity|].
  cbn [fsim.lastError fsim.currentPayload fsim.currentIndex fsim.waitingForAck].
  split; [destruct info; reflexivity|]. do 3 (split; [reflexivity|]). split.
  - intros Hw producer. unfold fsim.ProduceInfo, fsim.produceInfo.
    cbn [fsim.waitingForAck]. rewrite Hw. reflexivity.
  - intros Hw pl w producer producer' Hnth Hi He Hwr.
    unfold fsim.ProduceInfo, fsim.produceInfo.
    cbn [fsim.waitingForAck fsim.currentPayload fsim.payloads fsim.currentIndex].
    rewrite Hw.
    assert (Hlt : (fsim.currentIndex p < len (fsim.payloads p))%Z).
    { assert (Z.to_nat (fsim.currentIndex p) < length (fsim.payloads p))
        by (apply nth_error_Some; congruence).
      unfold len. lia. }
    destruct (Z.leb_spec (len (fsim.payloads p)) (fsim.currentIndex p)); [lia|].
    unfold fsim.index. destruct (Z.ltb_spec (fsim.currentIndex p) 0); [lia|].
    rewrite Hnth. unfold fsim.encodeAndWrite. rewrite He, Hwr.
    eexists. split; reflexivity.
Qed.

Lemma HandleInfo_error_witness :
  exists p' err,
    fsim.HandleInfo shortCodec.codec (ownerSending shortCodec.hello 2 2 true) (go "error")
      (shortCodec.encodeValue
         (fsim.VMap [(go "code", fsim.VInt 4); (go "message", fsim.VText (go "no"))]))
    = Returns (p', Some err)
    /\ fsim.lastError p'
       = Some {| fsim.Code := 4; fsim.Message := go "no"; fsim.Details := [] |}
    /\ fsim.ProduceInfo shortCodec.codec shortCodec.WriteChunk p' []
       = Returns (p', [], (true, false, None)).
Proof.
  destruct (HandleInfo_error shortCodec.codec shortCodec.WriteChunk
              (ownerSending shortCodec.hello 2 2 true)
              (shortCodec.encodeValue
                 (fsim.VMap [(go "code", fsim.VInt 4); (go "message", fsim.VText (go "no"))]))
              {| fsim.Code := 4; fsim.Message := go "no"; fsim.Details := [] |} eq_refl)
    as (p' & err & H1 & H2 & _ & _ & _ & H3 & _).
  exists p', err. split; [exact H1|]. split; [exact H2|]. apply H3. reflexivity.
Defined.

Lemma AddPayload_all (q : list fsim.PayloadToSend) (p : fsim.PayloadOwner) :
  fold_left (fun p pl => fsim.AddPayload p (fsim.MimeType pl) (fsim.Name pl)
                                          (fsim.Data pl) (fsim.Metadata pl)) q p
  = {| fsim.payloads := fsim.payloads p ++ q;
       fsim.currentPayload := fsim.currentPayload p;
       fsim.currentIndex := fsim.currentIndex p;
       fsim.bytesSent := fsim.bytesSent p;
       fsim.chunkSize := fsim.chunkSize p;
       fsim.waitingForAck := fsim.waitingForAck p;
       fsim.lastError := fsim.lastError p |}.
Proof.
  revert p. induction q as [|pl q IH]; intros p; cbn [fold_left].
  - rewrite app_nil_r. destruct p; reflexivity.
  - rewrite IH. unfold fsim.AddPayload.
    cbn [fsim.payloads fsim.currentPayload fsim.currentIndex fsim.bytesSent fsim.chunkSize
         fsim.waitingForAck fsim.lastError].
    rewrite <- app_assoc. destruct pl; reflexivity.
Qed.

Lemma ownerQueue_ownerAt (q : list fsim.PayloadToSend) (c : Z) :
  ownerQueue q c = ownerAt q 0 None 0 false c.
Proof. unfold ownerQueue. rewrite AddPayload_all. reflexivity. Qed.

Lemma chunksOf_app (a b : list fsim.call) :
  fsim.chunksOf (a ++ b) = fsim.chunksOf a ++ fsim.chunksOf b.
Proof.
  induction a as [|x a IH]; [reflexivity|].
  destruct x; cbn [app fsim.chunksOf]; rewrite IH; reflexivity.
Qed.

Lemma chunksOf_CallChunk (ps : list gostring) : fsim.chunksOf (map fsim.CallChunk ps) = ps.
Proof. induction ps as [|p ps IH]; [reflexivity|]. cbn [map fsim.chunksOf]. rewrite IH. reflexivity. Qed.

Lemma chunksOf_callsFor (c : Z) (q : list fsim.PayloadToSend) :
  fsim.chunksOf (flat_map (callsFor c) q) = flat_map (fun pl => pieces c (fsim.Data pl)) q.
Proof.
  induction q as [|pl q IH]; [reflexivity|].
  cbn [flat_map]. rewrite chunksOf_app, IH. unfold callsFor.
  cbn [fsim.chunksOf]. rewrite chunksOf_app, chunksOf_CallChunk. cbn [fsim.chunksOf].
  rewrite app_nil_r. reflexivity.
Qed.

(** X19: A queue of payloads is delivered whole and in order when a message
    takes one KV, so that [ProduceInfo] is called once a turn.  With a
    chunk size that is not negative, a producer that takes every chunk, a
    codec that decodes what it encoded and a handler that accepts and
    records every call, the exchange ends with the owner module done and
    past the last payload.  It has sent, for each payload in the order of
    the queue, one [begin], one [data] for each piece, decoding to the
    piece, and one [end]; the handler has received, for each payload in
    the same order, [BeginPayload], the pieces through [ReceiveChunk] and
    [EndPayload]; and the bytes it received are the bytes of the payloads,
    one payload after the other. *)
Theorem payload_queue_delivered (codec : fsim.Codec)
        (WriteChunk : fsim.Producer -> gostring -> gostring -> result fsim.Producer)
        (q : list fsim.PayloadToSend) (c : Z) (active : bool) :
  (0 <= c < 2 ^ 63)%Z ->
  (len q < 2 ^ 63)%Z ->
  (forall pl, In pl q -> (len (fsim.Data pl) < 2 ^ 63)%Z) ->
  (forall producer key body, WriteChunk producer key body = Ok (producer ++ [(key, body)])) ->
  (forall pl, In pl q ->
              exists w, fsim.Encode codec (fsim.beginValue pl) = Ok w
                        /\ fsim.DecodeBegin codec w = Ok (beginOf pl)) ->
  (exists w, fsim.Encode codec (fsim.VBool true) = Ok w
             /\ fsim.DecodeBool codec w = Ok true) ->
  (forall pl z, In pl q -> (0 <= z <= len (fsim.Data pl))%Z ->
                exists w, fsim.Encode codec (fsim.VInt z) = Ok w
                          /\ fsim.DecodeInt codec w = Ok z) ->
  (forall pl piece, In pl q -> In piece (pieces c (fsim.Data pl)) ->
                    exists w, fsim.Encode codec (fsim.VBytes piece) = Ok w
                              /\ fsim.DecodeBytes codec w = Ok piece) ->
  (exists w r, fsim.Encode codec (fsim.VMap [(go "success", fsim.VBool true)]) = Ok w
               /\ fsim.DecodeResult codec w = Ok r) ->
  exists calls0, forall calls, (calls0 <= calls)%nat ->
    exists o' d' sent,
      fsim.exchange codec WriteChunk fsim.recorder 1 calls
                    (ownerQueue q c) (fsim.fresh (Some []) active) [] []
      = Returns (fsim.ModuleDone, o', d', sent)
      /\ fsim.currentIndex o' = len q
      /\ map fst sent = flat_map (keysFor c) q
      /\ Forall2 (fun body piece => fsim.DecodeBytes codec body = Ok piece)
                 (fsim.bodiesOf (go "data") sent)
                 (flat_map (fun pl => pieces c (fsim.Data pl)) q)
      /\ fsim.Handler d' = Some (flat_map (callsFor c) q)
      /\ concat (fsim.chunksOf (flat_map (callsFor c) q)) = concat (map fsim.Data q).
Proof.
  intros Hc Hq Hdata Hw Hbegin (wt & Htrue) Hint Hbytes (wr & res & Hresult).
  destruct (queue_exchange codec WriteChunk q c active 1 Hc Hq Hdata Hw (Nat.le_refl 1)
              wt wr res Htrue Hresult Hbegin Hint Hbytes q eq_refl
              [] c (fsim.fresh (Some []) active) [] [] eq_refl eq_refl eq_refl eq_refl)
    as (o' & d' & kvs & n & He & Hi & _ & Hh & Hk & Hb).
  exists n. intros calls Hcalls.
  exists o', d', kvs. rewrite ownerQueue_ownerAt.
  replace calls with (n + (calls - n))%nat by lia.
  split; [apply He|]. split; [exact Hi|]. split; [exact Hk|]. split; [exact Hb|].
  split; [exact Hh|].
  rewrite chunksOf_callsFor. clear -Hc.
  induction q as [|pl q IH]; [reflexivity|].
  cbn [flat_map map concat]. rewrite concat_app, IH, pieces_concat by lia. reflexivity.
Qed.

Lemma payload_queue_delivered_witness :
  exists calls0, forall calls, (calls0 <= calls)%nat ->
    exists o' d' sent,
      fsim.exchange shortCodec.codec shortCodec.WriteChunk fsim.recorder 1 calls
                    (ownerQueue twoPayloads 2) (fsim.fresh (Some []) true) [] []
      = Returns (fsim.ModuleDone, o', d', sent)
      /\ fsim.currentIndex o' = 2%Z
      /\ map fst sent = [go "begin"; go "data"; go "data"; go "data"; go "end";
                         go "begin"; go "data"; go "end"]
      /\ fsim.Handler d'
         = Some [fsim.CallBegin (go "text/plain") (go "hello.txt") 5
                                (Some [(go "version", go "1.0")]);
                 fsim.CallChunk (go "he"); fsim.CallChunk (go "ll"); fsim.CallChunk (go "o");
                 fsim.CallEnd;
                 fsim.CallBegin (go "application/octet-stream") [] 2 None;
                 fsim.CallChunk (go "ab"); fsim.CallEnd].
Proof.
  destruct (payload_queue_delivered shortCodec.codec shortCodec.WriteChunk twoPayloads 2 true)
    as (calls0 & Hq).
  - lia.
  - vm_compute. reflexivity.
  - intros pl [<- | [<- | []]]; vm_compute; reflexivity.
  - intros producer key body. reflexivity.
  - intros pl [<- | [<- | []]]; eexists; split; vm_compute; reflexivity.
  - eexists; split; vm_compute; reflexivity.
  - intros pl z [<- | [<- | []]] Hz.
    + change (len (fsim.Data shortCodec.hello)) with 5%Z in Hz.
      assert (E : (z = 0 \/ z = 1 \/ z = 2 \/ z = 3 \/ z = 4 \/ z = 5)%Z) by lia.
      destruct E as [-> | [-> | [-> | [-> | [-> | ->]]]]];
        eexists; split; vm_compute; reflexivity.
    + change (len (fsim.Data _)) with 2%Z in Hz.
      assert (E : (z = 0 \/ z = 1 \/ z = 2)%Z) by lia.
      destruct E as [-> | [-> | ->]]; eexists; split; vm_compute; reflexivity.
  - intros pl piece [<- | [<- | []]] Hp.
    + change (pieces 2 (fsim.Data shortCodec.hello)) with [go "he"; go "ll"; go "o"] in Hp.
      destruct Hp as [<- | [<- | [<- | []]]]; eexists; split; vm_compute; reflexivity.
    + change (pieces 2 (fsim.Data _)) with [go "ab"] in Hp.
      destruct Hp as [<- | []]; eexists; split; vm_compute; reflexivity.
  - eexists _, _. split; vm_compute; reflexivity.
  - exists calls0. intros calls Hcalls.
    destruct (Hq calls Hcalls) as (o' & d' & sent & He & Hi & Hk & _ & Hh & _).
    exists o', d', sent. split; [exact He|]. split; [exact Hi|]. split; [exact Hk | exact Hh].
Defined.

Lemma list_ind3 {A : Type} (P : list A -> Prop) :
  P [] -> (forall a, P [a]) -> (forall a b, P [a; b]) ->
  (forall a b c l, P l -> P (a :: b :: c :: l)) ->
  forall l, P l.
Proof.
  intros H0 H1 H2 H3.
  assert (H : forall l, P l /\ (forall a, P (a :: l)) /\ (forall a b, P (a :: b :: l))).
  { induction l as [|x l (IH0 & IH1 & IH2)].
    - repeat split; auto.
    - split; [apply IH1|]. split; [intros a; apply IH2|]. intros a b. apply H3, IH0. }
  intros l. apply H.
Qed.

Lemma list_ind2 {A : Type} (P : list A -> Prop) :
  P [] -> (forall a, P [a]) -> (forall a b l, P l -> P (a :: b :: l)) ->
  forall l, P l.
Proof.
  intros H0 H1 H2.
  assert (H : forall l, P l /\ (forall a, P (a :: l))).
  { induction l as [|x l (IH0 & IH1)].
    - split; auto.
    - split; [apply IH1|]. intros a. apply H2, IH0. }
  intros l. apply H.
Qed.

Lemma encode_alphabet (val : N) : In (base64.encode val) base64.encodeStd.
Proof.
  unfold base64.encode. apply nth_In.
  assert (N.land val 63 < 64)%N.
  { change 63%N with (N.ones 6). rewrite N.land_ones. apply N.mod_lt. discriminate. }
  change (length base64.encodeStd) with 64%nat. lia.
Qed.

Lemma encode_no_newline (val : N) : byte_eqb (base64.encode val) "010"%char = false.
Proof.
  assert (H : forallb (fun c => negb (byte_eqb c "010"%char)) base64.encodeStd = true)
    by reflexivity.
  rewrite forallb_forall in H. apply negb_true_iff, H, encode_alphabet.
Qed.

Lemma EncodeToString_no_newline (src : gostring) :
  noNewline (base64.EncodeToString src) = true.
Proof.
  unfold noNewline. apply negb_true_iff.
  induction src as [| b0 | b0 b1 | b0 b1 b2 src IH] using list_ind3;
    cbn [base64.EncodeToString existsb]; rewrite ?encode_no_newline; try reflexivity.
  cbn [orb]. exact IH.
Qed.

Lemma EncodeToString_length (src : gostring) :
  length (base64.EncodeToString src) = 4 * ((length src + 2) / 3).
Proof.
  induction src as [| b0 | b0 b1 | b0 b1 b2 src IH] using list_ind3;
    try reflexivity.
  cbn [base64.EncodeToString length]. rewrite IH.
  replace (S (S (S (length src))) + 2) with (1 * 3 + (length src + 2)) by lia.
  rewrite Nat.div_add_l by discriminate. lia.
Qed.

Lemma fold_left_app_concat (lines : list gostring) (acc : gostring) :
  fold_left (fun certStr line => certStr ++ line) lines acc = acc ++ concat lines.
Proof.
  revert acc. induction lines as [|l lines IH]; intros acc; cbn [fold_left concat].
  - symmetry. apply app_nil_r.
  - rewrite IH, app_assoc. reflexivity.
Qed.

Lemma noNewline_app (a b : gostring) : noNewline (a ++ b) = noNewline a && noNewline b.
Proof. unfold noNewline. rewrite existsb_app. apply negb_orb. Qed.

(** X20: What [HexStringToCert] returns without an error is one line: the
    header, the base64 text of the bytes that the digits stand for, and the
    footer.  Cutting the base64 text into lines of 64 characters has no
    effect, since the lines are joined again with nothing between them. *)
Theorem HexStringToCert_one_line (hexInput certStr : gostring) :
  HexStringToCert hexInput = (certStr, None) ->
  exists bytes,
    hex.DecodeString (hexDigitsOf hexInput) = Ok bytes
    /\ certStr = go "-----BEGIN CERTIFICATE-----" ++ base64.EncodeToString bytes
                 ++ go "-----END CERTIFICATE-----"
    /\ noNewline certStr = true
    /\ length certStr = 52 + 4 * ((length bytes + 2) / 3).
Proof.
  unfold HexStringToCert, hexDigitsOf.
  destruct (hex.DecodeString _) as [bytes|]; [|discriminate].
  cbv zeta. rewrite fold_left_app_concat, chunks_concat by lia.
  intros H. exists bytes. split; [reflexivity|].
  assert (E : certStr = go "-----BEGIN CERTIFICATE-----" ++ base64.EncodeToString bytes
                        ++ go "-----END CERTIFICATE-----").
  { injection H as <-. reflexivity. }
  rewrite E. clear. split; [reflexivity|]. split.
  - rewrite !noNewline_app, EncodeToString_no_newline. reflexivity.
  - rewrite !length_app, EncodeToString_length.
    change (length (go "-----BEGIN CERTIFICATE-----")) with 27.
    change (length (go "-----END CERTIFICATE-----")) with 25. lia.
Qed.

Lemma HexStringToCert_one_line_witness :
  exists bytes,
    hex.DecodeString (hexDigitsOf (go "30 82 01 0a")) = Ok bytes
    /\ go "-----BEGIN CERTIFICATE-----MIIBCg==-----END CERTIFICATE-----"
       = go "-----BEGIN CERTIFICATE-----" ++ base64.EncodeToString bytes
         ++ go "-----END CERTIFICATE-----"
    /\ noNewline (go "-----BEGIN CERTIFICATE-----MIIBCg==-----END CERTIFICATE-----") = true
    /\ length (go "-----BEGIN CERTIFICATE-----MIIBCg==-----END CERTIFICATE-----")
       = 52 + 4 * ((length bytes + 2) / 3).
Proof.
  apply (HexStringToCert_one_line (go "30 82 01 0a")). reflexivity.
Defined.

Lemma DecodeString_ok_iff (s : gostring) :
  (exists bytes, hex.DecodeString s = Ok bytes)
  <-> Nat.even (length s) = true /\ forallb isHexDigit s = true.
Proof.
  induction s as [| p | p q s IH] using list_ind2.
  - split; [intros _; split; reflexivity | intros _; exists []; reflexivity].
  - cbn [hex.DecodeString length Nat.even]. split.
    + intros [bytes H]. destruct (hex.fromHexChar p); discriminate.
    + intros [H _]. discriminate.
  - cbn [hex.DecodeString length Nat.even forallb]. unfold isHexDigit at 1 2.
    destruct (hex.fromHexChar p) as [a|].
    2:{ split; [intros [? H]; discriminate | intros [_ H]; discriminate]. }
    destruct (hex.fromHexChar q) as [b|].
    2:{ split; [intros [? H]; discriminate | intros [_ H]; discriminate]. }
    cbn [andb]. rewrite <- IH. split.
    + intros [bytes H]. destruct (hex.DecodeString s) as [bs|]; [|discriminate].
      exists bs. reflexivity.
    + intros [bs H]. rewrite H. eexists. reflexivity.
Qed.

Lemma DecodeString_length (s bytes : gostring) :
  hex.DecodeString s = Ok bytes -> length s = 2 * length bytes.
Proof.
  revert bytes. induction s as [| p | p q s IH] using list_ind2; intros bytes.
  - intros H. inversion H. reflexivity.
  - cbn [hex.DecodeString]. destruct (hex.fromHexChar p); discriminate.
  - cbn [hex.DecodeString].
    destruct (hex.fromHexChar p); [|discriminate].
    destruct (hex.fromHexChar q); [|discriminate].
    destruct (hex.DecodeString s) as [bs|]; [|discriminate].
    intros H. inversion H. cbn [length]. rewrite (IH bs eq_refl). lia.
Qed.

(** X21: [HexStringToCert] succeeds exactly on the inputs that, newlines and
    spaces removed, are an even number of hexadecimal digits; on every
    other input it returns the empty string with its error. *)
Theorem HexStringToCert_accepts (hexInput : gostring) :
  (snd (HexStringToCert hexInput) = None
   <-> Nat.even (length (hexDigitsOf hexInput)) = true
       /\ forallb isHexDigit (hexDigitsOf hexInput) = true)
  /\ (snd (HexStringToCert hexInput) <> None ->
      HexStringToCert hexInput = ([], Some (Errorf "Failed to decode hex string: %v"))).
Proof.
  rewrite <- DecodeString_ok_iff. unfold HexStringToCert, hexDigitsOf.
  destruct (hex.DecodeString _) as [bytes|e]; cbn [snd].
  - split; [|congruence]. split; [intros _; exists bytes; reflexivity | reflexivity].
  - split; [|reflexivity]. split; [discriminate | intros [? H]; discriminate].
Qed.

Lemma HexStringToCert_accepts_witness :
  HexStringToCert (go "3g") = ([], Some (Errorf "Failed to decode hex string: %v")).
Proof.
  apply (proj2 (HexStringToCert_accepts (go "3g"))). discriminate.
Defined.

Lemma withoutNewlines_app (a b : gostring) :
  withoutNewlines (a ++ b) = withoutNewlines a ++ withoutNewlines b.
Proof. apply filter_app. Qed.

Lemma withoutNewlines_id (s : gostring) : noNewline s = true -> withoutNewlines s = s.
Proof.
  unfold noNewline, withoutNewlines. intros H. apply negb_true_iff in H.
  induction s as [|c s IH]; [reflexivity|].
  cbn [existsb] in H. apply orb_false_elim in H. destruct H as [Hc Hs].
  cbn [filter]. rewrite Hc. cbn [negb]. rewrite (IH Hs). reflexivity.
Qed.

Lemma withoutNewlines_lines (lines : list gostring) :
  withoutNewlines (concat (map (fun line => line ++ ["010"%char]) lines))
  = withoutNewlines (concat lines).
Proof.
  induction lines as [|l lines IH]; [reflexivity|].
  cbn [map concat]. rewrite !withoutNewlines_app, IH.
  change (withoutNewlines ["010"%char]) with (@nil ascii). rewrite app_nil_r. reflexivity.
Qed.

(** X22: The text of [HexStringToCert] is the PEM text of the same bytes, as
    [BytesToString] writes it for a certificate, with every newline taken
    out. *)
Theorem HexStringToCert_BytesToString (hexInput bytes : gostring) :
  hex.DecodeString (hexDigitsOf hexInput) = Ok bytes ->
  HexStringToCert hexInput
  = (withoutNewlines (BytesToString bytes (go "CERTIFICATE")), None).
Proof.
  intros H. unfold HexStringToCert. fold (hexDigitsOf hexInput). rewrite H. cbv zeta.
  rewrite fold_left_app_concat, chunks_concat by lia.
  unfold BytesToString, pem.Encode. cbv zeta.
  rewrite !withoutNewlines_app, withoutNewlines_lines, chunks_concat by lia.
  rewrite (withoutNewlines_id _ (EncodeToString_no_newline bytes)).
  reflexivity.
Qed.

Lemma HexStringToCert_BytesToString_witness :
  HexStringToCert (go "30 82 01 0a")
  = (withoutNewlines (BytesToString ["0"%char; "130"%char; "001"%char; "010"%char]
                                    (go "CERTIFICATE")), None).
Proof.
  apply (HexStringToCert_BytesToString (go "30 82 01 0a")). reflexivity.
Defined.

Lemma CertChainToString_concat (leader : gostring) (chain : list Certificate) :
  CertChainToString leader chain = concat (map (fun cert => CertToString cert leader) chain).
Proof.
  unfold CertChainToString.
  assert (H : forall acc, fold_left (fun result cert => result ++ CertToString cert leader)
                                    chain acc
                          = acc ++ concat (map (fun cert => CertToString cert leader) chain)).
  { induction chain as [|c chain IH]; intros acc; cbn [fold_left map concat].
    - symmetry. apply app_nil_r.
    - rewrite IH, app_assoc. reflexivity. }
  apply H.
Qed.

Lemma chunks_lengths (fuel size : nat) :
  forall data : gostring, Forall (fun l => length l <= size) (chunks fuel size data).
Proof.
  induction fuel as [|fuel IH]; intros data; [constructor|].
  destruct data as [|b data]; [constructor|].
  cbn [chunks]. constructor; [|apply IH].
  rewrite length_firstn. lia.
Qed.

(** X23: The text of a chain of certificates is the PEM blocks of its
    certificates, in order, and nothing else; each block is the line of
    [BEGIN], lines of at most 64 base64 characters that together are the
    base64 text of the certificate, and the line of [END]; and it is never
    empty, the error of [pem.Encode] being out of reach. *)
Theorem CertChainToString_blocks (leader : gostring) (chain : list Certificate) :
  CertChainToString leader chain = concat (map (fun cert => CertToString cert leader) chain)
  /\ forall cert,
       exists lines,
         CertToString cert leader
         = go "-----BEGIN " ++ leader ++ go "-----" ++ ["010"%char]
           ++ concat (map (fun line => line ++ ["010"%char]) lines)
           ++ go "-----END " ++ leader ++ go "-----" ++ ["010"%char]
         /\ concat lines = base64.EncodeToString (Raw cert)
         /\ Forall (fun line => length line <= 64 /\ noNewline line = true) lines
         /\ CertToString cert leader <> [].
Proof.
  split; [apply CertChainToString_concat|]. intros cert.
  exists (chunks (length (base64.EncodeToString (Raw cert))) 64
                 (base64.EncodeToString (Raw cert))).
  split; [reflexivity|]. split; [apply chunks_concat; lia|]. split.
  - pose proof (chunks_lengths (length (base64.EncodeToString (Raw cert))) 64
                               (base64.EncodeToString (Raw cert))) as Hl.
    assert (Hn : noNewline (concat (chunks (length (base64.EncodeToString (Raw cert))) 64
                                           (base64.EncodeToString (Raw cert)))) = true).
    { rewrite chunks_concat by lia. apply EncodeToString_no_newline. }
    revert Hl Hn. generalize (chunks (length (base64.EncodeToString (Raw cert))) 64
                                     (base64.EncodeToString (Raw cert))).
    induction l as [|x l IH]; intros Hl Hn; [constructor|].
    inversion Hl; subst. cbn [concat] in Hn. rewrite noNewline_app in Hn.
    apply andb_prop in Hn. destruct Hn as [Hx Hn].
    constructor; [split; assumption | apply IH; assumption].
  - discriminate.
Qed.

Lemma ssh_receive_pending {W : Type} (codec : ssh.Codec) (s : ssh.SSH W) (w : W)
      (messageName messageBody : gostring) :
  ssh.pendingError s = None ->
  ssh.pendingError (fst (fst (ssh.Receive codec s w messageName messageBody))) = None.
Proof.
  intros Hs. unfold ssh.Receive, ssh.receive.
  destruct (gostring_eqb messageName (go "add-key")).
  { destruct (ssh.receiveAddKey codec s w messageBody) as [w' [e|]]; [reflexivity | exact Hs]. }
  destruct (gostring_eqb messageName (go "error")).
  { destruct (ssh.DecodeUint codec messageBody); reflexivity. }
  reflexivity.
Qed.

Lemma sshReaches_pending {W : Type} (codec : ssh.Codec) (s : ssh.SSH W) :
  sshReaches codec s -> ssh.pendingError s = None.
Proof.
  induction 1 as [| s w key body Hs IH | s active Hs IH | s w Hs IH].
  - reflexivity.
  - apply ssh_receive_pending, IH.
  - unfold ssh.Transition. destruct (negb active); [reflexivity | exact IH].
  - unfold ssh.Yield. rewrite IH. destruct (negb (ssh.hostKeysSent s)); [|exact IH].
    destruct (ssh.sendHostKeys codec s w) as [[w' out] [e|]]; [exact IH | reflexivity].
Qed.

(** X24: The error code of an [error] message never stays with the module:
    [Receive] stores it and resets the module before it returns.  So
    [Yield] never fails on a pending error, and every message but
    [add-key] is answered with an error that leaves the module reset, the
    host keys to be sent again. *)
Theorem SSH_no_pending_error {W : Type} (codec : ssh.Codec) (s : ssh.SSH W) (w : W) :
  sshReaches codec s ->
  ssh.pendingError s = None
  /\ snd (ssh.Yield codec s w) <> Some (Errorf "SSH operation failed with error code %d")
  /\ (forall messageName messageBody,
         messageName <> go "add-key" ->
         exists err,
           ssh.Receive codec s w messageName messageBody = (ssh.reset s, w, Some err)).
Proof.
  intros Hs. pose proof (sshReaches_pending codec s Hs) as Hp.
  split; [exact Hp|]. split.
  - unfold ssh.Yield. rewrite Hp. destruct (negb (ssh.hostKeysSent s)); [|discriminate].
    unfold ssh.sendHostKeys.
    destruct (ssh.GetHostKeys s) as [g|]; [|discriminate].
    destruct (g w) as [w' [keys|e]]; [|discriminate].
    destruct (len keys =? 0)%Z; [discriminate|].
    destruct (ssh.EncodeStrings codec keys); discriminate.
  - intros key body Hk. unfold ssh.Receive, ssh.receive.
    destruct (gostring_eqb key (go "add-key")) eqn:E.
    { apply gostring_eqb_eq in E. contradiction. }
    destruct (gostring_eqb key (go "error")).
    + destruct (ssh.DecodeUint codec body); eexists; reflexivity.
    + eexists. reflexivity.
Qed.

Lemma SSH_no_pending_error_witness :
  exists err,
    ssh.Receive sshCodec sshDevice [] (go "error") (cbor.int 2)
    = (ssh.reset sshDevice, [], Some err).
Proof.
  apply (proj2 (proj2 (SSH_no_pending_error sshCodec sshDevice [] (sshReaches_new _ _ _ _)))).
  discriminate.
Defined.

(** X25: The host keys are sent once: a [Yield] that returns no error leaves a
    module whose further [Yield]s write nothing and do not call [yield],
    and the one message it writes itself, if any, is [host-keys] with the
    keys that [GetHostKeys] returned, of which there is at least one. *)
Theorem SSH_Yield_once {W : Type} (codec : ssh.Codec) (s s' : ssh.SSH W) (w w' : W)
        (out : list fsim.KV) (yielded : bool) :
  ssh.Yield codec s w = (s', w', out, yielded, None) ->
  (forall w2, ssh.Yield codec s' w2 = (s', w2, [], false, None))
  /\ (ssh.hostKeysSent s = true -> out = [] /\ yielded = false /\ s' = s /\ w' = w)
  /\ (ssh.hostKeysSent s = false ->
      yielded = true
      /\ exists getHostKeys hostKeys body,
          ssh.GetHostKeys s = Some getHostKeys
          /\ getHostKeys w = (w', Ok hostKeys)
          /\ hostKeys <> []
          /\ ssh.EncodeStrings codec hostKeys = Ok body
          /\ out = [(go "host-keys", body)]).
Proof.
  unfold ssh.Yield. destruct (ssh.pendingError s) eqn:Hp; [discriminate|].
  destruct (ssh.hostKeysSent s) eqn:Hsent; cbn [negb].
  - intros E. inversion E. subst. split; [|split].
    + intros w2. rewrite Hp, Hsent. reflexivity.
    + intros _. repeat split.
    + discriminate.
  - unfold ssh.sendHostKeys.
    destruct (ssh.GetHostKeys s) as [g|] eqn:Eg; [|discriminate].
    destruct (g w) as [w1 [keys|e]] eqn:Egw; [|discriminate].
    destruct (len keys =? 0)%Z eqn:El; [discriminate|].
    destruct (ssh.EncodeStrings codec keys) as [body|] eqn:Ee; [|discriminate].
    intros E. inversion E. subst. split; [|split].
    + intros w2. reflexivity.
    + discriminate.
    + intros _. split; [reflexivity|]. exists g, keys, body.
      repeat split; try assumption.
      intros ->. discriminate.
Qed.

Lemma SSH_Yield_once_witness :
  ssh.Yield sshCodec (ssh.withState sshDevice true None) [(go "k", go "admin", false)]
  = (ssh.withState sshDevice true None, [(go "k", go "admin", false)], [], false, None).
Proof.
  apply (proj1 (SSH_Yield_once sshCodec sshDevice (ssh.withState sshDevice true None) [] []
                  [(go "host-keys",
                    cbor.head 4 1 ++ cbor.tstr (go "ssh-ed25519 AAAA host"))] true eq_refl)).
Defined.

Lemma index_nth {A : Type} (l : list A) (i : nat) (a : A) :
  nth_error l i = Some a -> fsim.index l (Z.of_nat i) = Returns a.
Proof.
  intros H. unfold fsim.index. destruct (Z.ltb_spec (Z.of_nat i) 0); [lia|].
  rewrite Nat2Z.id, H. reflexivity.
Qed.

Lemma produceAll_keys {W : Type} (codec : ssh.Codec)
      (WriteChunk : fsim.Producer -> gostring -> gostring -> result fsim.Producer)
      (encode : ssh.SSHKeyInstall -> gostring) :
  (forall k, ssh.EncodeKeyInstall codec k = Ok (encode k)) ->
  (forall producer key body, WriteChunk producer key body = Ok (producer ++ [(key, body)])) ->
  forall (rest done : list ssh.SSHKeyInstall) (s : ssh.SSHOwner W) (producer : fsim.Producer)
         (fuel : nat),
    ssh.AuthorizedKeys s = done ++ rest ->
    ssh.keyIndex s = len done ->
    ssh.pendingResponse s = None ->
    (len (ssh.AuthorizedKeys s) < 2 ^ 63)%Z ->
    length rest < fuel ->
    ssh.produceAll codec WriteChunk fuel s producer
    = Returns (ssh.withIndex s (len (ssh.AuthorizedKeys s)) None,
               producer ++ map (fun k => (go "add-key", encode k)) rest,
               fsim.ModuleDone).
Proof.
  intros Henc Hw. induction rest as [|k rest IH]; intros done s producer fuel Hk Hi Hp Hl Hf.
  - destruct fuel as [|fuel]; [cbn [length] in Hf; lia|].
    cbn [ssh.produceAll]. unfold ssh.ProduceInfo. rewrite Hp.
    rewrite app_nil_r in Hk. rewrite Hi, Hk.
    rewrite Z.ltb_irrefl. cbn [map]. rewrite app_nil_r.
    destruct s as [keys on i pend]. cbn in *. subst. reflexivity.
  - destruct fuel as [|fuel]; [cbn [length] in Hf; lia|].
    cbn [ssh.produceAll]. unfold ssh.ProduceInfo. rewrite Hp.
    assert (Hlt : (ssh.keyIndex s <? len (ssh.AuthorizedKeys s))%Z = true).
    { apply Z.ltb_lt. rewrite Hi, Hk, len_app. unfold len. cbn [length]. lia. }
    rewrite Hlt.
    assert (Hnth : nth_error (ssh.AuthorizedKeys s) (length done) = Some k).
    { rewrite Hk, nth_error_app2 by lia. rewrite Nat.sub_diag. reflexivity. }
    rewrite Hi. unfold len at 1. rewrite (index_nth _ _ _ Hnth).
    rewrite Henc, Hw.
    assert (Hi' : wrap64 (len done + 1) = len (done ++ [k])).
    { rewrite len_app. unfold len. cbn [length].
      apply wrap64_small. rewrite Hk, len_app in Hl. unfold len in Hl. cbn [length] in Hl. lia. }
    rewrite Hi'.
    rewrite (IH (done ++ [k])).
    + cbn [ssh.withIndex ssh.AuthorizedKeys ssh.OnHostKeys map].
      rewrite <- app_assoc. reflexivity.
    + cbn [ssh.withIndex ssh.AuthorizedKeys]. rewrite Hk, <- app_assoc. reflexivity.
    + reflexivity.
    + reflexivity.
    + exact Hl.
    + cbn [length] in Hf. lia.
Qed.

(** X26: The owner module of fdo.ssh sends each authorized key once, in the
    order of the list, one [add-key] message for each call of
    [ProduceInfo], and then reports that it is done. *)
Theorem SSHOwner_sends_keys_in_order {W : Type} (codec : ssh.Codec)
        (WriteChunk : fsim.Producer -> gostring -> gostring -> result fsim.Producer)
        (encode : ssh.SSHKeyInstall -> gostring)
        (keys : list ssh.SSHKeyInstall)
        (onHostKeys : option (W -> list gostring -> W * option error)) :
  (forall k, ssh.EncodeKeyInstall codec k = Ok (encode k)) ->
  (forall producer key body, WriteChunk producer key body = Ok (producer ++ [(key, body)])) ->
  (len keys < 2 ^ 63)%Z ->
  ssh.produceAll codec WriteChunk (S (length keys))
                 {| ssh.AuthorizedKeys := keys; ssh.OnHostKeys := onHostKeys;
                    ssh.keyIndex := 0; ssh.pendingResponse := None |} []
  = Returns ({| ssh.AuthorizedKeys := keys; ssh.OnHostKeys := onHostKeys;
                ssh.keyIndex := len keys; ssh.pendingResponse := None |},
             map (fun k => (go "add-key", encode k)) keys,
             fsim.ModuleDone).
Proof.
  intros Henc Hw Hl.
  rewrite (produceAll_keys codec WriteChunk encode Henc Hw keys []); try reflexivity.
  - exact Hl.
  - lia.
Qed.

Lemma SSHOwner_sends_keys_in_order_witness :
  ssh.produceAll sshCodec shortCodec.WriteChunk 3
    {| ssh.AuthorizedKeys := [ {| ssh.Key := go "k1"; ssh.Username := go "a"; ssh.Sudo := true |};
                               {| ssh.Key := go "k2"; ssh.Username := []; ssh.Sudo := false |} ];
       ssh.OnHostKeys := @None (unit -> list gostring -> unit * option error);
       ssh.keyIndex := 0; ssh.pendingResponse := None |} []
  = Returns
      ({| ssh.AuthorizedKeys := [ {| ssh.Key := go "k1"; ssh.Username := go "a"; ssh.Sudo := true |};
                                  {| ssh.Key := go "k2"; ssh.Username := []; ssh.Sudo := false |} ];
          ssh.OnHostKeys := None;
          ssh.keyIndex := 2; ssh.pendingResponse := None |},
       [(go "add-key", cbor.tstr (go "k1")); (go "add-key", cbor.tstr (go "k2"))],
       fsim.ModuleDone).
Proof.
  apply (SSHOwner_sends_keys_in_order sshCodec shortCodec.WriteChunk
           (fun k => cbor.tstr (ssh.Key k))
           [ {| ssh.Key := go "k1"; ssh.Username := go "a"; ssh.Sudo := true |};
             {| ssh.Key := go "k2"; ssh.Username := []; ssh.Sudo := false |} ] None).
  - reflexivity.
  - reflexivity.
  - vm_compute. reflexivity.
Defined.
